(** * Real-estate transaction search: the address route handler and the zip directory

    A shallow embedding of [src/app/utils/zipLookup.ts], of the route
    handler of [src/app/page.tsx] ([extractZipcode], [findParcelUrl],
    [removeZipcode], [POST]) and of the search form in front of it
    ([AddressSearch]: [addStep], [updateLastStep], [handleSearch]), with the
    properties of the specification stated over it, and further properties
    of the code after them.

    Conventions of the embedding.
    - A JavaScript string is a sequence of code units; the code units
      modelled are U+0000..U+00FF, one [ascii] each.
    - JavaScript values are the type [value]; numbers are the integer-valued
      ones, as [Z]: a number with a fractional part has no counterpart here.
      [number_toString] writes all the digits of its argument, as
      [Number.prototype.toString] does for the safe integers (up to 2^53 - 1
      in absolute value); the statements that read the digits of a number
      bound it.  The relevance score of a search result is a rational.
    - A regular expression literal of the source is a term of [regex], run by
      a backtracking matcher that follows the priorities of the ECMAScript
      matcher (leftmost start, greedy or lazy quantifiers, left alternative
      first).
    - The remote services (search, extract, completion), [JSON.parse] and the
      spreadsheet reader are parameters: the record [Env] and the argument
      of [initializeZipData].
    - [console.log] is kept for the section banners ("=== ... ===", without
      their leading line break), which record the branch that runs.
    - The form is a state machine: its six [useState] variables are the
      record [AddressSearch.State], a setter is a function on that record,
      and [handleSearch] is followed from the render that started it until
      its promise settles, no other event coming in between.  The values
      that its closure holds ([address], [stepCounter]) are those of that
      render.  The browser ([fetch], the clock) is the record [Browser]. *)

From Stdlib Require Import ZArith QArith Ascii String List Bool Lia Permutation Sorted.
From Stdlib Require Import DecimalString.
From stdpp Require Import base option gmap strings list.

Local Open Scope nat_scope.
Local Set Warnings "-register-all".
#[local] Arguments String.append !s1 s2 : simpl nomatch.
#[local] Arguments String.length !s : simpl nomatch.

(* ===================================================================== *)
(** * Strings *)
(* ===================================================================== *)

Module Str.

Definition code (c : ascii) : N := N_of_ascii c.

Definition between (lo hi : N) (c : ascii) : bool :=
  ((lo <=? code c) && (code c <=? hi))%N.

(** [\d] *)
Definition isDigit (c : ascii) : bool := between 48 57 c.

(** [\w]: letters, digits and the underscore. *)
Definition isWordChar (c : ascii) : bool :=
  isDigit c || between 65 90 c || between 97 122 c || (code c =? 95)%N.

(** [\s], and the characters removed by [trim]: TAB, LF, VT, FF, CR, SP and
    NBSP are the white space and line terminators below U+0100. *)
Definition isSpace (c : ascii) : bool :=
  between 9 13 c || (code c =? 32)%N || (code c =? 160)%N.

(** Line terminators, which [.] does not match. *)
Definition isLineTerminator (c : ascii) : bool :=
  (code c =? 10)%N || (code c =? 13)%N.

(** [toLowerCase] on one code unit: A-Z and the accented capitals of
    Latin-1 (U+00C0..U+00DE without the multiplication sign). *)
Definition toLowerChar (c : ascii) : ascii :=
  if between 65 90 c || between 192 214 c || between 216 222 c
  then ascii_of_N (code c + 32) else c.

Fixpoint toLowerCase (s : string) : string :=
  match s with
  | EmptyString => EmptyString
  | String c s' => String (toLowerChar c) (toLowerCase s')
  end.

Fixpoint trimStart (s : string) : string :=
  match s with
  | String c s' => if isSpace c then trimStart s' else s
  | EmptyString => EmptyString
  end.

(** [trimEnd] keeps a character when it is not white space or when something
    is kept after it. *)
Fixpoint trimEnd (s : string) : string :=
  match s with
  | EmptyString => EmptyString
  | String c s' =>
      match trimEnd s' with
      | EmptyString => if isSpace c then EmptyString else String c EmptyString
      | t => String c t
      end
  end.

Definition trim (s : string) : string := trimEnd (trimStart s).

(** [s.includes(sub)] *)
Fixpoint includes (s sub : string) : bool :=
  String.prefix sub s ||
  match s with
  | EmptyString => false
  | String _ s' => includes s' sub
  end.

(** [fill] repeated and cut to [k] characters, as [padStart] builds it. *)
Fixpoint filler (k : nat) (cur fill : string) : string :=
  match k with
  | O => EmptyString
  | S k' =>
      match cur with
      | String c cur' => String c (filler k' cur' fill)
      | EmptyString =>
          match fill with
          | String c cur' => String c (filler k' cur' fill)
          | EmptyString => EmptyString
          end
      end
  end.

(** [s.padStart(targetLength, fill)] *)
Definition padStart (targetLength : nat) (fill s : string) : string :=
  filler (targetLength - String.length s) fill fill +:+ s.

(** The last character of [w], or [prev] when [w] is empty: the character
    before the position reached after reading [w]. *)
Fixpoint last_char (prev : option ascii) (w : string) : option ascii :=
  match w with
  | EmptyString => prev
  | String c w' => last_char (Some c) w'
  end.

Definition first_char (s : string) : option ascii :=
  match s with
  | EmptyString => None
  | String c _ => Some c
  end.

Fixpoint all_chars (p : ascii -> bool) (s : string) : bool :=
  match s with
  | EmptyString => true
  | String c s' => p c && all_chars p s'
  end.

Definition is_empty (s : string) : bool :=
  match s with
  | EmptyString => true
  | String _ _ => false
  end.

End Str.

Import Str.

(* ===================================================================== *)
(** * Regular expressions *)
(* ===================================================================== *)

Module Regex.

(** The fragment of the regular expression syntax that the source uses.
    A quantifier applies to a single-character class ([\s+], [[^)]+],
    [\d+], [.*]); [Star greedy p] is [p*] or [p*?]. *)
Inductive regex : Type :=
| Eps
| Chr (p : ascii -> bool)
| Star (greedy : bool) (p : ascii -> bool)
| Seq (r1 r2 : regex)
| Alt (r1 r2 : regex)
| Grp (n : nat) (r : regex)
| WordB
| Bol
| Eol.

(** Captures, the most recent first. *)
Definition caps := list (nat * string).

Fixpoint capture (n : nat) (cs : caps) : option string :=
  match cs with
  | [] => None
  | (m, w) :: cs' => if Nat.eqb m n then Some w else capture n cs'
  end.

(** [\b]: exactly one of the two neighbours is a word character. *)
Definition word_boundary (prev : option ascii) (s : string) : bool :=
  xorb (from_option isWordChar false prev)
       (from_option isWordChar false (first_char s)).

Section Matcher.
Context {A : Type}.

(** [p*], longest first. *)
Fixpoint star_greedy (p : ascii -> bool) (s : string)
    (k : string -> string -> option A) : option A :=
  match s with
  | String c s' =>
      if p c then
        match star_greedy p s' (fun w rest => k (String c w) rest) with
        | Some a => Some a
        | None => k EmptyString s
        end
      else k EmptyString s
  | EmptyString => k EmptyString s
  end.

(** [p*?], shortest first. *)
Fixpoint star_lazy (p : ascii -> bool) (s : string)
    (k : string -> string -> option A) : option A :=
  match k EmptyString s with
  | Some a => Some a
  | None =>
      match s with
      | String c s' =>
          if p c then star_lazy p s' (fun w rest => k (String c w) rest)
          else None
      | EmptyString => None
      end
  end.

(** [rmatch r prev s cs k] matches [r] at the head of [s], [prev] being the
    character before it, and hands the text read, the rest of the input
    and the captures to the continuation [k]; when [k] fails the matcher
    backtracks into [r]. *)
Fixpoint rmatch (r : regex) (prev : option ascii) (s : string) (cs : caps)
    (k : string -> string -> caps -> option A) : option A :=
  match r with
  | Eps => k EmptyString s cs
  | Chr p =>
      match s with
      | String c s' => if p c then k (String c EmptyString) s' cs else None
      | EmptyString => None
      end
  | Star g p =>
      (if g then star_greedy else star_lazy) p s (fun w rest => k w rest cs)
  | Seq r1 r2 =>
      rmatch r1 prev s cs (fun w1 s1 cs1 =>
        rmatch r2 (last_char prev w1) s1 cs1 (fun w2 s2 cs2 =>
          k (w1 +:+ w2) s2 cs2))
  | Alt r1 r2 =>
      match rmatch r1 prev s cs k with
      | Some a => Some a
      | None => rmatch r2 prev s cs k
      end
  | Grp n r' => rmatch r' prev s cs (fun w s' cs' => k w s' ((n, w) :: cs'))
  | WordB => if word_boundary prev s then k EmptyString s cs else None
  | Bol => match prev with None => k EmptyString s cs | Some _ => None end
  | Eol => match s with EmptyString => k EmptyString s cs | _ => None end
  end.
End Matcher.

(** One match: the text before it, the text matched, the text after it and
    the captures. *)
Record found := Found {
  before : string;
  matched : string;
  after : string;
  groups : caps
}.

(** A match that starts at the head of [s]. *)
Definition exec_at (r : regex) (prev : option ascii) (s : string) : option found :=
  rmatch r prev s [] (fun w rest cs => Some (Found EmptyString w rest cs)).

Definition shift (c : ascii) (f : found) : found :=
  Found (String c (before f)) (matched f) (after f) (groups f).

(** The leftmost match: [s.match(r)] and [r.exec(s)] for a regular
    expression without the [g] flag. *)
Fixpoint search (r : regex) (prev : option ascii) (s : string) : option found :=
  match exec_at r prev s with
  | Some f => Some f
  | None =>
      match s with
      | EmptyString => None
      | String c s' => shift c <$> search r (Some c) s'
      end
  end.

(** [s.replace(r, by)] without the [g] flag. *)
Definition replace (r : regex) (by_ : string) (s : string) : string :=
  match search r None s with
  | Some f => before f +:+ by_ +:+ after f
  | None => s
  end.

(** The scan of a regular expression with the [g] flag: the characters
    outside the matches and the matches, in order.  After a match the scan
    resumes at its end, one character further when the match is empty. *)
Inductive piece :=
| Lit (c : ascii)
| Hit (w : string) (cs : caps).

Fixpoint scan (r : regex) (prev : option ascii) (s : string) (skip : nat)
    : list piece :=
  match skip with
  | S n =>
      match s with
      | String c s' => scan r (Some c) s' n
      | EmptyString => []
      end
  | O =>
      match exec_at r prev s with
      | Some f =>
          Hit (matched f) (groups f) ::
          match s with
          | String c s' =>
              match String.length (matched f) with
              | O => Lit c :: scan r (Some c) s' 0
              | S n => scan r (Some c) s' n
              end
          | EmptyString => []
          end
      | None =>
          match s with
          | String c s' => Lit c :: scan r (Some c) s' 0
          | EmptyString => []
          end
      end
  end.

(** The text that the pieces of a scan give when every match is replaced by
    [by_]. *)
Definition rebuild (by_ : string) (ps : list piece) : string :=
  fold_right (fun p acc =>
      match p with
      | Lit c => String c acc
      | Hit _ _ => by_ +:+ acc
      end) EmptyString ps.

(** [s.replace(r, by)] with the [g] flag. *)
Definition replaceAll (r : regex) (by_ : string) (s : string) : string :=
  rebuild by_ (scan r None s 0).

(** The successive matches of [r.exec(s)] in a loop, or of [s.matchAll(r)]:
    the text and the captures of each. *)
Definition matchAll (r : regex) (s : string) : list (string * caps) :=
  omap (fun p => match p with Lit _ => None | Hit w cs => Some (w, cs) end)
       (scan r None s 0).

(** ** Building blocks for the literals of the source *)

Fixpoint seqs (rs : list regex) : regex :=
  match rs with
  | [] => Eps
  | [r] => r
  | r :: rs' => Seq r (seqs rs')
  end.

Fixpoint times (n : nat) (r : regex) : regex :=
  match n with
  | O => Eps
  | S O => r
  | S n' => Seq r (times n' r)
  end.

Definition plus (p : ascii -> bool) : regex := Seq (Chr p) (Star true p).
Definition plus_lazy (p : ascii -> bool) : regex := Seq (Chr p) (Star false p).
Definition opt (r : regex) : regex := Alt r Eps.

Definition eqc (x : ascii) : ascii -> bool := fun c => Ascii.eqb c x.
Definition neqc (x : ascii) : ascii -> bool := fun c => negb (Ascii.eqb c x).
(** A literal character under the [i] flag. *)
Definition ci (x : ascii) : ascii -> bool :=
  fun c => Ascii.eqb (toLowerChar c) (toLowerChar x).
(** [.] *)
Definition dot : ascii -> bool := fun c => negb (isLineTerminator c).

Fixpoint lit (s : string) : regex :=
  match s with
  | EmptyString => Eps
  | String c EmptyString => Chr (eqc c)
  | String c s' => Seq (Chr (eqc c)) (lit s')
  end.

Fixpoint lit_i (s : string) : regex :=
  match s with
  | EmptyString => Eps
  | String c EmptyString => Chr (ci c)
  | String c s' => Seq (Chr (ci c)) (lit_i s')
  end.

End Regex.

Import Regex.

(* ===================================================================== *)
(** * The address helpers of the route handler *)
(* ===================================================================== *)

(** [/\b\d{5}(?:-\d{4})?\b/] *)
Definition zipcodeRegex : regex :=
  seqs [WordB; times 5 (Chr isDigit);
       opt (Seq (Chr (eqc "-")) (times 4 (Chr isDigit))); WordB].

(** [extractZipcode]: [address.match(zipcodeRegex)], then [match[0]] or
    [null]. *)
Definition extractZipcode (address : string) : option string :=
  matched <$> search zipcodeRegex None address.

(** [removeZipcode]: the regular expression is
    [/,?\s*\b\d{5}(?:-\d{4})?\b/]. *)
Definition removeZipcodeRegex : regex :=
  seqs [opt (Chr (eqc ",")); Star true isSpace; zipcodeRegex].

Definition removeZipcode (address : string) : string :=
  trim (replace removeZipcodeRegex "" address).

(* ===================================================================== *)
(** * JavaScript values, exceptions and the log *)
(* ===================================================================== *)

Inductive value : Type :=
| VUndef
| VNull
| VBool (b : bool)
| VNum (z : Z)
| VStr (s : string)
| VArr (items : list value)
| VObj (fields : list (string * value)).

(** [ToBoolean] *)
Definition truthy (v : value) : bool :=
  match v with
  | VUndef | VNull => false
  | VBool b => b
  | VNum z => negb (z =? 0)%Z
  | VStr s => negb (is_empty s)
  | VArr _ | VObj _ => true
  end.

(** The value of an own property of an object literal, [undefined] when the
    object has none of that name. *)
Fixpoint field (key : string) (fields : list (string * value)) : value :=
  match fields with
  | [] => VUndef
  | (k, v) :: fields' => if String.eqb k key then v else field key fields'
  end.

(** [Number.prototype.toString] on a safe integer (at most 2^53 - 1 in
    absolute value): all its digits, after the sign.  Beyond that range the
    source rounds, and writes an exponent from 1e21 on; this definition does
    not. *)
Definition number_toString (z : Z) : string :=
  NilZero.string_of_int (Z.to_int z).

(** [String(v)], as a template literal and [Array.prototype.join] apply it. *)
Fixpoint js_toString (v : value) : string :=
  match v with
  | VUndef => "undefined"
  | VNull => "null"
  | VBool true => "true"
  | VBool false => "false"
  | VNum z => number_toString z
  | VStr s => s
  | VArr items =>
      (fix join (l : list value) : string :=
         match l with
         | [] => ""
         | [x] => match x with VUndef | VNull => "" | _ => js_toString x end
         | x :: l' =>
             match x with VUndef | VNull => "" | _ => js_toString x end
             +:+ "," +:+ join l'
         end) items
  | VObj _ => "[object Object]"
  end.

(** What a [throw] carries: an [Error] with its message, or another value. *)
Inductive thrown :=
| ErrorObj (message : string)
| NonError.

Inductive result (A : Type) :=
| Val (a : A)
| Throw (e : thrown).
Arguments Val {A} a.
Arguments Throw {A} e.

(** A computation: the banners it logs, and its value or the exception it
    raises. *)
Definition M (A : Type) : Type := list string * result A.

Definition ret {A} (a : A) : M A := ([], Val a).
Definition throw {A} (e : thrown) : M A := ([], Throw e).
Definition log (banner : string) : M unit := ([banner], Val tt).
Definition lift {A} (r : result A) : M A := ([], r).

Definition bind {A B} (m : M A) (f : A -> M B) : M B :=
  match m with
  | (l, Val a) => let '(l', r) := f a in (l ++ l', r)
  | (l, Throw e) => (l, Throw e)
  end.

(** [try { m } catch (e) { h e }] *)
Definition try_catch {A} (m : M A) (h : thrown -> M A) : M A :=
  match m with
  | (l, Throw e) => let '(l', r) := h e in (l ++ l', r)
  | (l, Val a) => (l, Val a)
  end.

Notation "'do' x <- m ;; k" := (bind m (fun x => k))
  (at level 10, x name, m at level 99, k at level 200, only parsing).
Notation "'run' m ;; k" := (bind m (fun _ => k))
  (at level 10, m at level 99, k at level 200, only parsing).

(** The outermost [try]/[catch] of a function, whose handler logs a banner
    and returns: the computation no longer raises. *)
Definition catch_all {A} (m : M A) (banner : string) (h : thrown -> A)
    : list string * A :=
  match m with
  | (l, Val a) => (l, a)
  | (l, Throw e) => (l ++ [banner], h e)
  end.

(* ===================================================================== *)
(** * The zip directory ([zipLookup.ts]) *)
(* ===================================================================== *)

Record ZipInfo := {
  zip : string;
  city : value;
  state_id : value;
  state_name : value;
  county_name : value;
  county_fips : string
}.

(** [x || ''] *)
Definition or_empty (v : value) : value := if truthy v then v else VStr "".

(** [x?.toString() || ''] for a cell of the sheet. *)
Definition cell_toString (v : value) : string :=
  match v with
  | VUndef | VNull => ""
  | _ => js_toString v
  end.

(** The key of a row: a numeric cell is padded to five characters, any other
    cell is taken as its string. *)
Definition zip_key (cell : value) : string :=
  match cell with
  | VNum z => padStart 5 "0" (number_toString z)
  | _ => cell_toString cell
  end.

(** The object that the callback stores for a row. *)
Definition row_record (row : list (string * value)) : ZipInfo :=
  {| zip := zip_key (field "zip" row);
     city := or_empty (field "city" row);
     state_id := field "state_id" row;
     state_name := or_empty (field "state_name" row);
     county_name := field "county_name" row;
     county_fips := cell_toString (field "county_fips" row) |}.

(** The guard of the callback: [zip && row.county_name && row.state_id]. *)
Definition row_retained (row : list (string * value)) : bool :=
  negb (is_empty (zip_key (field "zip" row)))
  && truthy (field "county_name" row) && truthy (field "state_id" row).

(** The body of the [forEach] callback: one row of [sheet_to_json], an object
    given by its properties. *)
Definition add_row (m : gmap string ZipInfo) (row : list (string * value))
    : gmap string ZipInfo :=
  if row_retained row
  then <[ zip_key (field "zip" row) := row_record row ]> m
  else m.

(** What reading and parsing the spreadsheet gives: an exception, or the rows
    of the first sheet. *)
Inductive sheet :=
| Unreadable (e : thrown)
| Rows (rows : list (list (string * value))).

(** The module variable [zipData]: [null], or the map. *)
Definition store := option (gmap string ZipInfo).

(** [initializeZipData]: the new [zipData] and the outcome of the call. *)
Definition initializeZipData (zipData : store) (file : sheet) : store * result unit :=
  match zipData with
  | Some _ => (zipData, Val tt)
  | None =>
      match file with
      | Unreadable _ => (None, Throw (ErrorObj "Failed to load ZIP code database"))
      | Rows rows => (Some (fold_left add_row rows ∅), Val tt)
      end
  end.

(** [lookupZip] *)
Definition lookupZip (zipData : store) (zipcode : string) : result (option ZipInfo) :=
  match zipData with
  | None => Throw (ErrorObj "ZIP database not initialized")
  | Some m => Val (m !! zipcode)
  end.

(** The route module at load time: [initializeZipData().catch(console.error)]
    on the fresh module state; the rejection is only logged. *)
Definition module_load (file : sheet) : store :=
  fst (initializeZipData None file).

(* ===================================================================== *)
(** * The route handler ([POST]) *)
(* ===================================================================== *)

(** A result of the search service.  The score is the provider's relevance
    score, a finite number; [rawContent] is absent when the provider sends
    none. *)
Record TavilySearchResult := {
  title : string;
  url : string;
  content : string;
  score : Q;
  rawContent : option string
}.

Record TavilyExtractResult := {
  extract_url : string;
  extract_rawContent : string
}.

(** The world outside the handler.  A completion call is given by the values
    interpolated into its prompt, and answers with
    [choices[0].message.content] ([None] for [null]) or raises. *)
Record Env := {
  (** the message of a [TypeError] raised by the engine *)
  typeErrorMessage : string;
  (** [JSON.parse]; it raises a [SyntaxError] on a text that is not JSON *)
  JSON_parse : string -> result value;
  (** [client.search(query, ...)]: the [results] array *)
  tavily_search : string -> result (list TavilySearchResult);
  (** [client.extract([link], ...)]: the [results] array, empty when the
      response has none *)
  tavily_extract : value -> result (list TavilyExtractResult);
  (** the first completion, from [searchAddress] and [resultToUse] *)
  ai_first : string -> TavilySearchResult -> result (option string);
  (** the second completion, from the content to analyse *)
  ai_second : string -> result (option string)
}.

Record Response := {
  status : nat;
  body : value
}.

(** [NextResponse.json(fields, { status })]: serialisation leaves out the
    properties whose value is [undefined]. *)
Definition NextResponse_json (fields : list (string * value)) (status : nat)
    : Response :=
  {| status := status;
     body := VObj (List.filter
                     (fun kv => match snd kv with VUndef => false | _ => true end)
                     fields) |}.

Definition error_response (message : string) (status : nat) : Response :=
  NextResponse_json [("error", VStr message)] status.

(** [error instanceof Error ? error.message : 'Failed to process transactions'] *)
Definition errorMessage (e : thrown) : string :=
  match e with
  | ErrorObj m => m
  | NonError => "Failed to process transactions"
  end.

Definition typeError {A} (env : Env) : M A :=
  throw (ErrorObj (typeErrorMessage env)).

(** [v.p] for [v] neither [null] nor [undefined], and a property name that
    only object literals carry. *)
Definition prop (key : string) (v : value) : value :=
  match v with
  | VObj fields => field key fields
  | _ => VUndef
  end.

(** [v.toLowerCase()]: a [TypeError] unless [v] is a string. *)
Definition toLowerCase_of (env : Env) (v : value) : M string :=
  match v with
  | VStr s => ret (toLowerCase s)
  | _ => typeError env
  end.

(** ** Sorting the candidates *)

(** [results.sort((a, b) => b.score - a.score)]: the sort is stable, so the
    outcome is the stable arrangement by decreasing score; it is built here by
    insertion.  [a] goes after [b] when the comparator is positive. *)
Definition goes_after (a b : TavilySearchResult) : bool :=
  negb (Qle_bool (score b) (score a)).

Fixpoint insert_by_score (a : TavilySearchResult) (l : list TavilySearchResult)
    : list TavilySearchResult :=
  match l with
  | [] => [a]
  | b :: l' => if goes_after a b then b :: insert_by_score a l' else a :: l
  end.

Definition sort_by_score (l : list TavilySearchResult) : list TavilySearchResult :=
  fold_right insert_by_score [] l.

(** The test of the [filter] callback:
    [result.content.toLowerCase().includes(searchAddress.toLowerCase())]. *)
Definition mentions (searchAddress : string) (r : TavilySearchResult) : bool :=
  includes (toLowerCase (content r)) (toLowerCase searchAddress).

(** [resultToUse]: [None] when [bestMatch] is [undefined]. *)
Definition select_result (searchAddress : string) (results : list TavilySearchResult)
    : option TavilySearchResult :=
  let sorted := sort_by_score results in
  match sorted with
  | [] => None
  | bestMatch :: _ =>
      match List.filter (mentions searchAddress) sorted with
      | first :: _ => Some first
      | [] => Some bestMatch
      end
  end.

(** ** The regular expressions of the handler and of [findParcelUrl] *)

(** [/\s+/g] *)
Definition spacesRegex : regex := plus isSpace.
(** [/\s+rd$/i] *)
Definition rdEndRegex : regex := seqs [plus isSpace; lit_i "rd"; Eol].
(** [/\s+road$/i] *)
Definition roadEndRegex : regex := seqs [plus isSpace; lit_i "road"; Eol].
(** [/,.*$/] *)
Definition commaRestRegex : regex := seqs [Chr (eqc ","); Star true dot; Eol].

(** [x.toLowerCase().replace(/\s+/g, ' ').replace(/\s+rd$/i, ' road')
      .replace(/,.*$/, '').trim()] *)
Definition normalizeSearchAddress (searchAddress : string) : string :=
  trim (replace commaRestRegex ""
         (replace rdEndRegex " road"
           (replaceAll spacesRegex " " (toLowerCase searchAddress)))).

(** [x.toLowerCase().replace(/\s+road$/i, ' rd').replace(/\s+rd$/i, ' rd')
      .replace(/\s+/g, ' ').trim()] *)
Definition normalizeRd (x : string) : string :=
  trim (replaceAll spacesRegex " "
         (replace rdEndRegex " rd"
           (replace roadEndRegex " rd" (toLowerCase x)))).

(** [/\[([^\]]+)\]\((https:\/\/[^)]+parcel\.aspx\?pid=\d+)\)/g] *)
Definition directLinkRegex : regex :=
  seqs [Chr (eqc "["); Grp 1 (plus (neqc "]")); Chr (eqc "]"); Chr (eqc "(");
        Grp 2 (seqs [lit "https://"; plus (neqc ")"); lit "parcel.aspx?pid=";
                     plus isDigit]);
        Chr (eqc ")")].

Definition group (n : nat) (m : string * caps) : string :=
  default "" (capture n (snd m)).

(** The direct link detection: the first link of the raw content whose text
    is the target address, as the array that replaces [parsedData]. *)
Definition detect_link (searchAddress rawContent : string) : option value :=
  let matches := matchAll directLinkRegex rawContent in
  let targetAddress := normalizeSearchAddress searchAddress in
  match List.find (fun m =>
          String.eqb (trim (replaceAll spacesRegex " " (toLowerCase (group 1 m))))
                     targetAddress) matches with
  | Some matchingLink =>
      Some (VArr [VObj [("type", VStr "Type 2")];
                  VObj [("address", VStr (group 1 matchingLink));
                        ("link", VStr (group 2 matchingLink))]])
  | None => None
  end.

(** ** The handler *)

(** [v === 'tag'] *)
Definition is_str (tag : string) (v : value) : bool :=
  match v with
  | VStr s => String.eqb s tag
  | _ => false
  end.

(** [!s] for a string or [null]. *)
Definition absent (s : option string) : bool :=
  match s with
  | None => true
  | Some s => is_empty s
  end.

Section Handler.
Variable env : Env.
(** [zipcode], [locationInfo], [searchUrl] and [searchAddress] of the
    request, fixed once the location is resolved. *)
Variables (zipcode : string) (locationInfo : ZipInfo) (searchUrl : string).
Variable searchAddress : string.

(** The success payload, with the given [transactions]. *)
Definition success (transactions : list value) : Response :=
  NextResponse_json
    [("zipcode", VStr zipcode);
     ("city", city locationInfo);
     ("county", county_name locationInfo);
     ("state", state_name locationInfo);
     ("state_id", state_id locationInfo);
     ("county_fips", VStr (county_fips locationInfo));
     ("searchUrl", VStr searchUrl);
     ("transactions", VArr transactions)] 200.

(** The second completion and the response made of its answer; the source
    has this text twice, in the "Type 2" and in the "Type 3" branch, with
    [analysed] the content interpolated into the prompt. *)
Definition second_pass (analysed : string) : M Response :=
  run log "=== Starting Second AI Model Request ===" ;;
  do newContent <- lift (ai_second env analysed) ;;
  match newContent with
  | Some newContent' =>
      if is_empty newContent'
      then throw (ErrorObj "No content received from second AI model call")
      else
        run log "=== Processing Second AI Response ===" ;;
        do transactions <- lift (JSON_parse env newContent') ;;
        match transactions with
        | VArr (t :: ts) =>
            run log "=== Processing Transactions ===" ;;
            ret (success (t :: ts))
        | _ =>
            run log "=== No Valid Transactions Found ===" ;;
            ret (success [])
        end
  | None => throw (ErrorObj "No content received from second AI model call")
  end.

(** [parsedData.find(item => ...)]: the first item whose address equals the
    search address once both are normalised.  The callback raises a
    [TypeError] on an item that is [null] and on an address that is truthy
    but not a string. *)
Fixpoint find_matching (items : list value) : M (option value) :=
  match items with
  | [] => ret None
  | item :: items' =>
      match item with
      | VUndef | VNull => typeError env
      | _ =>
          let address := prop "address" item in
          if negb (truthy address) then find_matching items'
          else
            match address with
            | VStr a =>
                if String.eqb (normalizeRd searchAddress) (normalizeRd a)
                then ret (Some item)
                else find_matching items'
            | _ => typeError env
            end
      end
  end.

(** The branch of [responseType === 'Type 2' || responseType === 'Type 3']. *)
Definition type2_branch (parsedData : list value) : M Response :=
  run log "=== Processing Type 2 Response ===" ;;
  do matchingResult <- find_matching parsedData ;;
  let link := match matchingResult with
              | Some item => prop "link" item
              | None => VUndef
              end in
  if negb (truthy link)
  then throw (ErrorObj "No matching link found for the search address")
  else
    run log "=== Starting Tavily Extract ===" ;;
    do extractResult <- lift (tavily_extract env link) ;;
    match extractResult with
    | r :: _ =>
        if is_empty (extract_rawContent r)
        then throw (ErrorObj "No content extracted from the link")
        else second_pass (extract_rawContent r)
    | [] => throw (ErrorObj "No content extracted from the link")
    end.

(** The later branch of [responseType === 'Type 3']. *)
Definition type3_branch (parsedData : list value) : M Response :=
  run log "=== Processing Type 3 Response ===" ;;
  match parsedData with
  | VUndef :: _ | VNull :: _ | [] => typeError env
  | first :: _ =>
      let address := prop "address" first in
      if negb (truthy address)
      then throw (ErrorObj "No address found in Type 3 response")
      else second_pass (js_toString address)
  end.

(** The tail of the inner [try] block: no recognised type. *)
Definition no_valid_type : M Response :=
  run log "=== No Valid Response Type Found ===" ;;
  ret (success []).

(** The [if]/[else if] chain on [parsedData[0]?.type]. *)
Definition dispatch (parsedData : value) : M Response :=
  match parsedData with
  | VArr (first :: rest) =>
      let responseType :=
        match first with
        | VUndef | VNull => VUndef
        | _ => prop "type" first
        end in
      run log "=== Response Type ===" ;;
      if is_str "Type 1" responseType then
        run log "=== Processing Type 1 Response ===" ;;
        ret (success rest)
      else if is_str "Type 2" responseType || is_str "Type 3" responseType then
        type2_branch (first :: rest)
      else if is_str "Type 3" responseType then
        type3_branch (first :: rest)
      else no_valid_type
  | _ => no_valid_type
  end.

(** What follows [JSON.parse(content)] in the inner [try] block: the direct
    link detection on an empty array, then the dispatch. *)
Definition after_parse (resultToUse : TavilySearchResult) (parsedData : value)
    : M Response :=
  run log "=== Parsed AI Response Data ===" ;;
  do parsedData' <-
    match parsedData, rawContent resultToUse with
    | VArr [], Some raw =>
        if is_empty raw then ret parsedData
        else
          run log "=== Attempting Direct Link Detection ===" ;;
          ret (default parsedData (detect_link searchAddress raw))
    | _, _ => ret parsedData
    end ;;
  dispatch parsedData'.

(** Step 5: the first completion and everything after it, inside the
    [try] whose handler answers 500. *)
Definition completion (resultToUse : TavilySearchResult) : M Response :=
  try_catch
    (run log "=== AI Model Prompt ===" ;;
     do content <- lift (ai_first env searchAddress resultToUse) ;;
     run log "=== AI Model Response ===" ;;
     match content with
     | Some content' =>
         if is_empty content'
         then throw (ErrorObj "No content received from AI model")
         else
           try_catch
             (do parsedData <- lift (JSON_parse env content') ;;
              after_parse resultToUse parsedData)
             (fun parseError =>
                run log "=== JSON Parse Error ===" ;;
                throw (ErrorObj "Failed to parse AI response as JSON"))
     | None => throw (ErrorObj "No content received from AI model")
     end)
    (fun error =>
       run log "=== Error Processing Transactions ===" ;;
       ret (error_response (errorMessage error) 500)).
End Handler.

(** [searchUrl], from the lower-cased city and state code. *)
Definition make_searchUrl (cityLower stateLower : string) : string :=
  "https://gis.vgsi.com/" +:+ replaceAll spacesRegex "" cityLower
    +:+ stateLower +:+ "/search.aspx".

(** Steps 4 and 5, once the location is known. *)
Definition search_step (env : Env) (zipcode : string) (locationInfo : ZipInfo)
    (searchUrl searchAddress : string) : M Response :=
  run log "=== Search URL ===" ;;
  run log "=== Starting Tavily Search ===" ;;
  do results <- lift (tavily_search env
                     (searchAddress +:+ " property sale history transactions")) ;;
  match select_result searchAddress results with
  | None => ret (error_response "No property records found for this address" 404)
  | Some resultToUse =>
      run log "=== Best Matching Result ===" ;;
      run log "=== Result URL ===" ;;
      run log "=== Starting AI Model Request ===" ;;
      completion env zipcode locationInfo searchUrl searchAddress resultToUse
  end.

(** The body of the outer [try] block.  [request] is the outcome of
    [request.json()]. *)
Definition POST_body (env : Env) (zipData : store) (request : result value)
    : M Response :=
  do body <- lift request ;;
  do address <- match body with
             | VUndef | VNull => typeError env
             | _ => ret (prop "address" body)
             end ;;
  run log "=== Starting Address Processing ===" ;;
  match address with
  | VStr address' =>
      let zipcode := extractZipcode address' in
      run log "=== Zipcode Extraction ===" ;;
      if absent zipcode
      then ret (error_response "Could not extract zipcode from address" 400)
      else
        let zipcode' := default "" zipcode in
        let searchAddress := removeZipcode address' in
        do locationInfo <- lift (lookupZip zipData zipcode') ;;
        run log "=== Location Information ===" ;;
        match locationInfo with
        | None =>
            ret (error_response "County information not found for this zipcode" 404)
        | Some info =>
            do cityLower <- toLowerCase_of env (city info) ;;
            do stateLower <- toLowerCase_of env (state_id info) ;;
            search_step env zipcode' info (make_searchUrl cityLower stateLower)
              searchAddress
        end
  | _ => typeError env
  end.

(** [POST]: the banners logged and the response. *)
Definition POST (env : Env) (zipData : store) (request : result value)
    : list string * Response :=
  catch_all (POST_body env zipData request) "=== Fatal Error ==="
    (fun error => error_response (errorMessage error) 500).

(** ** [findParcelUrl] *)

(** [/\[([^\]]+)\]\(([^)]+parcel\.aspx[^)]+)\)/gi]; the brackets and the
    parentheses have no other case, so the [i] flag bears on the letters of
    [parcel.aspx] only. *)
Definition linkRegex : regex :=
  seqs [Chr (eqc "["); Grp 1 (plus (neqc "]")); Chr (eqc "]"); Chr (eqc "(");
        Grp 2 (seqs [plus (neqc ")"); lit_i "parcel.aspx"; plus (neqc ")")]);
        Chr (eqc ")")].

(** [/^(\d+)\s+([^,]+?)(?:\s+(?:road|rd))?$/i] *)
Definition addressPartsRegex : regex :=
  seqs [Bol; Grp 1 (plus isDigit); plus isSpace; Grp 2 (plus_lazy (neqc ","));
        opt (Seq (plus isSpace) (Alt (lit_i "road") (lit_i "rd"))); Eol].

(** The five variations of the normalised address. *)
Definition addressVariations (normalizedSearchAddress : string) : list string :=
  [normalizedSearchAddress;
   replaceAll (Chr isSpace) "+" normalizedSearchAddress;
   replaceAll (Chr isSpace) "%20" normalizedSearchAddress;
   replace roadEndRegex " rd" normalizedSearchAddress;
   replace rdEndRegex " road" normalizedSearchAddress].

(** The links that the [while] loop visits: the successive matches of
    [linkRegex.exec(rawContent)], each with its text and its URL. *)
Definition links (rawContent : string) : list (string * string) :=
  map (fun m => (group 1 m, group 2 m)) (matchAll linkRegex rawContent).

(** The test of the loop body on a link. *)
Definition is_variation (searchAddress : string) (link : string * string) : bool :=
  existsb (String.eqb (toLowerCase (fst link)))
          (addressVariations (normalizeSearchAddress searchAddress)).

(** The source of the regular expression that the fallback compiles. *)
Definition simpleMatchSource (houseNumber streetName : string) : string :=
  "\[" +:+ houseNumber +:+ "\s+" +:+ streetName
       +:+ "[^\]]*\]\(([^)]+parcel\.aspx[^)]+)\)".

Section FindParcelUrl.
(** [input.match(new RegExp(source, 'i'))] for a regular expression made
    at run time: the array of the match, or the exception of the
    constructor. *)
Variable RegExp_i_match : string -> string -> result (option (list (option string))).

(** [findParcelUrl]; a capture that is [undefined] is returned as [None]. *)
Definition findParcelUrl (searchAddress rawContent : string)
    : result (option string) :=
  match List.find (is_variation searchAddress) (links rawContent) with
  | Some link => Val (Some (snd link))
  | None =>
      match search addressPartsRegex None
              (normalizeSearchAddress searchAddress) with
      | Some addressParts =>
          let houseNumber := default "" (capture 1 (groups addressParts)) in
          let streetName := default "" (capture 2 (groups addressParts)) in
          match RegExp_i_match (simpleMatchSource houseNumber streetName)
                  rawContent with
          | Val (Some m) => Val (mjoin (m !! 1))
          | Val None => Val None
          | Throw e => Throw e
          end
      | None => Val None
      end
  end.
End FindParcelUrl.

(* ===================================================================== *)
(** * What an expression matches *)
(* ===================================================================== *)

(** [Matches r prev w rest cs cs']: read at a position preceded by [prev] and
    followed by [w +:+ rest], the expression [r] can match the text [w],
    taking the captures from [cs] to [cs']. *)
Inductive Matches : regex -> option ascii -> string -> string -> caps -> caps -> Prop :=
| M_Eps prev rest cs : Matches Eps prev "" rest cs cs
| M_Chr p prev c rest cs :
    p c = true -> Matches (Chr p) prev (String c "") rest cs cs
| M_Star g p prev w rest cs :
    all_chars p w = true -> Matches (Star g p) prev w rest cs cs
| M_Seq r1 r2 prev w1 w2 rest cs cs1 cs2 :
    Matches r1 prev w1 (w2 +:+ rest) cs cs1 ->
    Matches r2 (last_char prev w1) w2 rest cs1 cs2 ->
    Matches (Seq r1 r2) prev (w1 +:+ w2) rest cs cs2
| M_AltL r1 r2 prev w rest cs cs' :
    Matches r1 prev w rest cs cs' -> Matches (Alt r1 r2) prev w rest cs cs'
| M_AltR r1 r2 prev w rest cs cs' :
    Matches r2 prev w rest cs cs' -> Matches (Alt r1 r2) prev w rest cs cs'
| M_Grp n r prev w rest cs cs' :
    Matches r prev w rest cs cs' -> Matches (Grp n r) prev w rest cs ((n, w) :: cs')
| M_WordB prev rest cs :
    word_boundary prev rest = true -> Matches WordB prev "" rest cs cs
| M_Bol rest cs : Matches Bol None "" rest cs cs
| M_Eol prev cs : Matches Eol prev "" "" cs cs.

(** ** The shape of a zip code *)

(** A run of [n] digits. *)
Definition digits (n : nat) (w : string) : bool :=
  (String.length w =? n) && all_chars isDigit w.

(** The texts that [\d{5}(-\d{4})?] matches. *)
Inductive zip_shaped : string -> Prop :=
| zip_five d : digits 5 d = true -> zip_shaped d
| zip_nine d e :
    digits 5 d = true -> digits 4 e = true -> zip_shaped (d +:+ "-" +:+ e).

(** An occurrence [w] of that shape in [pre +:+ w +:+ post] with a word
    boundary on each side. *)
Definition delimited_zip (pre w post : string) : Prop :=
  zip_shaped w /\
  word_boundary (last_char None pre) (w +:+ post) = true /\
  word_boundary (last_char None (pre +:+ w)) post = true.

(** The specification's [extractZip] read literally: the first match of
    [\d{5}(-\d{4})?], without word boundaries. *)
Definition spec_zipRegex : regex :=
  seqs [times 5 (Chr isDigit); opt (Seq (Chr (eqc "-")) (times 4 (Chr isDigit)))].

Definition spec_extractZip (address : string) : option string :=
  matched <$> search spec_zipRegex None address.

(** ** The selection of the candidate, as specified *)

(** [a] is placed no later than [b]: its score is at least that of [b]. *)
Definition outranks (a b : TavilySearchResult) : Prop := (score b <= score a)%Q.

(** The specification's test read literally: the content itself contains the
    lower-cased search address. *)
Definition spec_mentions (searchAddress : string) (r : TavilySearchResult) : bool :=
  includes (content r) (toLowerCase searchAddress).

(** The selection policy with that test. *)
Definition spec_select_result (searchAddress : string)
    (results : list TavilySearchResult) : option TavilySearchResult :=
  let sorted := sort_by_score results in
  match sorted with
  | [] => None
  | bestMatch :: _ =>
      match List.filter (spec_mentions searchAddress) sorted with
      | first :: _ => Some first
      | [] => Some bestMatch
      end
  end.

(** ** The server: the module is loaded, then requests are handled *)

Definition serve (file : sheet) (env : Env) (request : result value)
    : list string * Response :=
  POST env (module_load file) request.

(** ** Vocabulary for the statements about [POST] *)

(** The response that a computation returns satisfies [P]. *)
Definition yields {A} (P : A -> Prop) (m : M A) : Prop :=
  match snd m with
  | Val a => P a
  | Throw _ => True
  end.

(** The transactions [ts] are the empty list or were read in the answer of a
    completion: the items after the tag of a first answer, or a second
    answer. *)
Definition from_completions (env : Env) (ts : list value) : Prop :=
  ts = [] \/
  (exists searchAddress r c first,
     ai_first env searchAddress r = Val (Some c) /\
     JSON_parse env c = Val (VArr (first :: ts))) \/
  (exists analysed c,
     ai_second env analysed = Val (Some c) /\
     JSON_parse env c = Val (VArr ts)).

(** The characters of [s] that are not white space. *)
Fixpoint remove_spaces (s : string) : string :=
  match s with
  | EmptyString => EmptyString
  | String c s' => if isSpace c then remove_spaces s' else String c (remove_spaces s')
  end.

(** [checks_from n z f]: [f] holds of z, z + 1, ..., z + n - 1. *)
Fixpoint checks_from (n : nat) (z : Z) (f : Z -> bool) : bool :=
  match n with
  | O => true
  | S k => f z && checks_from k (z + 1)%Z f
  end.

(** The request carries the address [address], whose zip code [zipcode] the
    directory maps to [info], a record with the city [cityS] and the state
    code [stateS]. *)
Definition resolves (zipData : store) (request : result value)
    (address zipcode : string) (info : ZipInfo) (cityS stateS : string) : Prop :=
  exists body,
    request = Val body /\ prop "address" body = VStr address /\
    extractZipcode address = Some zipcode /\
    lookupZip zipData zipcode = Val (Some info) /\
    city info = VStr cityS /\ state_id info = VStr stateS.

(** What [completion] may answer: a 500 error, or the success payload with
    transactions read in a completion. *)
Definition completion_outcome (env : Env) (zipcode : string) (info : ZipInfo)
    (searchUrl : string) (r : Response) : Prop :=
  (exists message, r = error_response message 500) \/
  (exists ts, r = success zipcode info searchUrl ts /\ from_completions env ts).

(** [parsedData[0]?.type] *)
Definition tag_of (first : value) : value :=
  match first with
  | VUndef | VNull => VUndef
  | _ => prop "type" first
  end.

(** The outcome of the body of [POST] read without its log; it is proved
    equal to [snd (POST_body ...)] below. *)
Definition POST_steps (env : Env) (zipData : store) (request : result value)
    : result Response :=
  match request with
  | Throw e => Throw e
  | Val VUndef | Val VNull => Throw (ErrorObj (typeErrorMessage env))
  | Val body =>
      match prop "address" body with
      | VStr address =>
          match extractZipcode address with
          | None =>
              Val (error_response "Could not extract zipcode from address" 400)
          | Some zipcode =>
              match lookupZip zipData zipcode with
              | Throw e => Throw e
              | Val None =>
                  Val (error_response
                         "County information not found for this zipcode" 404)
              | Val (Some info) =>
                  match city info, state_id info with
                  | VStr cityS, VStr stateS =>
                      snd (search_step env zipcode info
                             (make_searchUrl (toLowerCase cityS)
                                (toLowerCase stateS))
                             (removeZipcode address))
                  | _, _ => Throw (ErrorObj (typeErrorMessage env))
                  end
              end
          end
      | _ => Throw (ErrorObj (typeErrorMessage env))
      end
  end.

(** The banner of the later "Type 3" branch. *)
Definition type3_banner : string := "=== Processing Type 3 Response ===".

(** A computation that does not log the banner of the "Type 3" branch. *)
Definition quiet {A} (m : M A) : Prop := ~ In type3_banner (fst m).

(** ** Sample data for the worked instances *)

Definition sample_rows : list (list (string * value)) :=
  [[("zip", VNum 6824); ("city", VStr "Fairfield"); ("state_id", VStr "CT");
    ("state_name", VStr "Connecticut"); ("county_name", VStr "Fairfield");
    ("county_fips", VNum 9001)]].

(** A sheet whose zip column holds text. *)
Definition sample_text_rows : list (list (string * value)) :=
  [[("zip", VStr "501"); ("city", VStr "Holtsville"); ("state_id", VStr "NY");
    ("state_name", VStr "New York"); ("county_name", VStr "Suffolk");
    ("county_fips", VNum 36103)]].

Definition sample_info : ZipInfo :=
  {| zip := "06824"; city := VStr "Fairfield"; state_id := VStr "CT";
     state_name := VStr "Connecticut"; county_name := VStr "Fairfield";
     county_fips := "9001" |}.

Definition sample_candidate : TavilySearchResult :=
  {| title := "8 LYNNBROOK ROAD";
     url := "https://gis.vgsi.com/fairfieldct/Parcel.aspx?pid=2271";
     content := "8 LYNNBROOK ROAD Ownership History";
     score := 9 # 10;
     rawContent := None |}.

(** Two candidates for "8 Lynnbrook Road": the better scored one has the
    address in capitals, the other one in lower case. *)
Definition candidate_upper : TavilySearchResult :=
  {| title := "A"; url := "https://gis.vgsi.com/fairfieldct/a";
     content := "8 LYNNBROOK ROAD"; score := 9 # 10; rawContent := None |}.

Definition candidate_lower : TavilySearchResult :=
  {| title := "B"; url := "https://gis.vgsi.com/fairfieldct/b";
     content := "8 lynnbrook road"; score := 5 # 10; rawContent := None |}.

(** A [JSON.parse] that knows the texts of the list. *)
Fixpoint sample_parse (known : list (string * value)) (text : string)
    : result value :=
  match known with
  | [] => Throw (ErrorObj "Unexpected token")
  | (t, v) :: known' => if String.eqb t text then Val v else sample_parse known' text
  end.

(** An environment with the given answers of the search and of the two
    completions. *)
Definition sample_env (found : result (list TavilySearchResult))
    (first second : result (option string)) (known : list (string * value)) : Env :=
  {| typeErrorMessage := "TypeError";
     JSON_parse := sample_parse known;
     tavily_search := fun _ => found;
     tavily_extract := fun _ => Val [{| extract_url := "https://gis.vgsi.com/fairfieldct/Parcel.aspx?pid=2271";
                                        extract_rawContent := "Ownership History" |}];
     ai_first := fun _ _ => first;
     ai_second := fun _ => second |}.

Definition sample_request (address : string) : result value :=
  Val (VObj [("address", VStr address)]).

(** ** The text of a markdown link *)

(** [[text](url)]. *)
Definition link_text (text url : string) : string :=
  String "[" (text +:+ String "]" (String "(" (url +:+ ")"))).

(** ** The zip directory as a table *)

(** The row that decides the entry of [zipcode]: the last row of the sheet
    that the callback stores under that key. *)
Definition deciding_row (zipcode : string) (rows : list (list (string * value)))
    : option (list (string * value)) :=
  List.find (fun row => row_retained row
                        && String.eqb (zip_key (field "zip" row)) zipcode)
            (rev rows).

(** The first readable file of a list. *)
Fixpoint first_readable (files : list sheet)
    : option (list (list (string * value))) :=
  match files with
  | [] => None
  | Unreadable _ :: files' => first_readable files'
  | Rows rows :: _ => Some rows
  end.

(** Successive calls of [initializeZipData], one per element of [files]
    (what the file system gives at each call). *)
Definition initialize_calls (zipData : store) (files : list sheet) : store :=
  fold_left (fun zipData file => fst (initializeZipData zipData file))
            files zipData.

(** ** What [removeZipcode] removes *)

(** The white space at the head of [s]. *)
Fixpoint leading_spaces (s : string) : string :=
  match s with
  | String c s' => if isSpace c then String c (leading_spaces s') else EmptyString
  | EmptyString => EmptyString
  end.

(** The longest head of [s] that [,?\s*] reads, and what follows it. *)
Definition head_separator (s : string) : string :=
  match s with
  | String c s' =>
      if eqc "," c then String c (leading_spaces s') else leading_spaces s
  | EmptyString => EmptyString
  end.

Definition after_separator (s : string) : string :=
  match s with
  | String c s' => if eqc "," c then trimStart s' else trimStart s
  | EmptyString => EmptyString
  end.

(** [s] without its longest tail of the form [,?\s*]: the tail starts at the
    first character, a comma or a white space, that only white space
    follows. *)
Fixpoint strip_separator (s : string) : string :=
  match s with
  | EmptyString => EmptyString
  | String c s' =>
      if (eqc "," c || isSpace c) && all_chars isSpace s' then EmptyString
      else String c (strip_separator s')
  end.

(** ** The request that reaches the inner [try] block *)

(** The request resolves to [zipcode] and [info], the search selects
    [resultToUse] and the first completion answers a text that [JSON.parse]
    reads as [parsedData]; [searchAddress] and [searchUrl] are those of the
    request. *)
Definition first_answer (env : Env) (zipData : store) (request : result value)
    (zipcode : string) (info : ZipInfo) (searchUrl searchAddress : string)
    (resultToUse : TavilySearchResult) (parsedData : value) : Prop :=
  exists address cityS stateS results c,
    resolves zipData request address zipcode info cityS stateS /\
    searchUrl = make_searchUrl (toLowerCase cityS) (toLowerCase stateS) /\
    searchAddress = removeZipcode address /\
    tavily_search env (searchAddress +:+ " property sale history transactions")
    = Val results /\
    select_result searchAddress results = Some resultToUse /\
    ai_first env searchAddress resultToUse = Val (Some c) /\
    is_empty c = false /\
    JSON_parse env c = Val parsedData.

(** The response made of what the inner [try] block gives: its response, or
    the 500 of its handler. *)
Definition inner_try (m : M Response) : Response :=
  match snd m with
  | Val r => r
  | Throw _ => error_response "Failed to parse AI response as JSON" 500
  end.

(** The array that the direct link detection makes of a link. *)
Definition detected (text link : string) : list value :=
  [VObj [("type", VStr "Type 2")];
   VObj [("address", VStr text); ("link", VStr link)]].

(** The transactions read in the second answer. *)
Definition second_transactions (v : value) : list value :=
  match v with
  | VArr ts => ts
  | _ => []
  end.

(** ** The test of [find_matching] *)

(** The callback of [parsedData.find] on an item that it can read:
    [item.address && normalizeRd(searchAddress) === normalizeRd(item.address)]. *)
Definition matches_address (searchAddress : string) (item : value) : bool :=
  match prop "address" item with
  | VStr a =>
      negb (is_empty a) && String.eqb (normalizeRd searchAddress) (normalizeRd a)
  | _ => false
  end.

(** The URL of a direct link: [https://], a host and a path, then
    [parcel.aspx?pid=] and the number of the parcel. *)
Definition parcel_url (path pid : string) : string :=
  "https://" +:+ path +:+ "parcel.aspx?pid=" +:+ pid.


(* ===================================================================== *)
(** * The search form ([AddressSearch]) *)
(* ===================================================================== *)

(** What the form gets back from [fetch] and [response.json()]: the flag
    [response.ok], and the body read as JSON or the exception of that
    reading. *)
Record FetchResponse := {
  ok : bool;
  json : result value
}.

(** The world outside the form. *)
Record Browser := {
  (** the message of a [TypeError] raised by the engine *)
  browserTypeError : string;
  (** [fetch('/api/process-address', ...)] with the address in the body:
      the response, or the exception of a failed request *)
  fetch : string -> result FetchResponse;
  (** [new Date().toLocaleTimeString()] at the n-th call of [addStep] in a
      search *)
  clock : nat -> string;
  (** [o.length > 0] for an object [o] given by its properties *)
  object_length_positive : list (string * value) -> bool
}.

Module AddressSearch.

(** [status] is one of ['pending'], ['complete'] and ['error']. *)
Record ProcessingStep := {
  id : string;
  message : string;
  status : string;
  timestamp : string
}.

(** The state of the component: the six [useState] variables. *)
Record State := {
  address : string;
  loading : bool;
  error : option string;
  result : option value;
  steps : list ProcessingStep;
  stepCounter : nat
}.

(** The state of the first render. *)
Definition initial : State :=
  {| address := ""; loading := false; error := None; result := None;
     steps := []; stepCounter := 0 |}.

Definition setAddress (a : string) (st : State) : State :=
  {| address := a; loading := loading st; error := error st;
     result := result st; steps := steps st; stepCounter := stepCounter st |}.

Definition setLoading (b : bool) (st : State) : State :=
  {| address := address st; loading := b; error := error st;
     result := result st; steps := steps st; stepCounter := stepCounter st |}.

Definition setError (e : option string) (st : State) : State :=
  {| address := address st; loading := loading st; error := e;
     result := result st; steps := steps st; stepCounter := stepCounter st |}.

Definition setResult (r : option value) (st : State) : State :=
  {| address := address st; loading := loading st; error := error st;
     result := r; steps := steps st; stepCounter := stepCounter st |}.

(** [setSteps(prev => f(prev))] *)
Definition setSteps (f : list ProcessingStep -> list ProcessingStep) (st : State)
    : State :=
  {| address := address st; loading := loading st; error := error st;
     result := result st; steps := f (steps st); stepCounter := stepCounter st |}.

(** [setStepCounter(prev => f(prev))] *)
Definition setStepCounter (f : nat -> nat) (st : State) : State :=
  {| address := address st; loading := loading st; error := error st;
     result := result st; steps := steps st; stepCounter := f (stepCounter st) |}.

(** [addStep]: [rendered] is the state of the render that made the function;
    the [id] is built with its [stepCounter]. *)
Definition addStep (rendered : State) (now : string) (message status : string)
    (st : State) : State :=
  setSteps (fun prev =>
      prev ++ [{| id := "step-" +:+ number_toString (Z.of_nat (stepCounter rendered));
                  message := message; status := status; timestamp := now |}])
    (setStepCounter (fun prev => prev + 1) st).

(** [newSteps[newSteps.length - 1].status = status] on a copy of the array. *)
Fixpoint set_last_status (status : string) (l : list ProcessingStep)
    : list ProcessingStep :=
  match l with
  | [] => []
  | [s] => [{| id := id s; message := message s; status := status;
               timestamp := timestamp s |}]
  | s :: l' => s :: set_last_status status l'
  end.

Definition updateLastStep (status : string) (st : State) : State :=
  setSteps (set_last_status status) st.

(** [v.length > 0] for a truthy [v]. *)
Definition length_positive (w : Browser) (v : value) : bool :=
  match v with
  | VArr items => match items with [] => false | _ => true end
  | VStr s => negb (is_empty s)
  | VObj fields => object_length_positive w fields
  | _ => false
  end.

(** [err instanceof Error ? err.message : 'An error occurred'] *)
Definition errorMessage (err : thrown) : string :=
  match err with
  | ErrorObj m => m
  | NonError => "An error occurred"
  end.

(** The synchronous part of [handleSearch] on a non-blank address: the
    state shown while the request is in flight. *)
Definition before_fetch (w : Browser) (rendered : State) : State :=
  addStep rendered (clock w 0)
    "Processing address and extracting ZIP code..." "pending"
    (setStepCounter (fun _ => 0)
      (setSteps (fun _ => [])
        (setResult None (setError None (setLoading true rendered))))).

(** The rest of the [try] block, from the state [st]: the state that it
    leaves, and the exception that it raises if any. *)
Definition after_fetch (w : Browser) (rendered st : State)
    : State * option thrown :=
  match fetch w (address rendered) with
  | Throw e => (st, Some e)
  | Val response =>
      match json response with
      | Throw e => (st, Some e)
      | Val data =>
          if negb (ok response) then
            let st := updateLastStep "error" st in
            match data with
            | VUndef | VNull => (st, Some (ErrorObj (browserTypeError w)))
            | _ =>
                let e := prop "error" data in
                (st, Some (ErrorObj (if truthy e then js_toString e
                                     else "Failed to process address")))
            end
          else
            let st := addStep rendered (clock w 1)
                        "Found location information" "complete"
                        (updateLastStep "complete" st) in
            match data with
            | VUndef | VNull => (st, Some (ErrorObj (browserTypeError w)))
            | _ =>
                let transactions := prop "transactions" data in
                let st :=
                  if truthy transactions && length_positive w transactions
                  then addStep rendered (clock w 2)
                         "Found property transactions" "complete" st
                  else addStep rendered (clock w 2)
                         "No transactions found for this property" "complete" st
                in
                (setResult (Some data) st, None)
            end
      end
  end.

(** [handleSearch], run from the render [rendered] until its promise
    settles: the state of the component then. *)
Definition handleSearch (w : Browser) (rendered : State) : State :=
  if is_empty (trim (address rendered))
  then setError (Some "Please enter an address") rendered
  else
    let '(st, raised) := after_fetch w rendered (before_fetch w rendered) in
    let st :=
      match raised with
      | Some err => updateLastStep "error" (setError (Some (errorMessage err)) st)
      | None => st
      end in
    setLoading false st.

End AddressSearch.

(** ** The form in front of the route handler *)

(** A value once written with [JSON.stringify] and read with [JSON.parse]:
    a property whose value is [undefined] is left out, an item of an array
    that is [undefined] becomes [null]. *)
Fixpoint wire (v : value) : value :=
  match v with
  | VArr items =>
      VArr ((fix items_wire (l : list value) : list value :=
               match l with
               | [] => []
               | VUndef :: l' => VNull :: items_wire l'
               | x :: l' => wire x :: items_wire l'
               end) items)
  | VObj fields =>
      VObj ((fix fields_wire (l : list (string * value)) : list (string * value) :=
               match l with
               | [] => []
               | (_, VUndef) :: l' => fields_wire l'
               | (k, x) :: l' => (k, wire x) :: fields_wire l'
               end) fields)
  | _ => v
  end.

(** [fetch] when the route handler answers: the body of the request is
    [{ address }], [response.ok] says that the status is in 200..299. *)
Definition server_fetch (file : sheet) (env : Env) (address : string)
    : result FetchResponse :=
  let r := snd (serve file env (Val (VObj [("address", VStr address)]))) in
  Val {| ok := (200 <=? status r) && (status r <=? 299);
         json := Val (wire (body r)) |}.

(** The step with which every search starts. *)
Definition first_step (w : Browser) (rendered : AddressSearch.State)
    (status : string) : AddressSearch.ProcessingStep :=
  {| AddressSearch.id :=
       "step-" +:+ number_toString (Z.of_nat (AddressSearch.stepCounter rendered));
     AddressSearch.message := "Processing address and extracting ZIP code...";
     AddressSearch.status := status;
     AddressSearch.timestamp := clock w 0 |}.

(** A step added after the response has arrived, the n-th of the search. *)
Definition later_step (w : Browser) (rendered : AddressSearch.State) (n : nat)
    (message : string) : AddressSearch.ProcessingStep :=
  {| AddressSearch.id :=
       "step-" +:+ number_toString (Z.of_nat (AddressSearch.stepCounter rendered));
     AddressSearch.message := message;
     AddressSearch.status := "complete";
     AddressSearch.timestamp := clock w n |}.

(** ** Sample data for the worked instances of the branches and of the form *)

(** A candidate whose raw content holds a direct link. *)
Definition candidate_with_link : TavilySearchResult :=
  {| title := "8 LYNNBROOK ROAD";
     url := "https://gis.vgsi.com/fairfieldct/search.aspx";
     content := "Search results";
     score := 9 # 10;
     rawContent :=
       Some "[8 Lynnbrook Road](https://gis.vgsi.com/fairfieldct/parcel.aspx?pid=2271)" |}.

(** A sale, as a completion writes it. *)
Definition sample_sale : value :=
  VObj [("saleDate", VStr "2020-01-15"); ("salePrice", VStr "$450,000");
        ("buyer", VStr "A. Buyer"); ("seller", VStr "B. Seller")].

(** A "Type 2" answer for "8 Lynnbrook Road". *)
Definition sample_type2 : list value :=
  [VObj [("type", VStr "Type 2")];
   VObj [("address", VStr "8 LYNNBROOK RD");
         ("link", VStr "https://gis.vgsi.com/fairfieldct/Parcel.aspx?pid=2271")]].

(** A browser whose requests get the answer [answer], at a fixed time. *)
Definition sample_browser (answer : string -> result FetchResponse) : Browser :=
  {| browserTypeError := "TypeError";
     fetch := answer;
     clock := fun _ => "10:15:00 AM";
     object_length_positive := fun _ => false |}.

(** ** The candidate that a stable sort puts first *)

(** The first result of [l], in the order of [l], whose score no other
    result exceeds. *)
Fixpoint first_best (l : list TavilySearchResult) : option TavilySearchResult :=
  match l with
  | [] => None
  | a :: l' =>
      match first_best l' with
      | Some b => if goes_after a b then Some b else Some a
      | None => Some a
      end
  end.

(** The results among which [resultToUse] is taken: those that mention the
    search address when there are any, all of them otherwise. *)
Definition candidate_pool (searchAddress : string)
    (results : list TavilySearchResult) : list TavilySearchResult :=
  match List.filter (mentions searchAddress) results with
  | [] => results
  | pool => pool
  end.

(** ** Markup whose brackets are settled *)

(** What follows the first [x] of [s]. *)
(** ** Markup that is closed *)

(** The text after the first [x] of [s]. *)
Fixpoint after_first (x : ascii) (s : string) : option string :=
  match s with
  | EmptyString => None
  | String c s' => if eqc x c then Some s' else after_first x s'
  end.

(** [s] is what follows an opening bracket, up to the end of a text.  No
    link that starts at that bracket can run past the end of the text: the
    bracket closes at once (the link text would be empty), or it closes in
    [s] and, when "(" follows its closing bracket, that parenthesis closes in
    [s] too. *)
(** [s] follows a bracket that is settled: a ["]"] comes after at least
    one character, and the parenthesis that may follow it is closed. *)
Definition bracket_settled (s : string) : bool :=
  match s with
  | String c _ =>
      if eqc "]" c then true
      else
        match after_first "]" s with
        | None => false
        | Some EmptyString => true
        | Some (String d r) =>
            if eqc "(" d then
              match after_first ")" r with Some _ => true | None => false end
            else true
        end
  | EmptyString => false
  end.

(** Every opening bracket of [s] is settled within [s]. *)
(** Every bracket of [s] is settled within [s]. *)
Fixpoint closed_markup (s : string) : bool :=
  match s with
  | EmptyString => true
  | String c s' =>
      (if eqc "[" c then bracket_settled s' else true) && closed_markup s'
  end.

(** ** The failures of the "Type 2" branch *)

(** The array that the dispatch reads: [parsedData], or what the direct link
    detection makes of an empty array. *)
Definition dispatched (searchAddress : string) (resultToUse : TavilySearchResult)
    (parsedData : value) : value :=
  match parsedData, rawContent resultToUse with
  | VArr [], Some raw =>
      if is_empty raw then parsedData
      else default parsedData (detect_link searchAddress raw)
  | _, _ => parsedData
  end.

(** [matchingResult?.link] *)
Definition link_of (matchingResult : option value) : value :=
  match matchingResult with
  | Some item => prop "link" item
  | None => VUndef
  end.

(** The second completion fails on [analysed]: the call raises, it answers
    [null] or the empty string, or its answer is not JSON. *)
Definition second_failure (env : Env) (analysed : string) : Prop :=
  match ai_second env analysed with
  | Throw _ => True
  | Val None => True
  | Val (Some c) =>
      is_empty c = true \/ exists e, JSON_parse env c = Throw e
  end.

(** The "Type 2" branch fails on the items of the first answer: the search
    for the matching item raises, no item matches or the matching item has no
    link, the extract call raises or returns no content, or the second
    completion fails on the content. *)
Definition type2_failure (env : Env) (searchAddress : string) (items : list value)
    : Prop :=
  match snd (find_matching env searchAddress items) with
  | Throw _ => True
  | Val matchingResult =>
      truthy (link_of matchingResult) = false \/
      match tavily_extract env (link_of matchingResult) with
      | Throw _ => True
      | Val [] => True
      | Val (x :: _) =>
          is_empty (extract_rawContent x) = true \/
          second_failure env (extract_rawContent x)
      end
  end.

(** ** The cells of a sheet *)

(** [Number.isSafeInteger]: the integers that a number holds exactly, and
    that [toString] prints digit by digit. *)
Definition safe_integer (z : Z) : bool := (Z.abs z <=? 9007199254740991)%Z.

(** A cell as [sheet_to_json] gives it: [undefined] for a missing cell, a
    boolean, a string, or a number, here a safe integer. *)
Definition sheet_cell (v : value) : bool :=
  match v with
  | VNum z => safe_integer z
  | VArr _ | VObj _ => false
  | _ => true
  end.

Definition sheet_row (row : list (string * value)) : bool :=
  forallb (fun kv => sheet_cell (snd kv)) row.

(** Two rows with the same zip code: the second one replaces the first. *)
Definition sample_repeated_rows : list (list (string * value)) :=
  sample_rows ++
  [[("zip", VNum 6824); ("city", VStr "Southport"); ("state_id", VStr "CT");
    ("state_name", VStr "Connecticut"); ("county_name", VStr "Fairfield");
    ("county_fips", VNum 9001)]].


(** The steps of a search whose second step is still pending. *)
Definition sample_steps : list AddressSearch.ProcessingStep :=
  [{| AddressSearch.id := "step-0";
      AddressSearch.message := "Processing address and extracting ZIP code...";
      AddressSearch.status := "complete";
      AddressSearch.timestamp := "10:15:00 AM" |};
   {| AddressSearch.id := "step-0";
      AddressSearch.message := "Found location information";
      AddressSearch.status := "pending";
      AddressSearch.timestamp := "10:15:01 AM" |}].

(* ===================================================================== *)
(** * Facts about strings *)
(* ===================================================================== *)

Lemma app_nil_r (s : string) : s +:+ "" = s.
Proof. induction s as [|c s IH]; simpl; [reflexivity | now rewrite IH]. Qed.

Lemma app_assoc (a b c : string) : (a +:+ b) +:+ c = a +:+ b +:+ c.
Proof. induction a as [|x a IH]; simpl; [reflexivity | now rewrite IH]. Qed.

Lemma app_length (a b : string) :
  String.length (a +:+ b) = String.length a + String.length b.
Proof. induction a as [|x a IH]; simpl; [reflexivity | now rewrite IH]. Qed.

Lemma app_inv_head (a b c : string) : a +:+ b = a +:+ c -> b = c.
Proof. induction a as [|x a IH]; simpl; intros H; [assumption | injection H; auto]. Qed.

Lemma last_char_app (prev : option ascii) (a b : string) :
  last_char prev (a +:+ b) = last_char (last_char prev a) b.
Proof. revert prev; induction a as [|x a IH]; simpl; intros; [reflexivity | apply IH]. Qed.

Lemma all_chars_app (p : ascii -> bool) (a b : string) :
  all_chars p (a +:+ b) = all_chars p a && all_chars p b.
Proof.
  induction a as [|x a IH]; simpl; [reflexivity|].
  rewrite IH. now rewrite andb_assoc.
Qed.

(** Two decompositions of one string agree up to the shorter prefix. *)
Lemma app_eq_split (a b c d : string) :
  a +:+ b = c +:+ d -> String.length a <= String.length c ->
  exists e, c = a +:+ e /\ b = e +:+ d.
Proof.
  revert c; induction a as [|x a IH]; simpl; intros c H Hl.
  - exists c. split; [reflexivity | assumption].
  - destruct c as [|y c]; simpl in *; [lia|].
    injection H as -> H. destruct (IH c H) as (e & -> & ->); [lia|].
    exists e. split; reflexivity.
Qed.

Lemma app_eq_length (a b c d : string) :
  a +:+ b = c +:+ d -> String.length a = String.length c -> a = c /\ b = d.
Proof.
  intros H Hl. destruct (app_eq_split a b c d H) as (e & -> & ->); [lia|].
  rewrite app_length in Hl. destruct e; simpl in Hl; [|lia].
  now rewrite app_nil_r.
Qed.

(** A string is cut in one way only at the first occurrence of a character. *)
Lemma split_first_unique (x : ascii) (a b r1 r2 : string) :
  all_chars (neqc x) a = true -> all_chars (neqc x) b = true ->
  a +:+ String x r1 = b +:+ String x r2 -> a = b /\ r1 = r2.
Proof.
  revert b; induction a as [|c a IH]; intros [|d b]; simpl; intros Ha Hb H.
  - injection H as ->. split; reflexivity.
  - injection H as <- _. unfold neqc in Hb. rewrite Ascii.eqb_refl in Hb. discriminate.
  - injection H as -> _. unfold neqc in Ha. rewrite Ascii.eqb_refl in Ha. discriminate.
  - injection H as -> H.
    apply andb_prop in Ha as [_ Ha]. apply andb_prop in Hb as [_ Hb].
    destruct (IH b Ha Hb H) as [-> ->]. split; reflexivity.
Qed.

(* ===================================================================== *)
(** * Facts about the matcher *)
(* ===================================================================== *)

Create HintDb rx.
#[local] Hint Constructors Matches : rx.

Section MatcherFacts.
Context {A : Type}.
Implicit Types (k : string -> string -> caps -> option A).

Lemma star_greedy_sound p s (k : string -> string -> option A) a :
  star_greedy p s k = Some a ->
  exists w rest, s = w +:+ rest /\ all_chars p w = true /\ k w rest = Some a.
Proof.
  revert k; induction s as [|c s IH]; intros k H; simpl in H.
  - exists "", "". repeat split; auto.
  - destruct (p c) eqn:Hp.
    + destruct (star_greedy p s _) eqn:Hs.
      * injection H as ->. apply IH in Hs as (w & rest & -> & Hw & Hk).
        exists (String c w), rest. simpl. rewrite Hp. repeat split; auto.
      * exists "", (String c s). repeat split; auto.
    + exists "", (String c s). repeat split; auto.
Qed.

Lemma star_lazy_sound p s (k : string -> string -> option A) a :
  star_lazy p s k = Some a ->
  exists w rest, s = w +:+ rest /\ all_chars p w = true /\ k w rest = Some a.
Proof.
  revert k; induction s as [|c s IH]; intros k H; simpl in H.
  - destruct (k "" "") eqn:Hk; [|discriminate].
    exists "", "". rewrite Hk. repeat split; auto.
  - destruct (k "" (String c s)) eqn:Hk.
    + exists "", (String c s). rewrite Hk. repeat split; auto.
    + destruct (p c) eqn:Hp; [|discriminate].
      apply IH in H as (w & rest & -> & Hw & Hk').
      exists (String c w), rest. simpl. rewrite Hp. repeat split; auto.
Qed.

Lemma star_greedy_complete p w rest (k : string -> string -> option A) :
  all_chars p w = true -> is_Some (k w rest) ->
  is_Some (star_greedy p (w +:+ rest) k).
Proof.
  revert k; induction w as [|c w IH]; intros k Hw Hk; simpl in *.
  - destruct rest as [|c s]; simpl; [assumption|].
    destruct (p c); [|assumption].
    destruct (star_greedy p s _); [eauto | assumption].
  - apply andb_prop in Hw as [-> Hw].
    specialize (IH (fun w rest => k (String c w) rest) Hw Hk).
    destruct IH as [a ->]. eauto.
Qed.

Lemma star_lazy_complete p w rest (k : string -> string -> option A) :
  all_chars p w = true -> is_Some (k w rest) ->
  is_Some (star_lazy p (w +:+ rest) k).
Proof.
  revert k; induction w as [|c w IH]; intros k Hw Hk; simpl in *.
  - destruct Hk as [a Hk]. destruct rest; simpl; rewrite Hk; eauto.
  - apply andb_prop in Hw as [-> Hw].
    destruct (k "" (String c (w +:+ rest))); [eauto|].
    apply (IH (fun w rest => k (String c w) rest) Hw Hk).
Qed.

(** Every answer of the matcher comes from a match of the expression that
    the continuation accepts. *)
Lemma rmatch_sound r : forall prev s cs k a,
  rmatch r prev s cs k = Some a ->
  exists w rest cs',
    s = w +:+ rest /\ Matches r prev w rest cs cs' /\ k w rest cs' = Some a.
Proof.
  induction r as [|p|g p|r1 IH1 r2 IH2|r1 IH1 r2 IH2|n r IH| | |];
    intros prev s cs k a H; simpl in H.
  - exists "", s, cs. repeat split; auto with rx.
  - destruct s as [|c s]; [discriminate|].
    destruct (p c) eqn:Hp; [|discriminate].
    exists (String c ""), s, cs. repeat split; auto with rx.
  - assert (exists w rest, s = w +:+ rest /\ all_chars p w = true
                           /\ k w rest cs = Some a) as (w & rest & -> & Hw & Hk).
    { destruct g; [apply star_greedy_sound in H | apply star_lazy_sound in H];
        exact H. }
    exists w, rest, cs. repeat split; auto with rx.
  - apply IH1 in H as (w1 & s1 & cs1 & -> & H1 & H).
    apply IH2 in H as (w2 & s2 & cs2 & -> & H2 & H).
    exists (w1 +:+ w2), s2, cs2. rewrite app_assoc. repeat split; eauto with rx.
  - destruct (rmatch r1 prev s cs k) eqn:H1.
    + injection H as ->. apply IH1 in H1 as (w & rest & cs' & -> & Hm & Hk).
      exists w, rest, cs'. repeat split; auto with rx.
    + apply IH2 in H as (w & rest & cs' & -> & Hm & Hk).
      exists w, rest, cs'. repeat split; auto with rx.
  - apply IH in H as (w & rest & cs' & -> & Hm & Hk).
    exists w, rest, ((n, w) :: cs'). repeat split; auto with rx.
  - destruct (word_boundary prev s) eqn:Hb; [|discriminate].
    exists "", s, cs. repeat split; auto with rx.
  - destruct prev; [discriminate|]. exists "", s, cs. repeat split; auto with rx.
  - destruct s; [|discriminate]. exists "", "", cs. repeat split; auto with rx.
Qed.

(** A match that the continuation accepts makes the matcher answer. *)
Lemma rmatch_complete r prev w rest cs cs' :
  Matches r prev w rest cs cs' ->
  forall k, is_Some (k w rest cs') -> is_Some (rmatch r prev (w +:+ rest) cs k).
Proof.
  induction 1 as [prev rest cs|p prev c rest cs Hp|g p prev w rest cs Hw
                 |r1 r2 prev w1 w2 rest cs cs1 cs2 _ IH1 _ IH2
                 |r1 r2 prev w rest cs cs' _ IH|r1 r2 prev w rest cs cs' _ IH
                 |n r prev w rest cs cs' _ IH|prev rest cs Hb|rest cs|prev cs];
    intros k Hk; simpl.
  - assumption.
  - now rewrite Hp.
  - destruct g; [apply star_greedy_complete | apply star_lazy_complete];
      assumption.
  - rewrite app_assoc. apply IH1. apply IH2. assumption.
  - destruct (IH k Hk) as [a ->]. eauto.
  - destruct (rmatch r1 prev (w +:+ rest) cs k); [eauto|]. now apply IH.
  - apply IH. assumption.
  - now rewrite Hb.
  - assumption.
  - assumption.
Qed.
End MatcherFacts.

Lemma exec_at_sound r prev s f :
  exec_at r prev s = Some f ->
  before f = "" /\ s = matched f +:+ after f /\
  Matches r prev (matched f) (after f) [] (groups f).
Proof.
  unfold exec_at. intros H.
  apply rmatch_sound in H as (w & rest & cs & -> & Hm & Hk).
  injection Hk as <-. repeat split; auto.
Qed.

Lemma exec_at_complete r prev w rest cs :
  Matches r prev w rest [] cs -> is_Some (exec_at r prev (w +:+ rest)).
Proof.
  intros H. unfold exec_at. eapply rmatch_complete; [exact H | eauto].
Qed.

(** [search] answers with the leftmost position at which the matcher
    succeeds, and with nothing when it succeeds nowhere. *)
Lemma search_found r : forall prev s f,
  search r prev s = Some f ->
  s = before f +:+ matched f +:+ after f /\
  exec_at r (last_char prev (before f)) (matched f +:+ after f)
  = Some (Found "" (matched f) (after f) (groups f)) /\
  forall pre s1,
    s = pre +:+ s1 -> String.length pre < String.length (before f) ->
    exec_at r (last_char prev pre) s1 = None.
Proof.
  intros prev s; revert prev; induction s as [|c s IH]; intros prev f H;
    simpl in H.
  - destruct (exec_at r prev "") eqn:He; [|discriminate]. injection H as ->.
    pose proof (exec_at_sound _ _ _ _ He) as (Hb & Hs & _).
    destruct f as [b m a g]; simpl in *; subst b.
    repeat split; [assumption | now rewrite <- Hs | simpl; intros; lia].
  - destruct (exec_at r prev (String c s)) eqn:He.
    + injection H as ->.
      pose proof (exec_at_sound _ _ _ _ He) as (Hb & Hs & _).
      destruct f as [b m a g]; simpl in *; subst b.
      repeat split; [assumption | now rewrite <- Hs | simpl; intros; lia].
    + destruct (search r (Some c) s) as [f'|] eqn:Hs; [|discriminate].
      injection H as <-. apply IH in Hs as (Hs & Hm & Hleft). simpl.
      split; [now rewrite Hs at 1|]. split; [assumption|].
      intros pre s1 Heq Hlt. destruct pre as [|d pre]; simpl in *.
      * now subst s1.
      * injection Heq as <- Heq. apply Hleft; [assumption | lia].
Qed.

Lemma search_nowhere r : forall prev s,
  search r prev s = None ->
  forall pre s1, s = pre +:+ s1 -> exec_at r (last_char prev pre) s1 = None.
Proof.
  intros prev s; revert prev; induction s as [|c s IH]; intros prev H pre s1 Heq;
    simpl in H.
  - destruct pre; [|discriminate]. simpl in *. subst s1.
    destruct (exec_at r prev ""); [discriminate | reflexivity].
  - destruct (exec_at r prev (String c s)) eqn:He; [discriminate|].
    destruct pre as [|d pre]; simpl in *.
    + now subst s1.
    + injection Heq as <- Heq.
      destruct (search r (Some c) s) eqn:Hs; [discriminate|].
      eapply IH; eauto.
Qed.

(* ===================================================================== *)
(** * [extractZipcode] *)
(* ===================================================================== *)

Ltac inv_matches :=
  repeat match goal with
  | H : Matches (Seq _ _) _ _ _ _ _ |- _ => inversion H; subst; clear H
  | H : Matches (Alt _ _) _ _ _ _ _ |- _ => inversion H; subst; clear H
  | H : Matches (Chr _) _ _ _ _ _ |- _ => inversion H; subst; clear H
  | H : Matches (Grp _ _) _ _ _ _ _ |- _ => inversion H; subst; clear H
  | H : Matches (Star _ _) _ _ _ _ _ |- _ => inversion H; subst; clear H
  | H : Matches Eps _ _ _ _ _ |- _ => inversion H; subst; clear H
  | H : Matches WordB _ _ _ _ _ |- _ => inversion H; subst; clear H
  | H : Matches Bol _ _ _ _ _ |- _ => inversion H; subst; clear H
  | H : Matches Eol _ _ _ _ _ |- _ => inversion H; subst; clear H
  end.


Lemma digits_5 c1 c2 c3 c4 c5 :
  isDigit c1 = true -> isDigit c2 = true -> isDigit c3 = true ->
  isDigit c4 = true -> isDigit c5 = true ->
  digits 5 (String c1 (String c2 (String c3 (String c4 (String c5 ""))))) = true.
Proof. intros H1 H2 H3 H4 H5. unfold digits. simpl. now rewrite H1, H2, H3, H4, H5. Qed.

Lemma digits_4 c1 c2 c3 c4 :
  isDigit c1 = true -> isDigit c2 = true -> isDigit c3 = true ->
  isDigit c4 = true ->
  digits 4 (String c1 (String c2 (String c3 (String c4 "")))) = true.
Proof. intros H1 H2 H3 H4. unfold digits. simpl. now rewrite H1, H2, H3, H4. Qed.

Lemma eqc_true x c : eqc x c = true -> c = x.
Proof. unfold eqc. apply Ascii.eqb_eq. Qed.

Lemma Matches_zip_shape prev w rest cs :
  Matches zipcodeRegex prev w rest [] cs ->
  zip_shaped w /\ word_boundary prev (w +:+ rest) = true /\
  word_boundary (last_char prev w) rest = true.
Proof.
  intros H. cbn in H. unfold opt in H. inv_matches; simpl in *.
  - match goal with H : eqc _ _ = true |- _ => apply eqc_true in H as -> end.
    split; [|split; assumption].
    apply (zip_nine (String _ (String _ (String _ (String _ (String _ "")))))
                    (String _ (String _ (String _ (String _ ""))))).
    + apply digits_5; assumption.
    + apply digits_4; assumption.
  - split; [|split; assumption].
    apply zip_five. apply digits_5; assumption.
Qed.

Lemma digits_inv n w : digits n w = true -> String.length w = n /\ all_chars isDigit w = true.
Proof.
  unfold digits. intros H. apply andb_prop in H as [H1 H2].
  apply Nat.eqb_eq in H1. auto.
Qed.

(** The matcher's answer on a delimited nine-digit zip is that zip. *)
Lemma exec_at_zip_nine prev d e rest :
  digits 5 d = true -> digits 4 e = true ->
  word_boundary prev ((d +:+ "-" +:+ e) +:+ rest) = true ->
  word_boundary (last_char prev (d +:+ "-" +:+ e)) rest = true ->
  exec_at zipcodeRegex prev ((d +:+ "-" +:+ e) +:+ rest)
  = Some (Found "" (d +:+ "-" +:+ e) rest []).
Proof.
  intros Hd He Hb1 Hb2.
  apply digits_inv in Hd as [Hld Hd]. apply digits_inv in He as [Hle He].
  destruct d as [|c1 [|c2 [|c3 [|c4 [|c5 [|]]]]]]; try discriminate.
  destruct e as [|e1 [|e2 [|e3 [|e4 [|]]]]]; try discriminate.
  simpl in Hd, He, Hb1, Hb2 |- *.
  repeat match goal with
  | H : _ && _ = true |- _ => apply andb_prop in H as [? H]
  end.
  unfold exec_at. cbn.
  rewrite Hb1.
  repeat match goal with
  | H : isDigit _ = true |- _ => rewrite H; clear H
  end.
  cbn. rewrite Hb2. reflexivity.
Qed.

Lemma zip_shaped_length w : zip_shaped w -> String.length w = 5 \/ String.length w = 10.
Proof.
  intros [d Hd|d e Hd He].
  - apply digits_inv in Hd as [-> _]. auto.
  - apply digits_inv in Hd as [Hd _]. apply digits_inv in He as [He _].
    right. rewrite !app_length, Hd, He. reflexivity.
Qed.

Lemma exec_at_zip_delimited prev w rest :
  zip_shaped w ->
  word_boundary prev (w +:+ rest) = true ->
  word_boundary (last_char prev w) rest = true ->
  is_Some (exec_at zipcodeRegex prev (w +:+ rest)).
Proof.
  intros [d Hd|d e Hd He] Hb1 Hb2.
  - apply digits_inv in Hd as [Hld Hd].
    destruct d as [|c1 [|c2 [|c3 [|c4 [|c5 [|]]]]]]; try discriminate.
    simpl in Hd, Hb1, Hb2 |- *.
    repeat match goal with
    | H : _ && _ = true |- _ => apply andb_prop in H as [? H]
    end.
    unfold exec_at. cbn. rewrite Hb1.
    repeat match goal with
    | H : isDigit _ = true |- _ => rewrite H; clear H
    end.
    cbn. rewrite Hb2.
    match goal with
    | |- is_Some (match ?x with Some _ => _ | None => _ end) => destruct x; eauto
    end.
  - rewrite exec_at_zip_nine; eauto.
Qed.

(** C1 (as the code has it).  [extractZipcode] returns the leftmost
    occurrence of [\d{5}(-\d{4})?] that has a word boundary on each side, the
    nine-digit form when both forms are delimited there; it returns [null]
    exactly when the address has no such delimited occurrence. *)
Theorem extractZipcode_first_delimited (address : string) :
  match extractZipcode address with
  | Some z =>
      exists pre post,
        address = pre +:+ z +:+ post /\ delimited_zip pre z post /\
        forall pre' w post',
          address = pre' +:+ w +:+ post' -> delimited_zip pre' w post' ->
          String.length pre <= String.length pre' /\
          (String.length pre' = String.length pre ->
           String.length w <= String.length z)
  | None =>
      forall pre w post,
        address = pre +:+ w +:+ post -> ~ delimited_zip pre w post
  end.
Proof.
  unfold extractZipcode.
  destruct (search zipcodeRegex None address) as [f|] eqn:Hs; simpl.
  - apply search_found in Hs as (Heq & He & Hleft).
    pose proof (exec_at_sound _ _ _ _ He) as (_ & _ & Hm). simpl in Hm.
    apply Matches_zip_shape in Hm as (Hz & Hb1 & Hb2).
    exists (before f), (after f). split; [assumption|]. split.
    { split; [assumption|]. split; [assumption|]. now rewrite last_char_app. }
    intros pre' w post' Heq' (Hw & Hw1 & Hw2).
    rewrite last_char_app in Hw2.
    assert (Hle : String.length (before f) <= String.length pre').
    { destruct (le_lt_dec (String.length (before f)) (String.length pre')) as [|Hlt];
        [assumption|].
      specialize (Hleft pre' (w +:+ post') Heq' Hlt).
      destruct (exec_at_zip_delimited _ _ _ Hw Hw1 Hw2) as [x Hx]. congruence. }
    split; [assumption|]. intros Hlen.
    rewrite Heq in Heq'.
    apply app_eq_length in Heq' as [Hpre Hrest]; [|congruence]. subst pre'.
    destruct Hw as [d Hd|d e Hd He'].
    + apply digits_inv in Hd as [-> _].
      destruct (zip_shaped_length _ Hz) as [-> | ->]; lia.
    + pose proof (exec_at_zip_nine _ _ _ _ Hd He' Hw1 Hw2) as Hn.
      rewrite <- Hrest, He in Hn. inversion Hn as [[Hm Ha Hg]]. rewrite Hm. apply Nat.le_refl.
  - intros pre w post Heq (Hw & Hw1 & Hw2).
    rewrite last_char_app in Hw2.
    pose proof (search_nowhere _ _ _ Hs pre (w +:+ post) Heq) as Hn.
    destruct (exec_at_zip_delimited _ _ _ Hw Hw1 Hw2) as [x Hx]. congruence.
Qed.

Lemma extractZipcode_first_delimited_witness :
  exists pre post,
    "8 Lynnbrook Road, 06824" = pre +:+ "06824" +:+ post /\
    delimited_zip pre "06824" post.
Proof.
  pose proof (extractZipcode_first_delimited "8 Lynnbrook Road, 06824") as H.
  assert (E : extractZipcode "8 Lynnbrook Road, 06824" = Some "06824")
    by (vm_compute; reflexivity).
  rewrite E in H. destruct H as (pre & post & H1 & H2 & _).
  exists pre, post. split; assumption.
Defined.

(** C1 (as the specification states it) fails: "123456 Main St" contains
    "12345", which [\d{5}(-\d{4})?] matches first, and [extractZipcode]
    returns [null], because no word boundary follows the fifth digit. *)
Lemma extractZipcode_needs_word_boundaries :
  "123456 Main St" = "" +:+ "12345" +:+ "6 Main St" /\
  zip_shaped "12345" /\
  spec_extractZip "123456 Main St" = Some "12345" /\
  extractZipcode "123456 Main St" = None.
Proof.
  split; [reflexivity|]. split; [apply zip_five; reflexivity|].
  split; vm_compute; reflexivity.
Qed.

(* ===================================================================== *)
(** * [findParcelUrl] *)
(* ===================================================================== *)

(** Derivations, built from the left. *)
Lemma M_Chr_Seq p r prev c w rest cs cs' :
  p c = true -> Matches r (Some c) w rest cs cs' ->
  Matches (Seq (Chr p) r) prev (String c w) rest cs cs'.
Proof.
  intros Hp Hr. apply (M_Seq (Chr p) r prev (String c "") w rest cs cs cs').
  - now constructor.
  - exact Hr.
Qed.

Lemma M_plus p prev w rest cs :
  w <> "" -> all_chars p w = true -> Matches (plus p) prev w rest cs cs.
Proof.
  intros Hne Hw. destruct w as [|c w]; [congruence|]. simpl in Hw.
  apply andb_prop in Hw as [Hc Hw]. unfold plus.
  apply M_Chr_Seq; [assumption|]. now constructor.
Qed.

Lemma Matches_plus_inv p prev w rest cs cs' :
  Matches (plus p) prev w rest cs cs' -> w <> "" /\ all_chars p w = true /\ cs' = cs.
Proof.
  unfold plus. intros H. inv_matches. simpl.
  repeat match goal with H : _ = true |- _ => rewrite H; clear H end.
  repeat split. discriminate.
Qed.

Lemma Matches_lit_i x : forall prev w rest cs,
  x <> "" -> toLowerCase w = toLowerCase x -> Matches (lit_i x) prev w rest cs cs.
Proof.
  induction x as [|c x IH]; intros prev w rest cs Hne Hw; [congruence|].
  destruct w as [|d w]; [discriminate|]. simpl in Hw. injection Hw as Hd Hw.
  destruct x as [|c' x].
  - destruct w; [|discriminate]. simpl. constructor. unfold ci.
    rewrite Hd. apply Ascii.eqb_refl.
  - change (lit_i (String c (String c' x)))
      with (Seq (Chr (ci c)) (lit_i (String c' x))).
    apply M_Chr_Seq.
    + unfold ci. rewrite Hd. apply Ascii.eqb_refl.
    + apply IH; [discriminate | assumption].
Qed.

Lemma Matches_lit_i_inv x : forall prev w rest cs cs',
  Matches (lit_i x) prev w rest cs cs' ->
  toLowerCase w = toLowerCase x /\ cs' = cs.
Proof.
  induction x as [|c x IH]; intros prev w rest cs cs' H.
  - simpl in H. inv_matches. auto.
  - destruct x as [|c' x].
    + simpl in H. inv_matches. simpl.
      match goal with H : ci _ _ = true |- _ => apply Ascii.eqb_eq in H; rewrite H end.
      auto.
    + change (lit_i (String c (String c' x)))
        with (Seq (Chr (ci c)) (lit_i (String c' x))) in H.
      inversion H as [| | |? ? ? w1 w2 ? ? ? ? H1 H2| | | | | |]; subst; clear H.
      inversion H1 as [|? ? d ? ? Hd| | | | | | | |]; subst; clear H1.
      apply IH in H2 as [Hw ->]. apply Ascii.eqb_eq in Hd.
      simpl. now rewrite Hd, Hw.
Qed.

Lemma M_Seq_eq r1 r2 prev w w1 w2 rest cs cs1 cs2 :
  w = w1 +:+ w2 ->
  Matches r1 prev w1 (w2 +:+ rest) cs cs1 ->
  Matches r2 (last_char prev w1) w2 rest cs1 cs2 ->
  Matches (Seq r1 r2) prev w rest cs cs2.
Proof. intros ->. apply M_Seq. Qed.

Lemma neqc_lower x w :
  toLowerChar x = x ->
  all_chars (neqc x) (toLowerCase w) = true -> all_chars (neqc x) w = true.
Proof.
  intros Hx. induction w as [|c w IH]; simpl; [reflexivity|].
  intros H. apply andb_prop in H as [Hc Hw]. rewrite (IH Hw), andb_true_r.
  unfold neqc in *. destruct (Ascii.eqb c x) eqn:E; [|reflexivity].
  apply Ascii.eqb_eq in E. subst c. rewrite Hx, Ascii.eqb_refl in Hc. discriminate.
Qed.

Lemma ci_not_paren x c :
  ci x c = true -> neqc ")" (toLowerChar x) = true -> neqc ")" c = true.
Proof.
  unfold ci, neqc. intros H Hx. apply Ascii.eqb_eq in H.
  destruct (Ascii.eqb c ")") eqn:E; [|reflexivity].
  apply Ascii.eqb_eq in E. subst c. rewrite <- H in Hx. discriminate.
Qed.

Lemma Matches_link prev text u1 pa u2 post :
  text <> "" -> all_chars (neqc "]") text = true ->
  u1 <> "" -> u2 <> "" ->
  all_chars (neqc ")") u1 = true -> all_chars (neqc ")") u2 = true ->
  toLowerCase pa = "parcel.aspx" ->
  Matches linkRegex prev (link_text text (u1 +:+ pa +:+ u2)) post
          [] [(2, u1 +:+ pa +:+ u2); (1, text)].
Proof.
  intros Ht1 Ht2 Hu1 Hu2 Hu1' Hu2' Hpa.
  unfold linkRegex, link_text. cbn [seqs].
  apply M_Chr_Seq; [reflexivity|].
  eapply (M_Seq_eq _ _ _ _ text); [reflexivity| |].
  { constructor. apply M_plus; assumption. }
  apply M_Chr_Seq; [reflexivity|]. apply M_Chr_Seq; [reflexivity|].
  eapply (M_Seq_eq _ _ _ _ (u1 +:+ pa +:+ u2) ")"); [reflexivity| |].
  - constructor. eapply (M_Seq_eq _ _ _ _ u1 (pa +:+ u2)); [reflexivity| |].
    + apply M_plus; assumption.
    + eapply (M_Seq_eq _ _ _ _ pa u2); [reflexivity| |].
      * apply Matches_lit_i; [discriminate | assumption].
      * apply M_plus; assumption.
  - constructor. reflexivity.
Qed.

Lemma Matches_link_inv prev w rest cs :
  Matches linkRegex prev w rest [] cs ->
  exists t u,
    w = link_text t u /\ all_chars (neqc "]") t = true /\
    all_chars (neqc ")") u = true /\ cs = [(2, u); (1, t)].
Proof.
  unfold linkRegex. cbn [seqs]. intros H. inv_matches.
  repeat match goal with
  | H : Matches (plus _) _ _ _ _ _ |- _ =>
      apply Matches_plus_inv in H as (? & ? & ?); subst
  | H : Matches (lit_i _) _ _ _ _ _ |- _ =>
      apply Matches_lit_i_inv in H as (? & ?); subst
  | H : eqc _ _ = true |- _ => apply eqc_true in H; subst
  end.
  eexists _, _. split; [reflexivity|]. split; [assumption|]. split; [|reflexivity].
  rewrite !all_chars_app.
  repeat match goal with H : all_chars _ _ = true |- _ => rewrite H end.
  repeat match goal with
  | H : ci _ _ = true |- _ => apply ci_not_paren in H; [|reflexivity]
  end.
  simpl.
  repeat match goal with H : neqc _ _ = true |- _ => rewrite H; clear H end.
  reflexivity.
Qed.

(** At the head of a well-formed link the matcher reads exactly that link. *)
Lemma exec_at_link prev text u1 pa u2 post :
  text <> "" -> all_chars (neqc "]") text = true ->
  u1 <> "" -> u2 <> "" ->
  all_chars (neqc ")") (u1 +:+ pa +:+ u2) = true ->
  toLowerCase pa = "parcel.aspx" ->
  exec_at linkRegex prev (link_text text (u1 +:+ pa +:+ u2) +:+ post)
  = Some (Found "" (link_text text (u1 +:+ pa +:+ u2)) post
                [(2, u1 +:+ pa +:+ u2); (1, text)]).
Proof.
  intros Ht1 Ht2 Hu1 Hu2 Hu Hpa.
  pose proof Hu as Hu'. rewrite !all_chars_app in Hu'.
  apply andb_prop in Hu' as [Hu1' Hu']. apply andb_prop in Hu' as [_ Hu2'].
  pose proof (Matches_link prev text u1 pa u2 post Ht1 Ht2 Hu1 Hu2 Hu1' Hu2' Hpa) as Hm.
  destruct (exec_at_complete _ _ _ _ _ Hm) as [f Hf]. rewrite Hf. f_equal.
  apply exec_at_sound in Hf as (Hb & Hs & Hf).
  apply Matches_link_inv in Hf as (t & u & Hw & Ht & Hu'' & Hcs).
  destruct f as [b m a g]; simpl in *; subst b m g.
  remember (u1 +:+ pa +:+ u2) as url eqn:Hurl. clear Hurl Hm.
  unfold link_text in Hs. simpl in Hs. injection Hs as Hs.
  rewrite !app_assoc in Hs. simpl in Hs.
  apply split_first_unique in Hs as [<- Hs]; [|assumption..].
  injection Hs as Hs. rewrite !app_assoc in Hs. simpl in Hs.
  apply split_first_unique in Hs as [<- <-]; [|assumption..].
  reflexivity.
Qed.

Lemma exec_at_link_other prev c s :
  neqc "[" c = true -> exec_at linkRegex prev (String c s) = None.
Proof.
  intros H. unfold exec_at, linkRegex. cbn. unfold neqc, eqc in *.
  destruct (Ascii.eqb c "["); [discriminate | reflexivity].
Qed.

Lemma matchAll_link_prefix pre : forall prev s,
  all_chars (neqc "[") pre = true ->
  omap (fun p => match p with Lit _ => None | Hit w cs => Some (w, cs) end)
       (scan linkRegex prev (pre +:+ s) 0)
  = omap (fun p => match p with Lit _ => None | Hit w cs => Some (w, cs) end)
       (scan linkRegex (last_char prev pre) s 0).
Proof.
  induction pre as [|c pre IH]; intros prev s H; [reflexivity|].
  simpl in H. apply andb_prop in H as [Hc H].
  change (String c pre +:+ s) with (String c (pre +:+ s)).
  cbn [scan]. rewrite (exec_at_link_other _ _ _ Hc). cbn [omap].
  simpl. apply IH. assumption.
Qed.

Lemma scan_hit r prev c s f :
  exec_at r prev (String c s) = Some f ->
  scan r prev (String c s) 0
  = Hit (matched f) (groups f) ::
    match String.length (matched f) with
    | O => Lit c :: scan r (Some c) s 0
    | S n => scan r (Some c) s n
    end.
Proof. intros H. cbn [scan]. rewrite H. reflexivity. Qed.

(** The first link that the loop of [findParcelUrl] visits, in a text whose
    first bracket opens a well-formed link to a [parcel.aspx] page. *)
Lemma links_first pre text u1 pa u2 post :
  all_chars (neqc "[") pre = true ->
  text <> "" -> all_chars (neqc "]") text = true ->
  u1 <> "" -> u2 <> "" ->
  all_chars (neqc ")") (u1 +:+ pa +:+ u2) = true ->
  toLowerCase pa = "parcel.aspx" ->
  exists more,
    links (pre +:+ link_text text (u1 +:+ pa +:+ u2) +:+ post)
    = (text, u1 +:+ pa +:+ u2) :: more.
Proof.
  intros Hpre Ht1 Ht2 Hu1 Hu2 Hu Hpa. unfold links, matchAll.
  rewrite (matchAll_link_prefix pre None _ Hpre).
  pose proof (exec_at_link (last_char None pre) text u1 pa u2 post
                Ht1 Ht2 Hu1 Hu2 Hu Hpa) as He.
  unfold link_text in *.
  change (String "[" ?a +:+ post) with (String "[" (a +:+ post)) in *.
  rewrite (scan_hit _ _ _ _ _ He). cbn [omap matched groups].
  eexists. cbn [map]. f_equal.
Qed.


(** ** Links after closed markup *)

Lemma after_first_split x s b :
  after_first x s = Some b ->
  exists a, s = a +:+ String x b /\ all_chars (neqc x) a = true.
Proof.
  revert b. induction s as [|c s IH]; intros b H; [discriminate|].
  simpl in H. destruct (eqc x c) eqn:E.
  - injection H as <-. apply eqc_true in E. subst c. exists "". auto.
  - destruct (IH b H) as (a & -> & Ha). exists (String c a).
    split; [reflexivity|]. simpl. rewrite Ha, andb_true_r.
    unfold neqc, eqc in *. now rewrite E.
Qed.

(** All that the link pattern asks of a match. *)
Lemma Matches_link_shape prev w rest cs :
  Matches linkRegex prev w rest [] cs ->
  exists text u1 pa u2,
    w = link_text text (u1 +:+ pa +:+ u2) /\
    cs = [(2, u1 +:+ pa +:+ u2); (1, text)] /\
    text <> "" /\ all_chars (neqc "]") text = true /\
    u1 <> "" /\ u2 <> "" /\
    all_chars (neqc ")") u1 = true /\ all_chars (neqc ")") u2 = true /\
    all_chars (neqc ")") (u1 +:+ pa +:+ u2) = true /\
    toLowerCase pa = "parcel.aspx".
Proof.
  unfold linkRegex. cbn [seqs]. intros H. inv_matches.
  repeat match goal with
  | H : Matches (plus _) _ _ _ _ _ |- _ =>
      apply Matches_plus_inv in H as (? & ? & ?); subst
  | H : Matches (lit_i _) _ _ _ _ _ |- _ =>
      apply Matches_lit_i_inv in H as (? & ?); subst
  | H : eqc _ _ = true |- _ => apply eqc_true in H; subst
  end.
  eexists _, _, _, _. unfold link_text.
  repeat split; try eassumption; try reflexivity.
  - rewrite !all_chars_app.
    repeat match goal with H : all_chars _ _ = true |- _ => rewrite H end.
    repeat match goal with
    | H : ci _ _ = true |- _ => apply ci_not_paren in H; [|reflexivity]
    end.
    simpl.
    repeat match goal with H : neqc _ _ = true |- _ => rewrite H; clear H end.
    reflexivity.
  - simpl.
    repeat match goal with
    | H : ci _ _ = true |- _ => apply Ascii.eqb_eq in H; rewrite H; clear H
    end.
    reflexivity.
Qed.

(** A match of the link pattern does not depend on what follows it. *)
Lemma Matches_link_rest prev prev' w rest rest' cs :
  Matches linkRegex prev w rest [] cs -> Matches linkRegex prev' w rest' [] cs.
Proof.
  intros H. apply Matches_link_shape in H
    as (text & u1 & pa & u2 & -> & -> & Ht & Ht' & Hu1 & Hu2 & Hu1' & Hu2' & _ & Hpa).
  now apply Matches_link.
Qed.

(** At a position the link pattern has one match at most. *)
Lemma Matches_link_unique p1 p2 w1 w2 r1 r2 cs1 cs2 :
  Matches linkRegex p1 w1 r1 [] cs1 -> Matches linkRegex p2 w2 r2 [] cs2 ->
  w1 +:+ r1 = w2 +:+ r2 -> w1 = w2 /\ r1 = r2 /\ cs1 = cs2.
Proof.
  intros H1 H2 Heq.
  apply Matches_link_inv in H1 as (t1 & u1 & -> & Ht1 & Hu1 & ->).
  apply Matches_link_inv in H2 as (t2 & u2 & -> & Ht2 & Hu2 & ->).
  unfold link_text in Heq. simpl in Heq. injection Heq as Heq.
  rewrite !app_assoc in Heq. simpl in Heq.
  apply split_first_unique in Heq as [<- Heq]; [|assumption..].
  injection Heq as Heq. rewrite !app_assoc in Heq. simpl in Heq.
  apply split_first_unique in Heq as [<- <-]; [|assumption..].
  auto.
Qed.

(** A match that starts at a settled bracket ends in the text that settles
    it. *)
Lemma Matches_link_contained prev w rest cs s t :
  Matches linkRegex prev w rest [] cs ->
  w +:+ rest = String "[" (s +:+ t) ->
  bracket_settled s = true ->
  (forall t', t <> String "(" t') ->
  exists r, String "[" s = w +:+ r /\ rest = r +:+ t.
Proof.
  intros Hm Heq Hs Ht.
  apply Matches_link_shape in Hm
    as (text & u1 & pa & u2 & -> & _ & Hne & Htext & _ & _ & _ & _ & Hu & _).
  remember (u1 +:+ pa +:+ u2) as u eqn:Eu. clear Eu.
  unfold link_text in Heq |- *. simpl in Heq. injection Heq as Heq.
  rewrite !app_assoc in Heq. simpl in Heq.
  unfold bracket_settled in Hs. destruct s as [|c s0]; [discriminate|].
  destruct (eqc "]" c) eqn:Ec.
  { (* the bracket closes at once: the text of the link would be empty *)
    apply eqc_true in Ec. subst c. destruct text as [|x text]; [congruence|].
    simpl in Heq, Htext. injection Heq as -> _. discriminate. }
  destruct (after_first "]" (String c s0)) as [b|] eqn:Ea; [|discriminate].
  destruct (after_first_split _ _ _ Ea) as (a & Hsa & Ha).
  rewrite Hsa, !app_assoc in Heq. simpl in Heq.
  apply split_first_unique in Heq as [<- Heq]; [|assumption..].
  destruct b as [|d b].
  { simpl in Heq. symmetry in Heq. now destruct (Ht _ Heq). }
  simpl in Heq. injection Heq as <- Heq. simpl in Hs.
  destruct (after_first ")" b) as [b'|] eqn:Eb; [|discriminate].
  destruct (after_first_split _ _ _ Eb) as (a' & -> & Ha').
  rewrite !app_assoc in Heq. simpl in Heq.
  apply split_first_unique in Heq as [<- ->]; [|assumption..].
  exists b'. split; [|reflexivity].
  rewrite Hsa. simpl. rewrite !app_assoc. simpl. now rewrite !app_assoc.
Qed.

(** At a settled bracket the matcher reads the same link whatever follows
    the text. *)
Lemma exec_at_link_settled prev s t :
  bracket_settled s = true ->
  (forall t', t <> String "(" t') ->
  exec_at linkRegex prev (String "[" (s +:+ t))
  = (fun f => Found "" (matched f) (after f +:+ t) (groups f))
    <$> exec_at linkRegex prev (String "[" s).
Proof.
  intros Hs Ht.
  destruct (exec_at linkRegex prev (String "[" s)) as [f'|] eqn:E'.
  - pose proof (exec_at_sound _ _ _ _ E') as (Hb' & Hs' & Hm').
    pose proof (Matches_link_rest _ prev _ _ (after f' +:+ t) _ Hm') as Hm.
    destruct (exec_at_complete _ _ _ _ _ Hm) as [f Hf].
    assert (Hx : matched f' +:+ after f' +:+ t = String "[" (s +:+ t)).
    { rewrite <- app_assoc, <- Hs'. reflexivity. }
    rewrite Hx in Hf. rewrite Hf. simpl. f_equal.
    pose proof (exec_at_sound _ _ _ _ Hf) as (Hb & Hsf & Hmf).
    rewrite <- Hx in Hsf. symmetry in Hsf.
    destruct (Matches_link_unique _ _ _ _ _ _ _ _ Hmf Hm Hsf) as (Hw & Hr & Hcs).
    destruct f as [b m a g]; simpl in *. now subst.
  - destruct (exec_at linkRegex prev (String "[" (s +:+ t))) as [f|] eqn:E;
      [exfalso | reflexivity].
    pose proof (exec_at_sound _ _ _ _ E) as (_ & Hsf & Hm).
    symmetry in Hsf.
    destruct (Matches_link_contained _ _ _ _ _ _ Hm Hsf Hs Ht) as (r & Hr & _).
    pose proof (Matches_link_rest _ prev _ _ r _ Hm) as Hm'.
    destruct (exec_at_complete _ _ _ _ _ Hm') as [f' Hf'].
    rewrite <- Hr in Hf'. congruence.
Qed.

Lemma exec_at_link_empty prev : exec_at linkRegex prev "" = None.
Proof. reflexivity. Qed.

(** The links found in a closed text followed by [t] are those of the text,
    then those of [t]. *)
Lemma scan_link_closed pre : forall prev skip t,
  closed_markup pre = true -> skip <= String.length pre ->
  (forall t', t <> String "(" t') ->
  omap (fun p => match p with Lit _ => None | Hit w cs => Some (w, cs) end)
       (scan linkRegex prev (pre +:+ t) skip)
  = omap (fun p => match p with Lit _ => None | Hit w cs => Some (w, cs) end)
         (scan linkRegex prev pre skip)
    ++ omap (fun p => match p with Lit _ => None | Hit w cs => Some (w, cs) end)
         (scan linkRegex (last_char prev pre) t 0).
Proof.
  induction pre as [|c pre IH]; intros prev skip t Hc Hskip Ht.
  - simpl in Hskip. assert (skip = 0) as -> by lia.
    simpl String.append. cbn [scan]. rewrite exec_at_link_empty. reflexivity.
  - simpl in Hc. apply andb_prop in Hc as [Hc0 Hc].
    change (String c pre +:+ t) with (String c (pre +:+ t)).
    destruct skip as [|n].
    + cbn [scan last_char]. destruct (eqc "[" c) eqn:Ec.
      * apply eqc_true in Ec. subst c.
        rewrite (exec_at_link_settled prev pre t Hc0 Ht).
        destruct (exec_at linkRegex prev (String "[" pre)) as [f|] eqn:E.
        -- cbn [fmap option_fmap option_map matched groups omap].
           pose proof (exec_at_sound _ _ _ _ E) as (_ & Hs & Hm).
           apply Matches_link_inv in Hm as (tx & u & Hw & _).
           rewrite Hw in Hs |- *. unfold link_text in Hs |- *.
           simpl in Hs. injection Hs as Hs.
           cbn [String.length]. simpl. f_equal. apply IH; [assumption| |assumption].
           apply (f_equal String.length) in Hs.
           rewrite !app_length in Hs. simpl in Hs. rewrite !app_length in Hs.
           simpl in Hs. repeat (rewrite app_length; simpl). lia.
        -- cbn [fmap option_fmap option_map omap]. simpl.
           apply IH; [assumption | lia | assumption].
      * assert (Hn : neqc "[" c = true) by (unfold neqc, eqc in *; now rewrite Ec).
        rewrite !(exec_at_link_other _ _ _ Hn). simpl.
        apply IH; [assumption | lia | assumption].
    + cbn [scan last_char]. simpl in Hskip.
      apply IH; [assumption | lia | assumption].
Qed.

Lemma find_app_first {X} (p : X -> bool) l1 l2 :
  List.find p (l1 ++ l2)
  = match List.find p l1 with Some x => Some x | None => List.find p l2 end.
Proof.
  induction l1 as [|x l1 IH]; [reflexivity|]. simpl. now destruct (p x).
Qed.

(** The links of a closed text followed by a well-formed link. *)
Lemma links_after_closed pre text u1 pa u2 post :
  closed_markup pre = true ->
  text <> "" -> all_chars (neqc "]") text = true ->
  u1 <> "" -> u2 <> "" ->
  all_chars (neqc ")") (u1 +:+ pa +:+ u2) = true ->
  toLowerCase pa = "parcel.aspx" ->
  exists more,
    links (pre +:+ link_text text (u1 +:+ pa +:+ u2) +:+ post)
    = links pre ++ (text, u1 +:+ pa +:+ u2) :: more.
Proof.
  intros Hpre Ht1 Ht2 Hu1 Hu2 Hu Hpa. unfold links, matchAll.
  rewrite (scan_link_closed pre None 0); [|assumption | lia | discriminate].
  pose proof (exec_at_link (last_char None pre) text u1 pa u2 post
                Ht1 Ht2 Hu1 Hu2 Hu Hpa) as He.
  unfold link_text in *.
  change (String "[" ?a +:+ post) with (String "[" (a +:+ post)) in *.
  rewrite (scan_hit _ _ _ _ _ He). cbn [omap matched groups].
  eexists. rewrite map_app. cbn [map]. reflexivity.
Qed.

Lemma closed_markup_no_bracket s :
  all_chars (neqc "[") s = true -> closed_markup s = true.
Proof.
  induction s as [|c s IH]; [reflexivity|]. cbn [all_chars closed_markup].
  intros H. apply andb_prop in H as [Hc H]. unfold neqc in Hc.
  apply negb_true_iff in Hc. unfold eqc. rewrite Hc. simpl. auto.
Qed.

Lemma links_no_bracket s : all_chars (neqc "[") s = true -> links s = [].
Proof.
  intros H. unfold links, matchAll.
  pose proof (matchAll_link_prefix s None "" H) as Hp.
  rewrite app_nil_r in Hp. rewrite Hp. reflexivity.
Qed.

(** C9 (as the code has it).  [findParcelUrl] returns the URL of the first
    link that its loop visits (the successive matches of the link pattern,
    whose URL contains [parcel.aspx] in any case) and whose anchor text,
    lower-cased, is one of the address variations.  In particular, take a
    well-formed link to a [parcel.aspx] page whose lower-cased anchor is a
    variation, after a text [pre] in which every bracket is settled (each
    ["["] meets a ["]"] after at least one character, and the parenthesis
    that may follow this ["]"] is closed) and in which the loop finds no link
    with a variation as its anchor: that link's URL is returned, whatever
    follows.  A text without ["["] is such a [pre], and so are "[note] " and
    a link to another address; "[8 LYNNBROOK ROAD](.../Parcel.aspx?pid=2271)"
    with the search address "8 Lynnbrook Road" is such a link. *)
Theorem findParcelUrl_first_link regexp searchAddress :
  (forall rawContent link,
     List.find (is_variation searchAddress) (links rawContent) = Some link ->
     findParcelUrl regexp searchAddress rawContent = Val (Some (snd link))) /\
  (forall pre text u1 pa u2 post,
     closed_markup pre = true ->
     List.find (is_variation searchAddress) (links pre) = None ->
     text <> "" -> all_chars (neqc "]") text = true ->
     u1 <> "" -> u2 <> "" ->
     all_chars (neqc ")") (u1 +:+ pa +:+ u2) = true ->
     toLowerCase pa = "parcel.aspx" ->
     In (toLowerCase text)
        (addressVariations (normalizeSearchAddress searchAddress)) ->
     findParcelUrl regexp searchAddress
       (pre +:+ link_text text (u1 +:+ pa +:+ u2) +:+ post)
     = Val (Some (u1 +:+ pa +:+ u2))) /\
  (forall pre,
     all_chars (neqc "[") pre = true ->
     closed_markup pre = true /\
     List.find (is_variation searchAddress) (links pre) = None).
Proof.
  split; [|split].
  - intros rawContent link H. unfold findParcelUrl. now rewrite H.
  - intros pre text u1 pa u2 post Hpre Hnone Ht1 Ht2 Hu1 Hu2 Hu Hpa Hin.
    destruct (links_after_closed pre text u1 pa u2 post Hpre Ht1 Ht2 Hu1 Hu2 Hu Hpa)
      as [more Hl].
    unfold findParcelUrl. rewrite Hl, find_app_first, Hnone. cbn [List.find].
    assert (Hv : is_variation searchAddress (text, u1 +:+ pa +:+ u2) = true).
    { unfold is_variation. apply existsb_exists. exists (toLowerCase text).
      split; [exact Hin | apply String.eqb_refl]. }
    rewrite Hv. reflexivity.
  - intros pre H. split; [now apply closed_markup_no_bracket|].
    now rewrite (links_no_bracket pre H).
Qed.

Lemma findParcelUrl_first_link_witness :
  findParcelUrl (fun _ _ => Val None) "8 Lynnbrook Road"
    "[note] [7 LYNNBROOK ROAD](https://gis.vgsi.com/fairfieldct/Parcel.aspx?pid=2270) [8 LYNNBROOK ROAD](https://gis.vgsi.com/fairfieldct/Parcel.aspx?pid=2271) more"
  = Val (Some "https://gis.vgsi.com/fairfieldct/Parcel.aspx?pid=2271").
Proof.
  refine (proj1 (proj2 (findParcelUrl_first_link (fun _ _ => Val None)
                          "8 Lynnbrook Road"))
            "[note] [7 LYNNBROOK ROAD](https://gis.vgsi.com/fairfieldct/Parcel.aspx?pid=2270) "
            "8 LYNNBROOK ROAD" "https://gis.vgsi.com/fairfieldct/"
            "Parcel.aspx" "?pid=2271" " more" _ _ _ _ _ _ _ _ _).
  - reflexivity.
  - vm_compute. reflexivity.
  - discriminate.
  - reflexivity.
  - discriminate.
  - discriminate.
  - reflexivity.
  - reflexivity.
  - vm_compute. left. reflexivity.
Defined.

(** C9 (as the specification states it) fails: the markup below contains the
    hyperlink to [pid=2271], and [findParcelUrl] returns the URL of an earlier
    link, whose anchor is the "rd" variation of the same address. *)
Lemma findParcelUrl_earlier_link_wins :
  includes
    "[8 Lynnbrook Rd](https://gis.vgsi.com/fairfieldct/Parcel.aspx?pid=1) [8 LYNNBROOK ROAD](https://gis.vgsi.com/fairfieldct/Parcel.aspx?pid=2271)"
    "[8 LYNNBROOK ROAD](https://gis.vgsi.com/fairfieldct/Parcel.aspx?pid=2271)"
  = true /\
  findParcelUrl (fun _ _ => Val None) "8 Lynnbrook Road"
    "[8 Lynnbrook Rd](https://gis.vgsi.com/fairfieldct/Parcel.aspx?pid=1) [8 LYNNBROOK ROAD](https://gis.vgsi.com/fairfieldct/Parcel.aspx?pid=2271)"
  = Val (Some "https://gis.vgsi.com/fairfieldct/Parcel.aspx?pid=1").
Proof. split; vm_compute; reflexivity. Qed.

(* ===================================================================== *)
(** * The selection of the candidate *)
(* ===================================================================== *)

Lemma goes_after_true a b : goes_after a b = true -> outranks b a.
Proof.
  unfold goes_after, outranks. intros H. apply negb_true_iff in H.
  destruct (Qlt_le_dec (score a) (score b)) as [Hlt|Hle].
  - now apply Qlt_le_weak.
  - apply Qle_bool_iff in Hle. congruence.
Qed.

Lemma goes_after_false a b : goes_after a b = false -> outranks a b.
Proof.
  unfold goes_after, outranks. intros H. apply negb_false_iff in H.
  now apply Qle_bool_iff.
Qed.

Lemma outranks_trans a b c : outranks a b -> outranks b c -> outranks a c.
Proof. unfold outranks. intros H1 H2. eapply Qle_trans; eauto. Qed.

Lemma insert_by_score_perm a l : Permutation (insert_by_score a l) (a :: l).
Proof.
  induction l as [|b l IH]; simpl; [reflexivity|].
  destruct (goes_after a b); [|reflexivity].
  rewrite IH. apply perm_swap.
Qed.

Lemma sort_by_score_perm l : Permutation (sort_by_score l) l.
Proof.
  induction l as [|a l IH]; simpl; [reflexivity|].
  rewrite insert_by_score_perm. now apply perm_skip.
Qed.

Lemma insert_by_score_sorted a l :
  StronglySorted outranks l -> StronglySorted outranks (insert_by_score a l).
Proof.
  induction 1 as [|b l Hs IH Hb]; simpl.
  - constructor; constructor.
  - destruct (goes_after a b) eqn:E.
    + constructor; [assumption|].
      eapply Permutation_Forall.
      * symmetry. apply insert_by_score_perm.
      * constructor; [now apply goes_after_true | assumption].
    + apply goes_after_false in E. constructor.
      * now constructor.
      * constructor; [assumption|].
        eapply List.Forall_impl; [|exact Hb]. simpl. intros c Hc.
        eapply outranks_trans; eauto.
Qed.

Lemma sort_by_score_sorted l : StronglySorted outranks (sort_by_score l).
Proof.
  induction l as [|a l IH]; simpl; [constructor|].
  now apply insert_by_score_sorted.
Qed.

(** The first element that passes a test in a sorted list outranks every
    element that passes it. *)
Lemma filter_head_outranks (p : TavilySearchResult -> bool) l r more :
  StronglySorted outranks l ->
  List.filter p l = r :: more ->
  In r l /\ p r = true /\ forall r', In r' l -> p r' = true -> outranks r r'.
Proof.
  induction 1 as [|a l Hs IH Ha]; simpl; [discriminate|].
  destruct (p a) eqn:E.
  - intros H. injection H as -> _. split; [now left|]. split; [assumption|].
    intros r' [<-|Hin] _; [unfold outranks; apply Qle_refl|].
    rewrite List.Forall_forall in Ha. now apply Ha.
  - intros H. destruct (IH H) as (Hin & Hp & Hmax).
    split; [now right|]. split; [assumption|].
    intros r' [<-|Hin'] Hr'; [congruence | now apply Hmax].
Qed.

Lemma filter_nil_none {X} (p : X -> bool) l :
  List.filter p l = [] -> forall x, In x l -> p x = false.
Proof.
  induction l as [|a l IH]; simpl; [contradiction|].
  destruct (p a) eqn:E; [discriminate|].
  intros H x [<-|Hin]; [assumption | now apply IH].
Qed.

(** The candidate that [select_result] returns: among the candidates that
    mention the address, one of the highest score; when none mentions it, one
    of the highest score of all. *)
Lemma select_result_spec searchAddress results :
  match select_result searchAddress results with
  | None => results = []
  | Some r =>
      In r results /\
      ((mentions searchAddress r = true /\
        forall r', In r' results -> mentions searchAddress r' = true ->
                   (score r' <= score r)%Q)
       \/
       ((forall r', In r' results -> mentions searchAddress r' = false) /\
        forall r', In r' results -> (score r' <= score r)%Q))
  end.
Proof.
  unfold select_result.
  pose proof (sort_by_score_perm results) as Hp.
  pose proof (sort_by_score_sorted results) as Hs.
  destruct (sort_by_score results) as [|best sorted] eqn:E.
  - apply Permutation_nil in Hp. assumption.
  - destruct (List.filter (mentions searchAddress) (best :: sorted))
      as [|first more] eqn:F.
    + split; [eapply Permutation_in; [exact Hp | now left]|]. right. split.
      * intros r' Hin. eapply filter_nil_none; [exact F|].
        eapply Permutation_in; [symmetry; exact Hp | exact Hin].
      * intros r' Hin.
        apply (Permutation_in _ (Permutation_sym Hp)) in Hin.
        destruct Hin as [<-|Hin]; [apply Qle_refl|].
        inversion Hs as [|? ? _ Hall]; subst.
        rewrite List.Forall_forall in Hall. now apply Hall.
    + destruct (filter_head_outranks _ _ _ _ Hs F) as (Hin & Hm & Hmax).
      split; [eapply Permutation_in; [exact Hp | exact Hin]|]. left.
      split; [assumption|]. intros r' Hin' Hr'. apply Hmax; [|assumption].
      eapply Permutation_in; [symmetry; exact Hp | exact Hin'].
Qed.

(* ===================================================================== *)
(** * Replacing white space *)
(* ===================================================================== *)

Lemma exec_at_plus_None p prev c s :
  p c = false -> exec_at (plus p) prev (String c s) = None.
Proof. intros H. unfold exec_at, plus. simpl. now rewrite H. Qed.

Lemma exec_at_plus_Some p prev c s :
  p c = true ->
  exists w rest,
    s = w +:+ rest /\ all_chars p w = true /\
    exec_at (plus p) prev (String c s) = Some (Found "" (String c w) rest []).
Proof.
  intros H. unfold exec_at, plus. simpl. rewrite H.
  destruct (star_greedy_complete (A := found) p "" s
              (fun w rest => Some (Found "" (String c "" +:+ w) rest [])))
    as [f Hf]; [reflexivity | eauto |].
  simpl in Hf. rewrite Hf.
  apply star_greedy_sound in Hf as (w & rest & -> & Hw & Hk).
  injection Hk as <-. exists w, rest. auto.
Qed.

(** Removing the runs of white space removes the white space. *)
Lemma scan_spaces_removed s : forall prev skip w rest,
  s = w +:+ rest -> String.length w = skip -> all_chars isSpace w = true ->
  rebuild "" (scan spacesRegex prev s skip) = remove_spaces s.
Proof.
  induction s as [|c s IH]; intros prev skip w rest Hs Hl Hw.
  - destruct w; [|discriminate]. simpl in Hl. subst skip. reflexivity.
  - destruct skip as [|n].
    + destruct w; [|discriminate]. simpl in Hs. subst rest.
      cbn [scan remove_spaces]. unfold spacesRegex.
      destruct (isSpace c) eqn:E.
      * destruct (exec_at_plus_Some isSpace prev c s E) as (w & rest & -> & Hw' & ->).
        cbn [matched groups rebuild fold_right String.length].
        change ("" +:+ ?x) with x.
        apply (IH (Some c) (String.length w) w rest); auto.
      * rewrite (exec_at_plus_None _ _ _ _ E). cbn [rebuild fold_right].
        f_equal. apply (IH (Some c) 0 "" s); auto.
    + destruct w as [|d w]; [discriminate|]. simpl in Hs, Hl, Hw.
      injection Hs as <- ->. injection Hl as Hl.
      apply andb_prop in Hw as [Hd Hw].
      cbn [scan remove_spaces]. rewrite Hd.
      apply (IH (Some c) n w rest); auto.
Qed.

Lemma replaceAll_spaces s : replaceAll spacesRegex "" s = remove_spaces s.
Proof. apply (scan_spaces_removed s None 0 "" s); auto. Qed.

Lemma make_searchUrl_eq cityLower stateLower :
  make_searchUrl cityLower stateLower
  = "https://gis.vgsi.com/" +:+ remove_spaces cityLower +:+ stateLower
      +:+ "/search.aspx".
Proof. unfold make_searchUrl. now rewrite replaceAll_spaces. Qed.

(* ===================================================================== *)
(** * Facts about computations *)
(* ===================================================================== *)

#[local] Arguments bind : simpl never.
#[local] Arguments try_catch : simpl never.

Lemma snd_bind {A B} (m : M A) (f : A -> M B) :
  snd (bind m f) = match snd m with
                   | Val a => snd (f a)
                   | Throw e => Throw e
                   end.
Proof. destruct m as [l [a|e]]; unfold bind; simpl; [destruct (f a)|]; reflexivity. Qed.

Lemma fst_bind {A B} (m : M A) (f : A -> M B) :
  fst (bind m f) = match snd m with
                   | Val a => fst m ++ fst (f a)
                   | Throw e => fst m
                   end.
Proof. destruct m as [l [a|e]]; unfold bind; simpl; [destruct (f a)|]; reflexivity. Qed.

Lemma snd_try_catch {A} (m : M A) (h : thrown -> M A) :
  snd (try_catch m h) = match snd m with
                        | Val a => Val a
                        | Throw e => snd (h e)
                        end.
Proof. destruct m as [l [a|e]]; unfold try_catch; simpl; [|destruct (h e)]; reflexivity. Qed.

Lemma fst_try_catch {A} (m : M A) (h : thrown -> M A) :
  fst (try_catch m h) = match snd m with
                        | Val a => fst m
                        | Throw e => fst m ++ fst (h e)
                        end.
Proof. destruct m as [l [a|e]]; unfold try_catch; simpl; [|destruct (h e)]; reflexivity. Qed.

Lemma yields_ret {A} (P : A -> Prop) a : P a -> yields P (ret a).
Proof. intros H. exact H. Qed.

Lemma yields_throw {A} (P : A -> Prop) e : yields P (throw e).
Proof. exact I. Qed.

Lemma yields_bind {A B} (P : B -> Prop) (m : M A) (f : A -> M B) :
  (forall a, snd m = Val a -> yields P (f a)) -> yields P (bind m f).
Proof.
  intros H. unfold yields. rewrite snd_bind.
  destruct (snd m) as [a|e] eqn:E; [|exact I]. now apply H.
Qed.

Lemma yields_try_catch {A} (P : A -> Prop) (m : M A) (h : thrown -> M A) :
  yields P m -> (forall e, yields P (h e)) -> yields P (try_catch m h).
Proof.
  intros Hm Hh. unfold yields in *. rewrite snd_try_catch.
  destruct (snd m) as [a|e]; [assumption | apply Hh].
Qed.

Lemma yields_impl {A} (P Q : A -> Prop) (m : M A) :
  (forall a, P a -> Q a) -> yields P m -> yields Q m.
Proof. unfold yields. intros H. destruct (snd m); auto. Qed.

(** The response of [POST] is the one that the body returns, or the answer
    of the outer handler. *)
Lemma snd_POST env zipData request :
  snd (POST env zipData request)
  = match snd (POST_body env zipData request) with
    | Val r => r
    | Throw e => error_response (errorMessage e) 500
    end.
Proof.
  unfold POST, catch_all.
  destruct (POST_body env zipData request) as [l [r|e]]; reflexivity.
Qed.

(** [completion] always returns a response. *)
Lemma completion_returns env zipcode info searchUrl searchAddress r :
  exists resp,
    snd (completion env zipcode info searchUrl searchAddress r) = Val resp.
Proof.
  unfold completion. rewrite snd_try_catch.
  match goal with |- context [snd ?m] => destruct (snd m) as [a|e] end; eauto.
Qed.

(* ===================================================================== *)
(** * The responses of the handler *)
(* ===================================================================== *)

Lemma extractZipcode_nonempty address z :
  extractZipcode address = Some z -> is_empty z = false.
Proof.
  unfold extractZipcode. intros H.
  destruct (search zipcodeRegex None address) as [f|] eqn:Hs; [|discriminate].
  injection H as <-. apply search_found in Hs as (_ & He & _).
  apply exec_at_sound in He as (_ & _ & Hm). simpl in Hm.
  apply Matches_zip_shape in Hm as (Hz & _).
  apply zip_shaped_length in Hz. destruct (matched f); [simpl in Hz; lia | reflexivity].
Qed.

Section HandlerFacts.
Variable env : Env.
Variables (zipcode : string) (info : ZipInfo) (searchUrl searchAddress : string).

#[local] Abbreviation outcome := (completion_outcome env zipcode info searchUrl).

Lemma outcome_success ts :
  from_completions env ts -> outcome (success zipcode info searchUrl ts).
Proof. intros H. right. eauto. Qed.

Lemma second_pass_yields analysed :
  yields outcome (second_pass env zipcode info searchUrl analysed).
Proof.
  unfold second_pass. apply yields_bind; intros _ _.
  apply yields_bind; intros [c|] Hc; [|apply yields_throw].
  destruct (is_empty c); [apply yields_throw|].
  apply yields_bind; intros _ _. apply yields_bind; intros v Hv.
  simpl in Hc, Hv.
  destruct v as [| | | | |[|t ts]|];
    try (apply yields_bind; intros _ _; apply yields_ret, outcome_success;
         now left).
  apply yields_bind; intros _ _. apply yields_ret, outcome_success.
  right; right. eauto.
Qed.

Lemma type2_branch_yields parsedData :
  yields outcome (type2_branch env zipcode info searchUrl searchAddress parsedData).
Proof.
  unfold type2_branch. apply yields_bind; intros _ _.
  apply yields_bind; intros m _.
  destruct (negb _); [apply yields_throw|].
  apply yields_bind; intros _ _. apply yields_bind; intros [|r l] _;
    [apply yields_throw|].
  destruct (is_empty _); [apply yields_throw | apply second_pass_yields].
Qed.

Lemma type3_branch_yields parsedData :
  yields outcome (type3_branch env zipcode info searchUrl parsedData).
Proof.
  unfold type3_branch. apply yields_bind; intros _ _.
  destruct parsedData as [|first rest]; [apply yields_throw|].
  destruct first; try apply yields_throw;
    (destruct (negb _); [apply yields_throw | apply second_pass_yields]).
Qed.

Lemma no_valid_type_yields : yields outcome (no_valid_type zipcode info searchUrl).
Proof.
  unfold no_valid_type. apply yields_bind; intros _ _.
  apply yields_ret, outcome_success. now left.
Qed.

Lemma dispatch_yields parsedData :
  (forall first rest,
     parsedData = VArr (first :: rest) ->
     is_str "Type 1" (tag_of first) = true -> from_completions env rest) ->
  yields outcome (dispatch env zipcode info searchUrl searchAddress parsedData).
Proof.
  intros H. unfold dispatch.
  destruct parsedData as [| | | | |[|first rest]|]; try apply no_valid_type_yields.
  apply yields_bind; intros _ _.
  fold (tag_of first).
  destruct (is_str "Type 1" (tag_of first)) eqn:E1.
  { apply yields_bind; intros _ _. apply yields_ret, outcome_success. eauto. }
  destruct (is_str "Type 2" (tag_of first) || is_str "Type 3" (tag_of first));
    [apply type2_branch_yields|].
  destruct (is_str "Type 3" (tag_of first));
    [apply type3_branch_yields | apply no_valid_type_yields].
Qed.

Lemma detect_link_tag rawContent first rest :
  detect_link searchAddress rawContent = Some (VArr (first :: rest)) ->
  is_str "Type 1" (tag_of first) = false.
Proof.
  unfold detect_link. destruct (List.find _ _); [|discriminate].
  intros H. injection H as <- _. reflexivity.
Qed.

Lemma after_parse_yields resultToUse parsedData c :
  ai_first env searchAddress resultToUse = Val (Some c) ->
  JSON_parse env c = Val parsedData ->
  yields outcome
    (after_parse env zipcode info searchUrl searchAddress resultToUse parsedData).
Proof.
  intros Hc Hp. unfold after_parse. apply yields_bind; intros _ _.
  assert (Hdirect : yields outcome
            (dispatch env zipcode info searchUrl searchAddress parsedData)).
  { apply dispatch_yields. intros first rest -> _.
    right; left. eauto 6. }
  apply yields_bind; intros pd Hpd.
  destruct parsedData as [| | | | |[|first rest]|];
    try (injection Hpd as <-; exact Hdirect);
    try (destruct (rawContent resultToUse); injection Hpd as <-; exact Hdirect).
  destruct (rawContent resultToUse) as [raw|]; [|injection Hpd as <-; exact Hdirect].
  destruct (is_empty raw); [injection Hpd as <-; exact Hdirect|].
  simpl in Hpd. injection Hpd as <-.
  destruct (detect_link searchAddress raw) as [pd|] eqn:D; [|exact Hdirect].
  simpl. apply dispatch_yields. intros first rest -> Ht.
  apply detect_link_tag in D. congruence.
Qed.

Lemma completion_yields resultToUse :
  yields outcome
    (completion env zipcode info searchUrl searchAddress resultToUse).
Proof.
  unfold completion. apply yields_try_catch.
  - apply yields_bind; intros _ _. apply yields_bind; intros [c|] Hc;
      [|apply yields_bind; intros _ _; apply yields_throw].
    apply yields_bind; intros _ _.
    destruct (is_empty c); [apply yields_throw|].
    apply yields_try_catch.
    + apply yields_bind; intros pd Hpd. eapply after_parse_yields; eauto.
    + intros e. apply yields_bind; intros _ _. apply yields_throw.
  - intros e. apply yields_bind; intros _ _. apply yields_ret. left. eauto.
Qed.
End HandlerFacts.

Lemma snd_search_step env zipcode info searchUrl searchAddress :
  snd (search_step env zipcode info searchUrl searchAddress)
  = match tavily_search env
            (searchAddress +:+ " property sale history transactions") with
    | Val results =>
        match select_result searchAddress results with
        | Some resultToUse =>
            snd (completion env zipcode info searchUrl searchAddress resultToUse)
        | None =>
            Val (error_response "No property records found for this address" 404)
        end
    | Throw e => Throw e
    end.
Proof.
  unfold search_step. rewrite !snd_bind. simpl.
  destruct (tavily_search env _) as [results|e]; [|reflexivity].
  destruct (select_result searchAddress results); [|reflexivity].
  rewrite !snd_bind. reflexivity.
Qed.

Ltac step_binds :=
  simpl;
  repeat (rewrite snd_bind;
          unfold toLowerCase_of, typeError, throw, ret, lift, log; simpl).

Lemma snd_POST_body env zipData request :
  snd (POST_body env zipData request) = POST_steps env zipData request.
Proof.
  unfold POST_body, POST_steps. rewrite snd_bind.
  destruct request as [body|e]; [|reflexivity]. simpl.
  assert (Hstep : forall address : value,
    snd (bind (ret address) (fun address =>
           bind (log "=== Starting Address Processing ===") (fun _ =>
             match address with
             | VStr address' =>
                 let zipcode := extractZipcode address' in
                 bind (log "=== Zipcode Extraction ===") (fun _ =>
                   if absent zipcode
                   then ret (error_response "Could not extract zipcode from address" 400)
                   else
                     let zipcode' := default "" zipcode in
                     let searchAddress := removeZipcode address' in
                     bind (lift (lookupZip zipData zipcode')) (fun locationInfo =>
                       bind (log "=== Location Information ===") (fun _ =>
                         match locationInfo with
                         | None =>
                             ret (error_response
                                    "County information not found for this zipcode" 404)
                         | Some info =>
                             bind (toLowerCase_of env (city info)) (fun cityLower =>
                               bind (toLowerCase_of env (state_id info)) (fun stateLower =>
                                 search_step env zipcode' info
                                   (make_searchUrl cityLower stateLower)
                                   searchAddress))
                         end)))
             | _ => typeError env
             end)))
    = match address with
      | VStr address =>
          match extractZipcode address with
          | None =>
              Val (error_response "Could not extract zipcode from address" 400)
          | Some zipcode =>
              match lookupZip zipData zipcode with
              | Throw e => Throw e
              | Val None =>
                  Val (error_response
                         "County information not found for this zipcode" 404)
              | Val (Some info) =>
                  match city info, state_id info with
                  | VStr cityS, VStr stateS =>
                      snd (search_step env zipcode info
                             (make_searchUrl (toLowerCase cityS)
                                (toLowerCase stateS))
                             (removeZipcode address))
                  | _, _ => Throw (ErrorObj (typeErrorMessage env))
                  end
              end
          end
      | _ => Throw (ErrorObj (typeErrorMessage env))
      end).
  { intros address. rewrite !snd_bind. simpl.
    destruct address as [| | | |address| |]; try reflexivity.
    rewrite snd_bind. simpl.
    destruct (extractZipcode address) as [zipcode|] eqn:Hz; [|reflexivity].
    simpl. rewrite (extractZipcode_nonempty _ _ Hz).
    rewrite snd_bind. simpl.
    destruct (lookupZip zipData zipcode) as [[info|]|]; [| |reflexivity].
    - step_binds.
      destruct (city info); try reflexivity. step_binds.
      destruct (state_id info); try reflexivity.
    - step_binds. reflexivity. }
  destruct body; try (rewrite snd_bind; reflexivity); apply Hstep.
Qed.

Lemma snd_POST_body_resolved env zipData request address zipcode info cityS stateS :
  resolves zipData request address zipcode info cityS stateS ->
  snd (POST_body env zipData request)
  = snd (search_step env zipcode info
           (make_searchUrl (toLowerCase cityS) (toLowerCase stateS))
           (removeZipcode address)).
Proof.
  intros (body & -> & Ha & Hz & Hl & Hc & Hs).
  rewrite snd_POST_body. unfold POST_steps.
  destruct body; simpl in Ha; try discriminate;
    simpl; rewrite Ha, Hz, Hl, Hc, Hs; reflexivity.
Qed.

(** Every response of [POST] is an error body with a status among 400, 404
    and 500, or the success payload of a resolved request. *)
Lemma POST_outcome env zipData request :
  let r := snd (POST env zipData request) in
  (exists message st,
     r = error_response message st /\ (st = 400 \/ st = 404 \/ st = 500)) \/
  (exists address zipcode info cityS stateS ts,
     resolves zipData request address zipcode info cityS stateS /\
     r = success zipcode info
           (make_searchUrl (toLowerCase cityS) (toLowerCase stateS)) ts /\
     from_completions env ts).
Proof.
  simpl. rewrite snd_POST, snd_POST_body.
  destruct (POST_steps env zipData request) as [r|e] eqn:E; [|left; eauto 6].
  unfold POST_steps in E.
  destruct request as [body|e]; [|discriminate].
  assert (Hb : exists address,
            prop "address" body = VStr address /\
            match extractZipcode address with
            | None =>
                Val (error_response "Could not extract zipcode from address" 400)
            | Some zipcode =>
                match lookupZip zipData zipcode with
                | Throw e => Throw e
                | Val None =>
                    Val (error_response
                           "County information not found for this zipcode" 404)
                | Val (Some info) =>
                    match city info, state_id info with
                    | VStr cityS, VStr stateS =>
                        snd (search_step env zipcode info
                               (make_searchUrl (toLowerCase cityS)
                                  (toLowerCase stateS))
                               (removeZipcode address))
                    | _, _ => Throw (ErrorObj (typeErrorMessage env))
                    end
                end
            end = Val r).
  { destruct body; try discriminate;
      (destruct (prop "address" _) as [| | | |address| |] eqn:Ha;
       try discriminate; exists address; split; [reflexivity | exact E]). }
  clear E. destruct Hb as (address & Ha & E).
  destruct (extractZipcode address) as [zipcode|] eqn:Hz;
    [|injection E as <-; left; eauto 6].
  destruct (lookupZip zipData zipcode) as [[info|]|] eqn:Hl; try discriminate;
    [|injection E as <-; left; eauto 6].
  destruct (city info) as [| | | |cityS| |] eqn:Hc; try discriminate.
  destruct (state_id info) as [| | | |stateS| |] eqn:Hs; try discriminate.
  rewrite snd_search_step in E.
  destruct (tavily_search env _) as [results|]; [|discriminate].
  destruct (select_result _ results) as [cand|];
    [|injection E as <-; left; eauto 6].
  pose proof (completion_yields env zipcode info
                (make_searchUrl (toLowerCase cityS) (toLowerCase stateS))
                (removeZipcode address) cand) as Hy.
  unfold yields in Hy. rewrite E in Hy.
  destruct Hy as [(message & ->)|(ts & -> & Hts)]; [left; eauto 6|].
  right. exists address, zipcode, info, cityS, stateS, ts.
  split; [|split; [reflexivity | assumption]].
  exists body. repeat split; assumption.
Qed.

(* ===================================================================== *)
(** * Facts about the zip directory *)
(* ===================================================================== *)

Lemma fold_add_row_lookup rows : forall (m0 : gmap string ZipInfo) k info,
  fold_left add_row rows m0 !! k = Some info ->
  m0 !! k = Some info \/
  exists row, In row rows /\ row_retained row = true /\
              k = zip_key (field "zip" row) /\ info = row_record row.
Proof.
  induction rows as [|row rows IH]; simpl; intros m0 k info H; [now left|].
  apply IH in H as [H|(row' & Hin & Hr & Hk & Hi)].
  - unfold add_row in H. destruct (row_retained row) eqn:Hr; [|now left].
    destruct (decide (zip_key (field "zip" row) = k)) as [<-|Hne].
    + rewrite lookup_insert_eq in H. injection H as <-. right. exists row. auto.
    + rewrite lookup_insert_ne in H by assumption. now left.
  - right. exists row'. auto.
Qed.

Lemma module_load_lookup file zipcode info :
  lookupZip (module_load file) zipcode = Val (Some info) ->
  exists rows row,
    file = Rows rows /\ In row rows /\ row_retained row = true /\
    zipcode = zip_key (field "zip" row) /\ info = row_record row.
Proof.
  destruct file as [e|rows]; [discriminate|]. unfold module_load. simpl.
  intros H. injection H as H.
  apply fold_add_row_lookup in H as [H|(row & H)].
  - rewrite lookup_empty in H. discriminate.
  - exists rows, row. tauto.
Qed.

Lemma truthy_defined v : truthy v = true -> v <> VUndef.
Proof. intros H ->. discriminate. Qed.

Lemma or_empty_defined v : or_empty v <> VUndef.
Proof.
  unfold or_empty. destruct (truthy v) eqn:E; [now apply truthy_defined | discriminate].
Qed.

Lemma row_retained_inv row :
  row_retained row = true ->
  is_empty (zip_key (field "zip" row)) = false /\
  truthy (field "county_name" row) = true /\
  truthy (field "state_id" row) = true.
Proof.
  unfold row_retained. intros H.
  apply andb_prop in H as [H H3]. apply andb_prop in H as [H1 H2].
  apply negb_true_iff in H1. auto.
Qed.

Lemma checks_from_spec n : forall z0 f,
  checks_from n z0 f = true ->
  forall z, (z0 <= z < z0 + Z.of_nat n)%Z -> f z = true.
Proof.
  induction n as [|n IH]; simpl; intros z0 f H z Hz; [lia|].
  apply andb_prop in H as [Hn H].
  destruct (Z.eq_dec z z0) as [->|Hne]; [assumption|].
  apply (IH _ _ H). lia.
Qed.

(** A numeric cell between 0 and 99999 gives a key of five digits. *)
Lemma zip_key_five z :
  (0 <= z < 100000)%Z -> digits 5 (zip_key (VNum z)) = true.
Proof.
  intros Hz.
  apply (checks_from_spec (Z.to_nat 100000) 0
           (fun z => digits 5 (zip_key (VNum z)))); [|lia].
  vm_compute. reflexivity.
Qed.

(** C3 (as the code has it).  After [initializeZipData] has loaded the rows,
    every key of the map is a non-empty string that is the key of its record
    and comes from a row of the sheet; the record has a truthy (for a string:
    non-empty) [county_name] and [state_id].  The key is padded only when the
    zip cell is a number: for an integer between 0 and 99999 it is a string of
    five digits; a cell of another type is indexed by its string, unchanged. *)
Theorem zip_directory_entries rows m k info :
  initializeZipData None (Rows rows) = (Some m, Val tt) ->
  m !! k = Some info ->
  zip info = k /\ k <> "" /\
  truthy (county_name info) = true /\ truthy (state_id info) = true /\
  exists row,
    In row rows /\ k = zip_key (field "zip" row) /\
    (forall z, field "zip" row = VNum z -> (0 <= z < 100000)%Z ->
               digits 5 k = true) /\
    (forall s, field "zip" row = VStr s -> k = s).
Proof.
  intros Hinit Hk. simpl in Hinit. injection Hinit as <-.
  apply fold_add_row_lookup in Hk as [Hk|(row & Hin & Hr & -> & ->)].
  { rewrite lookup_empty in Hk. discriminate. }
  apply row_retained_inv in Hr as (Hz & Hc & Hs).
  split; [reflexivity|]. split.
  { intros E. rewrite E in Hz. discriminate. }
  split; [assumption|]. split; [assumption|].
  exists row. split; [assumption|]. split; [reflexivity|]. split.
  - intros z -> Hrange. now apply zip_key_five.
  - intros s ->. reflexivity.
Qed.

Lemma zip_directory_entries_witness :
  digits 5 "06824" = true /\ truthy (VStr "Fairfield") = true.
Proof.
  destruct (zip_directory_entries sample_rows
              (fold_left add_row sample_rows ∅) "06824" sample_info)
    as (_ & _ & Hc & _ & row & Hin & Hk & Hz & _).
  - reflexivity.
  - vm_compute. reflexivity.
  - split; [|exact Hc].
    destruct Hin as [<-|[]]. apply (Hz 6824%Z); [reflexivity | lia].
Defined.

(** C3 (as the specification states it) fails: a zip cell that holds the text
    "501" is indexed unchanged, under a key of three characters. *)
Lemma text_zip_not_padded :
  exists m info,
    initializeZipData None (Rows sample_text_rows) = (Some m, Val tt) /\
    m !! "501" = Some info /\ digits 5 "501" = false.
Proof.
  exists (fold_left add_row sample_text_rows ∅), (row_record (hd [] sample_text_rows)).
  split; [reflexivity|]. split; vm_compute; reflexivity.
Qed.

(* ===================================================================== *)
(** * Loading, then serving *)
(* ===================================================================== *)

(** C2 (as the code has it).  The directory is written once, when the route
    module is loaded, and the handler only reads it.  After a load that
    succeeded, [lookupZip] never raises its "not initialized" error.  After a
    load that failed, [zipData] is still [null] and every request with an
    extractable zip code is answered 500 with that error: the handler does
    not initialise the directory, nor wait for it. *)
Theorem lookupZip_after_load :
  (forall rows zipcode,
     exists found, lookupZip (module_load (Rows rows)) zipcode = Val found) /\
  (forall e env body address zipcode,
     prop "address" body = VStr address ->
     extractZipcode address = Some zipcode ->
     snd (serve (Unreadable e) env (Val body))
     = error_response "ZIP database not initialized" 500).
Proof.
  split.
  - intros rows zipcode. unfold module_load. simpl. eauto.
  - intros e env body address zipcode Ha Hz. unfold serve.
    rewrite snd_POST, snd_POST_body. unfold POST_steps.
    destruct body; simpl in Ha; try discriminate.
    simpl. now rewrite Ha, Hz.
Qed.

Lemma lookupZip_after_load_witness :
  snd (serve (Unreadable NonError) (sample_env (Val []) (Val None) (Val None) [])
         (sample_request "8 Lynnbrook Road, 06824"))
  = error_response "ZIP database not initialized" 500.
Proof.
  apply (proj2 lookupZip_after_load NonError _ _ "8 Lynnbrook Road, 06824" "06824").
  - reflexivity.
  - vm_compute. reflexivity.
Defined.

(** C2 (as the specification states it) fails: when the spreadsheet cannot be
    read at load time, the rejection is only logged, [zipData] stays [null],
    and the handler calls [lookupZip], which raises its "not initialized"
    error. *)
Lemma lookupZip_reached_uninitialized :
  module_load (Unreadable (ErrorObj "ENOENT")) = None /\
  lookupZip (module_load (Unreadable (ErrorObj "ENOENT"))) "06824"
  = Throw (ErrorObj "ZIP database not initialized") /\
  serve (Unreadable (ErrorObj "ENOENT"))
        (sample_env (Val [sample_candidate]) (Val (Some "[]")) (Val None)
           [("[]", VArr [])])
        (sample_request "8 Lynnbrook Road, 06824")
  = (["=== Starting Address Processing ==="; "=== Zipcode Extraction ===";
      "=== Fatal Error ==="],
     error_response "ZIP database not initialized" 500).
Proof. repeat split; vm_compute; reflexivity. Qed.

(* ===================================================================== *)
(** * The candidate *)
(* ===================================================================== *)

(** C5 (as the code has it).  When the search returns no result, the request
    ends with the 404 "No property records found" response and no completion
    is asked.  Otherwise the candidate handed to the completion is a result
    of the search: one of the highest score among those whose lower-cased
    content contains the lower-cased search address (the address without its
    zip code), or, when no content contains it, one of the highest score of
    all. *)
Theorem candidate_selection env zipcode info searchUrl searchAddress results :
  tavily_search env (searchAddress +:+ " property sale history transactions")
  = Val results ->
  match select_result searchAddress results with
  | None =>
      results = [] /\
      search_step env zipcode info searchUrl searchAddress
      = (["=== Search URL ==="; "=== Starting Tavily Search ==="],
         Val (error_response "No property records found for this address" 404))
  | Some r =>
      results <> [] /\ In r results /\
      ((mentions searchAddress r = true /\
        forall r', In r' results -> mentions searchAddress r' = true ->
                   (score r' <= score r)%Q)
       \/
       ((forall r', In r' results -> mentions searchAddress r' = false) /\
        forall r', In r' results -> (score r' <= score r)%Q)) /\
      snd (search_step env zipcode info searchUrl searchAddress)
      = snd (completion env zipcode info searchUrl searchAddress r)
  end.
Proof.
  intros Hsearch.
  pose proof (select_result_spec searchAddress results) as Hsel.
  pose proof (snd_search_step env zipcode info searchUrl searchAddress) as Hstep.
  rewrite Hsearch in Hstep.
  destruct (select_result searchAddress results) as [r|] eqn:E.
  - destruct Hsel as (Hin & Hmax).
    split; [intros ->; destruct Hin|]. auto.
  - split; [assumption|]. unfold search_step, bind, log, lift. simpl.
    rewrite Hsearch, E. reflexivity.
Qed.

Lemma candidate_selection_witness :
  In candidate_upper [candidate_upper; candidate_lower] /\
  mentions "8 Lynnbrook Road" candidate_upper = true.
Proof.
  pose proof (candidate_selection
                (sample_env (Val [candidate_upper; candidate_lower])
                   (Val None) (Val None) [])
                "06824" sample_info "" "8 Lynnbrook Road"
                [candidate_upper; candidate_lower] eq_refl) as H.
  assert (E : select_result "8 Lynnbrook Road" [candidate_upper; candidate_lower]
              = Some candidate_upper) by (vm_compute; reflexivity).
  rewrite E in H. destruct H as (_ & Hin & _ & _).
  split; [exact Hin | vm_compute; reflexivity].
Defined.

(** C5 (as the specification states it) fails: only the content of the
    second candidate contains the lower-cased address, and the handler uses
    the first one, because it lower-cases the content before the test. *)
Lemma selection_lower_cases_content :
  spec_mentions "8 Lynnbrook Road" candidate_upper = false /\
  spec_mentions "8 Lynnbrook Road" candidate_lower = true /\
  spec_select_result "8 Lynnbrook Road" [candidate_upper; candidate_lower]
  = Some candidate_lower /\
  select_result "8 Lynnbrook Road" [candidate_upper; candidate_lower]
  = Some candidate_upper.
Proof. repeat split; vm_compute; reflexivity. Qed.

(* ===================================================================== *)
(** * The "Type 3" branch *)
(* ===================================================================== *)

Lemma quiet_ret {A} (a : A) : quiet (ret a).
Proof. intros []. Qed.

Lemma quiet_throw {A} e : quiet (@throw A e).
Proof. intros []. Qed.

Lemma quiet_lift {A} (r : result A) : quiet (lift r).
Proof. intros []. Qed.

Lemma quiet_log banner : banner <> type3_banner -> quiet (log banner).
Proof. intros H [E|[]]. contradiction. Qed.

Lemma quiet_bind {A B} (m : M A) (f : A -> M B) :
  quiet m -> (forall a, quiet (f a)) -> quiet (bind m f).
Proof.
  unfold quiet. intros Hm Hf. rewrite fst_bind.
  destruct (snd m) as [a|e]; [|assumption].
  rewrite in_app_iff. intros [H|H]; [now apply Hm | now apply (Hf a)].
Qed.

Lemma quiet_try_catch {A} (m : M A) (h : thrown -> M A) :
  quiet m -> (forall e, quiet (h e)) -> quiet (try_catch m h).
Proof.
  unfold quiet. intros Hm Hh. rewrite fst_try_catch.
  destruct (snd m) as [a|e]; [assumption|].
  rewrite in_app_iff. intros [H|H]; [now apply Hm | now apply (Hh e)].
Qed.

Ltac quiet_step :=
  first
    [ apply quiet_ret | apply quiet_throw | apply quiet_lift
    | apply quiet_log; discriminate
    | apply quiet_bind; [|intros ?]
    | apply quiet_try_catch; [|intros ?] ].

Ltac quiet_case :=
  match goal with
  | |- quiet (match ?x with _ => _ end) => destruct x
  | |- quiet (if ?c then _ else _) => destruct c
  | |- quiet (typeError _) => unfold typeError
  | |- quiet (toLowerCase_of _ _) => unfold toLowerCase_of
  end.

Ltac quiet_auto := repeat (quiet_step || quiet_case).

Section Quiet.
Variable env : Env.
Variables (zipcode : string) (info : ZipInfo) (searchUrl searchAddress : string).

Lemma quiet_second_pass analysed :
  quiet (second_pass env zipcode info searchUrl analysed).
Proof. unfold second_pass. quiet_auto. Qed.

Lemma quiet_find_matching items :
  quiet (find_matching env searchAddress items).
Proof.
  induction items as [|item items IH]; simpl; [quiet_step|].
  destruct item; try (unfold typeError; quiet_step);
    (destruct (negb _); [exact IH|]);
    (destruct (prop "address" _); try (unfold typeError; quiet_step));
    (destruct (String.eqb _ _); [quiet_step | exact IH]).
Qed.

Lemma quiet_type2_branch parsedData :
  quiet (type2_branch env zipcode info searchUrl searchAddress parsedData).
Proof.
  unfold type2_branch. quiet_step; [quiet_step|].
  quiet_step; [apply quiet_find_matching|].
  quiet_case; [quiet_step|]. quiet_step; [quiet_step|].
  quiet_step; [quiet_step|].
  quiet_case; [quiet_step|]. quiet_case; [quiet_step | apply quiet_second_pass].
Qed.

Lemma quiet_no_valid_type : quiet (no_valid_type zipcode info searchUrl).
Proof. unfold no_valid_type. quiet_auto. Qed.

Lemma quiet_dispatch parsedData :
  quiet (dispatch env zipcode info searchUrl searchAddress parsedData).
Proof.
  unfold dispatch.
  destruct parsedData as [| | | | |[|first rest]|]; try apply quiet_no_valid_type.
  fold (tag_of first). quiet_step; [quiet_step|].
  destruct (is_str "Type 1" (tag_of first)); [quiet_auto|].
  destruct (is_str "Type 3" (tag_of first)) eqn:E3.
  - rewrite orb_true_r. apply quiet_type2_branch.
  - rewrite orb_false_r.
    destruct (is_str "Type 2" (tag_of first));
      [apply quiet_type2_branch | apply quiet_no_valid_type].
Qed.

Lemma quiet_after_parse resultToUse parsedData :
  quiet (after_parse env zipcode info searchUrl searchAddress resultToUse
           parsedData).
Proof.
  unfold after_parse. quiet_step; [quiet_step|].
  quiet_step; [quiet_auto | apply quiet_dispatch].
Qed.

Lemma quiet_completion resultToUse :
  quiet (completion env zipcode info searchUrl searchAddress resultToUse).
Proof.
  unfold completion. quiet_step; [|quiet_auto].
  quiet_step; [quiet_step|]. quiet_step; [quiet_step|].
  quiet_step; [quiet_step|].
  quiet_case; [|quiet_step]. quiet_case; [quiet_step|].
  quiet_step; [|quiet_auto].
  quiet_step; [quiet_step | apply quiet_after_parse].
Qed.
End Quiet.

Lemma quiet_search_step env zipcode info searchUrl searchAddress :
  quiet (search_step env zipcode info searchUrl searchAddress).
Proof.
  unfold search_step.
  repeat (apply quiet_completion || quiet_step || quiet_case).
Qed.

Lemma quiet_POST_body env zipData request :
  quiet (POST_body env zipData request).
Proof.
  unfold POST_body.
  repeat (apply quiet_search_step || quiet_step || quiet_case).
Qed.

(** C4.  On a first-pass result whose leading tag is "Type 3" the handler
    runs the branch that it runs for the tag "Type 2" (the address match, the
    extract call, the second completion), and no request ever logs the banner
    of the later "Type 3" branch: that branch is unreachable. *)
Theorem type3_runs_type2_branch env zipcode info searchUrl searchAddress :
  (forall first rest,
     is_str "Type 3" (tag_of first) = true ->
     dispatch env zipcode info searchUrl searchAddress (VArr (first :: rest))
     = bind (log "=== Response Type ===") (fun _ =>
         type2_branch env zipcode info searchUrl searchAddress (first :: rest))) /\
  (forall first rest,
     is_str "Type 2" (tag_of first) = true ->
     dispatch env zipcode info searchUrl searchAddress (VArr (first :: rest))
     = bind (log "=== Response Type ===") (fun _ =>
         type2_branch env zipcode info searchUrl searchAddress (first :: rest))) /\
  (forall zipData request,
     ~ In "=== Processing Type 3 Response ===" (fst (POST env zipData request))).
Proof.
  assert (Htag : forall tag first,
            is_str tag (tag_of first) = true -> tag <> "Type 1" ->
            is_str "Type 1" (tag_of first) = false).
  { intros tag first H Hne. unfold is_str in *.
    destruct (tag_of first); try reflexivity.
    apply String.eqb_eq in H. subst. now apply String.eqb_neq. }
  split; [|split].
  - intros first rest H. unfold dispatch. fold (tag_of first).
    rewrite (Htag "Type 3" first H) by discriminate.
    rewrite H, orb_true_r. reflexivity.
  - intros first rest H. unfold dispatch. fold (tag_of first).
    rewrite (Htag "Type 2" first H) by discriminate.
    rewrite H. reflexivity.
  - intros zipData request.
    pose proof (quiet_POST_body env zipData request) as Hq. unfold quiet in Hq.
    unfold POST, catch_all.
    destruct (POST_body env zipData request) as [l [r|e]]; simpl in *;
      [exact Hq|].
    rewrite in_app_iff. intros [H|[H|[]]]; [now apply Hq | discriminate].
Qed.

Lemma type3_runs_type2_branch_witness :
  dispatch (sample_env (Val []) (Val None) (Val None) []) "06824" sample_info
    "https://gis.vgsi.com/fairfieldct/search.aspx" "8 Lynnbrook Road"
    (VArr [VObj [("type", VStr "Type 3")];
           VObj [("address", VStr "8 LYNNBROOK RD");
                 ("link", VStr "https://gis.vgsi.com/fairfieldct/Parcel.aspx?pid=2271")]])
  = bind (log "=== Response Type ===") (fun _ =>
      type2_branch (sample_env (Val []) (Val None) (Val None) []) "06824"
        sample_info "https://gis.vgsi.com/fairfieldct/search.aspx"
        "8 Lynnbrook Road"
        [VObj [("type", VStr "Type 3")];
         VObj [("address", VStr "8 LYNNBROOK RD");
               ("link", VStr "https://gis.vgsi.com/fairfieldct/Parcel.aspx?pid=2271")]]).
Proof.
  apply (proj1 (type3_runs_type2_branch _ _ _ _ _)). reflexivity.
Defined.

(* ===================================================================== *)
(** * The statuses *)
(* ===================================================================== *)

Ltac step_binds_in H :=
  simpl in H;
  repeat (rewrite snd_bind in H;
          unfold toLowerCase_of, typeError, throw, ret, lift, log in H;
          simpl in H).

Lemma status_error_response message st : status (error_response message st) = st.
Proof. reflexivity. Qed.

Lemma body_error_response message st :
  body (error_response message st) = VObj [("error", VStr message)].
Proof. reflexivity. Qed.

Lemma status_success zipcode info searchUrl ts :
  status (success zipcode info searchUrl ts) = 200.
Proof. reflexivity. Qed.

(** The response when the request reaches the completion stage. *)
Lemma snd_POST_completion env zipData request address zipcode info cityS stateS
    results cand :
  resolves zipData request address zipcode info cityS stateS ->
  tavily_search env (removeZipcode address +:+ " property sale history transactions")
  = Val results ->
  select_result (removeZipcode address) results = Some cand ->
  Val (snd (POST env zipData request))
  = snd (completion env zipcode info
           (make_searchUrl (toLowerCase cityS) (toLowerCase stateS))
           (removeZipcode address) cand).
Proof.
  intros Hres Hsearch Hsel.
  rewrite snd_POST, (snd_POST_body_resolved _ _ _ _ _ _ _ _ Hres).
  rewrite snd_search_step, Hsearch, Hsel.
  destruct (completion_returns env zipcode info
              (make_searchUrl (toLowerCase cityS) (toLowerCase stateS))
              (removeZipcode address) cand) as [resp ->].
  reflexivity.
Qed.

(** The response when the first completion has answered a text that
    [JSON.parse] reads. *)
Lemma POST_first_answer env zipData request zipcode info searchUrl searchAddress
    cand parsedData :
  first_answer env zipData request zipcode info searchUrl searchAddress cand
    parsedData ->
  snd (POST env zipData request)
  = inner_try (after_parse env zipcode info searchUrl searchAddress cand parsedData).
Proof.
  intros (address & cityS & stateS & results & c & Hres & -> & -> & Hsearch & Hsel
          & Hfirst & Hne & Hparse).
  pose proof (snd_POST_completion env _ _ _ _ _ _ _ _ _ Hres Hsearch Hsel) as Hc.
  unfold completion in Hc. rewrite snd_try_catch in Hc.
  rewrite snd_bind in Hc. simpl in Hc. rewrite snd_bind in Hc.
  unfold lift in Hc at 1. simpl in Hc. rewrite Hfirst in Hc.
  rewrite snd_bind in Hc. simpl in Hc. rewrite Hne in Hc.
  rewrite snd_try_catch, snd_bind in Hc. unfold lift in Hc. simpl in Hc.
  rewrite Hparse in Hc. unfold inner_try.
  destruct (snd (after_parse _ _ _ _ _ _ _)) as [r|e].
  - now injection Hc.
  - step_binds_in Hc. now injection Hc.
Qed.

Lemma snd_after_parse_dispatched env zipcode info searchUrl searchAddress cand
    parsedData :
  snd (after_parse env zipcode info searchUrl searchAddress cand parsedData)
  = snd (dispatch env zipcode info searchUrl searchAddress
           (dispatched searchAddress cand parsedData)).
Proof.
  unfold after_parse, dispatched. rewrite snd_bind. simpl. rewrite snd_bind.
  destruct parsedData as [| | | | |[|first rest]|]; try reflexivity.
  destruct (rawContent cand) as [raw|]; [|reflexivity].
  destruct (is_empty raw); [reflexivity|].
  rewrite snd_bind. reflexivity.
Qed.

Lemma snd_dispatch_type2 env zipcode info searchUrl searchAddress first rest :
  is_str "Type 2" (tag_of first) = true \/ is_str "Type 3" (tag_of first) = true ->
  snd (dispatch env zipcode info searchUrl searchAddress (VArr (first :: rest)))
  = snd (type2_branch env zipcode info searchUrl searchAddress (first :: rest)).
Proof.
  intros Htag. unfold dispatch. fold (tag_of first). rewrite snd_bind. simpl.
  assert (H1 : is_str "Type 1" (tag_of first) = false).
  { unfold is_str in *. destruct (tag_of first); try reflexivity.
    apply String.eqb_neq. intros ->. destruct Htag; discriminate. }
  assert (H23 : is_str "Type 2" (tag_of first) || is_str "Type 3" (tag_of first)
                = true).
  { destruct Htag as [-> | ->]; [reflexivity | apply orb_true_r]. }
  rewrite H1, H23. reflexivity.
Qed.

(** The second pass raises exactly when the second completion fails. *)
Lemma second_pass_outcome env zipcode info searchUrl analysed :
  (second_failure env analysed /\
   exists e, snd (second_pass env zipcode info searchUrl analysed) = Throw e) \/
  (~ second_failure env analysed /\
   exists ts, snd (second_pass env zipcode info searchUrl analysed)
              = Val (success zipcode info searchUrl ts)).
Proof.
  unfold second_pass, second_failure. rewrite snd_bind. simpl.
  rewrite snd_bind. unfold lift at 1. simpl.
  destruct (ai_second env analysed) as [[c|]|e]; simpl.
  - destruct (is_empty c) eqn:Hc; simpl.
    + left. split; [now left | eauto].
    + rewrite snd_bind. simpl. rewrite snd_bind. unfold lift. simpl.
      destruct (JSON_parse env c) as [v|e] eqn:Hv; simpl.
      * right. split; [intros [H|[e H]]; discriminate|].
        destruct v as [| | | | |[|t ts]|]; eexists; reflexivity.
      * left. split; [right|]; eauto.
  - left. split; [exact I | eauto].
  - left. split; [exact I | eauto].
Qed.

(** The "Type 2" branch raises exactly when one of its steps fails. *)
Lemma type2_branch_outcome env zipcode info searchUrl searchAddress items :
  (type2_failure env searchAddress items /\
   exists e, snd (type2_branch env zipcode info searchUrl searchAddress items)
             = Throw e) \/
  (~ type2_failure env searchAddress items /\
   exists ts, snd (type2_branch env zipcode info searchUrl searchAddress items)
              = Val (success zipcode info searchUrl ts)).
Proof.
  unfold type2_branch, type2_failure. rewrite snd_bind. simpl. rewrite snd_bind.
  destruct (snd (find_matching env searchAddress items)) as [found|e]; simpl.
  2:{ left. split; [exact I | eauto]. }
  fold (link_of found).
  destruct (truthy (link_of found)) eqn:Hl; simpl.
  2:{ left. split; [now left | eauto]. }
  rewrite snd_bind. simpl. rewrite snd_bind. unfold lift. simpl.
  destruct (tavily_extract env (link_of found)) as [[|x more]|e]; simpl.
  - left. split; [now right | eauto].
  - destruct (is_empty (extract_rawContent x)) eqn:Hx; simpl.
    + left. split; [right; now left | eauto].
    + destruct (second_pass_outcome env zipcode info searchUrl
                  (extract_rawContent x)) as [(Hf & e & He)|(Hf & ts & Hts)].
      * left. split; [right; now right | eauto].
      * right. split; [|eauto].
        intros [H|[H|H]]; [discriminate | discriminate | now apply Hf].
  - left. split; [now right | eauto].
Qed.

(** The response of a request whose first answer, as the dispatch reads it,
    is tagged "Type 2" or "Type 3". *)
Lemma type2_response env zipData request zipcode info searchUrl searchAddress
    cand parsedData first rest :
  first_answer env zipData request zipcode info searchUrl searchAddress cand
    parsedData ->
  dispatched searchAddress cand parsedData = VArr (first :: rest) ->
  is_str "Type 2" (tag_of first) = true \/ is_str "Type 3" (tag_of first) = true ->
  (type2_failure env searchAddress (first :: rest) /\
   snd (POST env zipData request)
   = error_response "Failed to parse AI response as JSON" 500) \/
  (~ type2_failure env searchAddress (first :: rest) /\
   exists ts, snd (POST env zipData request) = success zipcode info searchUrl ts).
Proof.
  intros Hfa Hd Htag. rewrite (POST_first_answer _ _ _ _ _ _ _ _ _ Hfa).
  unfold inner_try. rewrite snd_after_parse_dispatched, Hd.
  rewrite (snd_dispatch_type2 _ _ _ _ _ _ _ Htag).
  destruct (type2_branch_outcome env zipcode info searchUrl searchAddress
              (first :: rest)) as [(Hf & e & ->)|(Hf & ts & ->)].
  - left. now split.
  - right. split; [assumption | eauto].
Qed.

(** C6 (as the code has it).  For a request whose body carries a string
    [address], the response is 400 when no zip code can be extracted from the
    address; 404 with "County information not found for this zipcode" when the
    zip code is absent from the directory; 404 when the search yields no
    candidate; 500 when the search, a completion, [JSON.parse] or a later step
    fails; in particular, every failure of the "Type 2" branch, the second
    completion included, is answered 500 with "Failed to parse AI response as
    JSON".  A request whose body cannot be read, is [null], or carries no
    string [address] is answered 500 as well, not 400; so is a request met by
    a directory that is not loaded or whose record has no string for the city
    or the state code.  The status is always one of 200, 400, 404 and 500,
    and the body of every response other than 200 is exactly
    [{ error: message }]. *)
Theorem POST_status env zipData request :
  let r := snd (POST env zipData request) in
  (forall body address,
     request = Val body -> prop "address" body = VStr address ->
     extractZipcode address = None ->
     r = error_response "Could not extract zipcode from address" 400) /\
  (forall body address zipcode m,
     request = Val body -> prop "address" body = VStr address ->
     extractZipcode address = Some zipcode ->
     zipData = Some m -> m !! zipcode = None ->
     r = error_response "County information not found for this zipcode" 404) /\
  (forall address zipcode info cityS stateS,
     resolves zipData request address zipcode info cityS stateS ->
     let searchAddress := removeZipcode address in
     let query := searchAddress +:+ " property sale history transactions" in
     let searchUrl := make_searchUrl (toLowerCase cityS) (toLowerCase stateS) in
     (tavily_search env query = Val [] ->
      r = error_response "No property records found for this address" 404) /\
     (forall e, tavily_search env query = Throw e ->
                r = error_response (errorMessage e) 500) /\
     (forall results cand,
        tavily_search env query = Val results ->
        select_result searchAddress results = Some cand ->
        (forall e, ai_first env searchAddress cand = Throw e ->
                   r = error_response (errorMessage e) 500) /\
        (forall c, ai_first env searchAddress cand = Val c -> absent c = true ->
                   r = error_response "No content received from AI model" 500) /\
        (forall c e,
           ai_first env searchAddress cand = Val (Some c) -> is_empty c = false ->
           JSON_parse env c = Throw e ->
           r = error_response "Failed to parse AI response as JSON" 500) /\
        (forall c parsedData e,
           ai_first env searchAddress cand = Val (Some c) -> is_empty c = false ->
           JSON_parse env c = Val parsedData ->
           snd (after_parse env zipcode info searchUrl searchAddress cand
                  parsedData) = Throw e ->
           r = error_response "Failed to parse AI response as JSON" 500))) /\
  ((status r = 200 \/ status r = 400 \/ status r = 404 \/ status r = 500) /\
   (status r <> 200 -> exists message, body r = VObj [("error", VStr message)])) /\
  (forall e, request = Throw e -> r = error_response (errorMessage e) 500) /\
  (forall body,
     request = Val body -> (forall address, prop "address" body <> VStr address) ->
     r = error_response (typeErrorMessage env) 500) /\
  (forall body address zipcode,
     request = Val body -> prop "address" body = VStr address ->
     extractZipcode address = Some zipcode ->
     (zipData = None ->
      r = error_response "ZIP database not initialized" 500) /\
     (forall info,
        lookupZip zipData zipcode = Val (Some info) ->
        (forall cityS stateS,
           ~ (city info = VStr cityS /\ state_id info = VStr stateS)) ->
        r = error_response (typeErrorMessage env) 500)) /\
  (forall zipcode info searchUrl searchAddress cand parsedData first rest,
     first_answer env zipData request zipcode info searchUrl searchAddress cand
       parsedData ->
     dispatched searchAddress cand parsedData = VArr (first :: rest) ->
     is_str "Type 2" (tag_of first) = true \/
     is_str "Type 3" (tag_of first) = true ->
     type2_failure env searchAddress (first :: rest) ->
     r = error_response "Failed to parse AI response as JSON" 500).
Proof.
  cbv zeta. split; [|split; [|split; [|split; [|split; [|split; [|split]]]]]].
  - intros body address -> Ha Hz. rewrite snd_POST, snd_POST_body.
    unfold POST_steps. destruct body; simpl in Ha; try discriminate.
    simpl. now rewrite Ha, Hz.
  - intros body address zipcode m -> Ha Hz -> Hm. rewrite snd_POST, snd_POST_body.
    unfold POST_steps. destruct body; simpl in Ha; try discriminate.
    simpl. now rewrite Ha, Hz, Hm.
  - intros address zipcode info cityS stateS Hres. split; [|split].
    + intros Hs. rewrite snd_POST, (snd_POST_body_resolved _ _ _ _ _ _ _ _ Hres).
      rewrite snd_search_step, Hs. reflexivity.
    + intros e Hs. rewrite snd_POST, (snd_POST_body_resolved _ _ _ _ _ _ _ _ Hres).
      rewrite snd_search_step, Hs. reflexivity.
    + intros results cand Hs Hsel.
      pose proof (snd_POST_completion env _ _ _ _ _ _ _ _ _ Hres Hs Hsel) as Hc.
      unfold completion in Hc. rewrite snd_try_catch in Hc.
      rewrite snd_bind in Hc. simpl in Hc. rewrite snd_bind in Hc.
      unfold lift in Hc at 1. simpl in Hc.
      split; [|split; [|split]].
      * intros e He. rewrite He in Hc. step_binds_in Hc. now injection Hc.
      * intros c He Habs. rewrite He in Hc. rewrite snd_bind in Hc. simpl in Hc.
        destruct c as [c|]; [simpl in Habs; rewrite Habs in Hc|];
          step_binds_in Hc; now injection Hc.
      * intros c e He Hne Hp. rewrite He in Hc. rewrite snd_bind in Hc.
        simpl in Hc. rewrite Hne in Hc. rewrite snd_try_catch, snd_bind in Hc.
        unfold lift in Hc. simpl in Hc. rewrite Hp in Hc.
        step_binds_in Hc. now injection Hc.
      * intros c parsedData e He Hne Hp Ha. rewrite He in Hc.
        rewrite snd_bind in Hc. simpl in Hc. rewrite Hne in Hc.
        rewrite snd_try_catch, snd_bind in Hc.
        unfold lift in Hc. simpl in Hc. rewrite Hp, Ha in Hc.
        step_binds_in Hc. now injection Hc.
  - destruct (POST_outcome env zipData request)
      as [(message & st & -> & Hst)|(a & z & i & c & s & ts & _ & -> & _)].
    + rewrite status_error_response, body_error_response. split; [tauto | eauto].
    + rewrite status_success. split; [tauto | congruence].
  - intros e ->. now rewrite snd_POST, snd_POST_body.
  - intros body -> Hb. rewrite snd_POST, snd_POST_body. unfold POST_steps.
    destruct body; try reflexivity;
      (destruct (prop "address" _) eqn:E; try reflexivity; now destruct (Hb s)).
  - intros body address zipcode -> Ha Hz. split.
    + intros ->. rewrite snd_POST, snd_POST_body. unfold POST_steps.
      destruct body; simpl in Ha; try discriminate.
      simpl. now rewrite Ha, Hz.
    + intros info Hl Hn. rewrite snd_POST, snd_POST_body. unfold POST_steps.
      destruct body; simpl in Ha; try discriminate.
      simpl. rewrite Ha, Hz, Hl.
      destruct (city info) eqn:Ec; try reflexivity.
      destruct (state_id info) eqn:Es; try reflexivity.
      destruct (Hn s s0). auto.
  - intros zipcode info searchUrl searchAddress cand parsedData first rest
           Hfa Hd Htag Hfail.
    destruct (type2_response _ _ _ _ _ _ _ _ _ _ _ Hfa Hd Htag)
      as [(_ & H)|(Hn & _)]; [exact H | contradiction].
Qed.

Lemma sample_resolves :
  resolves (module_load (Rows sample_rows))
    (sample_request "8 Lynnbrook Road, 06824")
    "8 Lynnbrook Road, 06824" "06824" sample_info "Fairfield" "CT".
Proof.
  exists (VObj [("address", VStr "8 Lynnbrook Road, 06824")]).
  repeat split; vm_compute; reflexivity.
Defined.

Lemma sample_first_answer cand c v second known :
  is_empty c = false -> sample_parse known c = Val v ->
  first_answer (sample_env (Val [cand]) (Val (Some c)) second known)
    (module_load (Rows sample_rows)) (sample_request "8 Lynnbrook Road, 06824")
    "06824" sample_info
    (make_searchUrl (toLowerCase "Fairfield") (toLowerCase "CT"))
    (removeZipcode "8 Lynnbrook Road, 06824") cand v.
Proof.
  intros Hc Hv.
  exists "8 Lynnbrook Road, 06824", "Fairfield", "CT", [cand], c.
  split; [exact sample_resolves|]. split; [reflexivity|]. split; [reflexivity|].
  split; [reflexivity|]. split; [|split; [reflexivity|split; assumption]].
  unfold select_result. simpl.
  destruct (mentions (removeZipcode "8 Lynnbrook Road, 06824") cand); reflexivity.
Defined.

Lemma POST_status_witness :
  snd (POST (sample_env (Val []) (Val None) (Val None) [])
         (module_load (Rows sample_rows)) (sample_request "8 Lynnbrook Road"))
  = error_response "Could not extract zipcode from address" 400 /\
  snd (POST (sample_env (Val []) (Val None) (Val None) [])
         (module_load (Rows sample_rows))
         (sample_request "8 Lynnbrook Road, 06825"))
  = error_response "County information not found for this zipcode" 404 /\
  snd (POST (sample_env (Val []) (Val None) (Val None) [])
         (module_load (Rows sample_rows))
         (sample_request "8 Lynnbrook Road, 06824"))
  = error_response "No property records found for this address" 404 /\
  snd (POST (sample_env (Throw (ErrorObj "fetch failed")) (Val None) (Val None) [])
         (module_load (Rows sample_rows))
         (sample_request "8 Lynnbrook Road, 06824"))
  = error_response "fetch failed" 500 /\
  snd (POST (sample_env (Val [sample_candidate]) (Val (Some "not json"))
               (Val None) [])
         (module_load (Rows sample_rows))
         (sample_request "8 Lynnbrook Road, 06824"))
  = error_response "Failed to parse AI response as JSON" 500 /\
  snd (POST (sample_env (Val [sample_candidate]) (Val (Some "other link"))
               (Val None)
               [("other link",
                 VArr [VObj [("type", VStr "Type 2")];
                       VObj [("address", VStr "1 OTHER STREET");
                             ("link", VStr "https://gis.vgsi.com/fairfieldct/Parcel.aspx?pid=1")]])])
         (module_load (Rows sample_rows))
         (sample_request "8 Lynnbrook Road, 06824"))
  = error_response "Failed to parse AI response as JSON" 500 /\
  snd (POST (sample_env (Val [sample_candidate]) (Val (Some "type 2"))
               (Throw (ErrorObj "429 Too Many Requests"))
               [("type 2", VArr sample_type2)])
         (module_load (Rows sample_rows))
         (sample_request "8 Lynnbrook Road, 06824"))
  = error_response "Failed to parse AI response as JSON" 500 /\
  snd (POST (sample_env (Val [sample_candidate]) (Val (Some "type 2"))
               (Val (Some "not json"))
               [("type 2", VArr sample_type2)])
         (module_load (Rows sample_rows))
         (sample_request "8 Lynnbrook Road, 06824"))
  = error_response "Failed to parse AI response as JSON" 500 /\
  snd (POST (sample_env (Val []) (Val None) (Val None) [])
         (module_load (Rows sample_rows)) (Throw (ErrorObj "Unexpected end of JSON input")))
  = error_response "Unexpected end of JSON input" 500 /\
  snd (POST (sample_env (Val []) (Val None) (Val None) [])
         (module_load (Rows sample_rows)) (Val (VObj [("address", VNum 6824)])))
  = error_response "TypeError" 500 /\
  snd (POST (sample_env (Val []) (Val None) (Val None) [])
         (module_load (Unreadable (ErrorObj "ENOENT")))
         (sample_request "8 Lynnbrook Road, 06824"))
  = error_response "ZIP database not initialized" 500.
Proof.
  split; [|split; [|split; [|split; [|split; [|split; [|split; [|split;
    [|split; [|split]]]]]]]]].
  - refine (proj1 (POST_status _ _ _) _ "8 Lynnbrook Road" eq_refl _ _);
      vm_compute; reflexivity.
  - refine (proj1 (proj2 (POST_status _ _ _)) _ "8 Lynnbrook Road, 06825" "06825"
              (fold_left add_row sample_rows ∅) eq_refl _ _ eq_refl _);
      vm_compute; reflexivity.
  - refine (proj1 (proj1 (proj2 (proj2 (POST_status _ _ _)))
                     _ _ _ _ _ sample_resolves) _).
    reflexivity.
  - refine (proj1 (proj2 (proj1 (proj2 (proj2 (POST_status _ _ _)))
                            _ _ _ _ _ sample_resolves))
              (ErrorObj "fetch failed") _).
    reflexivity.
  - pose proof (POST_status
                  (sample_env (Val [sample_candidate]) (Val (Some "not json"))
                     (Val None) [])
                  (module_load (Rows sample_rows))
                  (sample_request "8 Lynnbrook Road, 06824")) as (_ & _ & H & _).
    destruct (H _ _ _ _ _ sample_resolves) as (_ & _ & H').
    destruct (H' [sample_candidate] sample_candidate eq_refl)
      as (_ & _ & Hparse & _).
    + vm_compute. reflexivity.
    + apply (Hparse "not json" (ErrorObj "Unexpected token"));
        vm_compute; reflexivity.
  - pose proof (POST_status
                  (sample_env (Val [sample_candidate]) (Val (Some "other link"))
                     (Val None)
                     [("other link",
                       VArr [VObj [("type", VStr "Type 2")];
                             VObj [("address", VStr "1 OTHER STREET");
                                   ("link", VStr "https://gis.vgsi.com/fairfieldct/Parcel.aspx?pid=1")]])])
                  (module_load (Rows sample_rows))
                  (sample_request "8 Lynnbrook Road, 06824")) as (_ & _ & H & _).
    destruct (H _ _ _ _ _ sample_resolves) as (_ & _ & H').
    destruct (H' [sample_candidate] sample_candidate eq_refl)
      as (_ & _ & _ & Hlater).
    + vm_compute. reflexivity.
    + eapply (Hlater "other link" _
                (ErrorObj "No matching link found for the search address")).
      * vm_compute. reflexivity.
      * vm_compute. reflexivity.
      * vm_compute. reflexivity.
      * vm_compute. reflexivity.
  - pose proof (POST_status
                  (sample_env (Val [sample_candidate]) (Val (Some "type 2"))
                     (Throw (ErrorObj "429 Too Many Requests"))
                     [("type 2", VArr sample_type2)])
                  (module_load (Rows sample_rows))
                  (sample_request "8 Lynnbrook Road, 06824"))
      as (_ & _ & _ & _ & _ & _ & _ & H).
    apply (H _ _ _ _ _ _ _ _
             (sample_first_answer sample_candidate "type 2" (VArr sample_type2)
                (Throw (ErrorObj "429 Too Many Requests"))
                [("type 2", VArr sample_type2)] eq_refl eq_refl) eq_refl).
    + left. reflexivity.
    + vm_compute. right. right. exact I.
  - pose proof (POST_status
                  (sample_env (Val [sample_candidate]) (Val (Some "type 2"))
                     (Val (Some "not json"))
                     [("type 2", VArr sample_type2)])
                  (module_load (Rows sample_rows))
                  (sample_request "8 Lynnbrook Road, 06824"))
      as (_ & _ & _ & _ & _ & _ & _ & H).
    apply (H _ _ _ _ _ _ _ _
             (sample_first_answer sample_candidate "type 2" (VArr sample_type2)
                (Val (Some "not json"))
                [("type 2", VArr sample_type2)] eq_refl eq_refl) eq_refl).
    + left. reflexivity.
    + vm_compute. right. right. right.
      exists (ErrorObj "Unexpected token"). reflexivity.
  - refine (proj1 (proj2 (proj2 (proj2 (proj2 (POST_status _ _ _)))))
              (ErrorObj "Unexpected end of JSON input") eq_refl).
  - refine (proj1 (proj2 (proj2 (proj2 (proj2 (proj2 (POST_status _ _ _))))))
              _ eq_refl _).
    intros address. discriminate.
  - refine (proj1 (proj1 (proj2 (proj2 (proj2 (proj2 (proj2 (proj2
                     (POST_status _ _ _)))))))
                     _ "8 Lynnbrook Road, 06824" "06824" eq_refl _ _) _).
    + reflexivity.
    + vm_compute. reflexivity.
    + reflexivity.
Defined.

(** C6 (as the specification states it) fails: no zip code can be extracted
    from the address of a request that carries none, or a number, and the
    response is 500, not 400. *)
Lemma missing_address_is_500 :
  status (snd (POST (sample_env (Val []) (Val None) (Val None) [])
                 (module_load (Rows sample_rows)) (Val (VObj []))))
  = 500 /\
  snd (POST (sample_env (Val []) (Val None) (Val None) [])
         (module_load (Rows sample_rows)) (Val (VObj [])))
  = error_response "TypeError" 500 /\
  snd (POST (sample_env (Val []) (Val None) (Val None) [])
         (module_load (Rows sample_rows)) (Val (VObj [("address", VNum 6824)])))
  = error_response "TypeError" 500.
Proof. split; [|split]; vm_compute; reflexivity. Qed.

(* ===================================================================== *)
(** * The success payload *)
(* ===================================================================== *)

Lemma body_success zipcode info cityS stateS searchUrl ts :
  city info = VStr cityS -> state_id info = VStr stateS ->
  county_name info <> VUndef -> state_name info <> VUndef ->
  body (success zipcode info searchUrl ts)
  = VObj [("zipcode", VStr zipcode); ("city", VStr cityS);
          ("county", county_name info); ("state", state_name info);
          ("state_id", VStr stateS); ("county_fips", VStr (county_fips info));
          ("searchUrl", VStr searchUrl); ("transactions", VArr ts)].
Proof.
  intros Hc Hs Hcn Hsn. unfold success, NextResponse_json. simpl.
  rewrite Hc, Hs.
  destruct (county_name info); try congruence;
    destruct (state_name info); try congruence; reflexivity.
Qed.

Lemma prop_success key zipcode info cityS stateS searchUrl ts :
  city info = VStr cityS -> state_id info = VStr stateS ->
  key = "searchUrl" \/ key = "transactions" ->
  prop key (body (success zipcode info searchUrl ts))
  = if String.eqb key "searchUrl" then VStr searchUrl else VArr ts.
Proof.
  intros Hc Hs Hk. unfold success, NextResponse_json. simpl. rewrite Hc, Hs.
  destruct Hk as [-> | ->];
    destruct (county_name info); destruct (state_name info); reflexivity.
Qed.

Lemma resolves_functional zipData request a z i c s a' z' i' c' s' :
  resolves zipData request a z i c s -> resolves zipData request a' z' i' c' s' ->
  a = a' /\ z = z' /\ i = i' /\ c = c' /\ s = s'.
Proof.
  intros (b & -> & Ha & Hz & Hl & Hc & Hs) (b' & Hb & Ha' & Hz' & Hl' & Hc' & Hs').
  injection Hb as <-. rewrite Ha in Ha'. injection Ha' as <-.
  rewrite Hz in Hz'. injection Hz' as <-.
  rewrite Hl in Hl'. injection Hl' as <-.
  rewrite Hc in Hc'. injection Hc' as <-.
  rewrite Hs in Hs'. injection Hs' as <-. auto.
Qed.

(** C7.  A 200 response is produced only when the zip code of the address
    has been found in the directory; its body has all of [zipcode], [city],
    [county], [state], [state_id], [county_fips] and [searchUrl], taken from
    that record, whatever the transactions; and its transactions are the
    empty list or items read in the answer of a completion. *)
Theorem success_has_location env file request :
  status (snd (serve file env request)) = 200 ->
  exists address zipcode info cityS stateS ts,
    resolves (module_load file) request address zipcode info cityS stateS /\
    body (snd (serve file env request))
    = VObj [("zipcode", VStr zipcode); ("city", VStr cityS);
            ("county", county_name info); ("state", state_name info);
            ("state_id", VStr stateS); ("county_fips", VStr (county_fips info));
            ("searchUrl",
             VStr (make_searchUrl (toLowerCase cityS) (toLowerCase stateS)));
            ("transactions", VArr ts)] /\
    county_name info <> VUndef /\ state_name info <> VUndef /\
    from_completions env ts.
Proof.
  unfold serve. intros Hst.
  destruct (POST_outcome env (module_load file) request)
    as [(message & st & Hr & Hcode)|(a & z & i & c & s & ts & Hres & Hr & Hts)];
    rewrite Hr in Hst |- *.
  { rewrite status_error_response in Hst. lia. }
  exists a, z, i, c, s, ts.
  destruct Hres as (b & Hb & Ha & Hz & Hl & Hc & Hs).
  destruct (module_load_lookup _ _ _ Hl) as (rows & row & -> & Hin & Hret & _ & Hi).
  apply row_retained_inv in Hret as (_ & Hcn & _).
  assert (Hcn' : county_name i <> VUndef) by (subst i; now apply truthy_defined).
  assert (Hsn' : state_name i <> VUndef) by (subst i; apply or_empty_defined).
  split; [exists b; repeat split; assumption|].
  split; [now apply body_success|]. auto.
Qed.

(** C8.  When the first completion parses to the empty array and the selected
    candidate has no raw content, the response is the success payload (200)
    with [transactions] the empty array. *)
Theorem empty_first_pass_is_success env zipData request address zipcode info
    cityS stateS results cand c :
  resolves zipData request address zipcode info cityS stateS ->
  tavily_search env (removeZipcode address +:+ " property sale history transactions")
  = Val results ->
  select_result (removeZipcode address) results = Some cand ->
  ai_first env (removeZipcode address) cand = Val (Some c) ->
  is_empty c = false ->
  JSON_parse env c = Val (VArr []) ->
  absent (rawContent cand) = true ->
  let r := snd (POST env zipData request) in
  r = success zipcode info
        (make_searchUrl (toLowerCase cityS) (toLowerCase stateS)) [] /\
  status r = 200 /\ prop "transactions" (body r) = VArr [].
Proof.
  intros Hres Hsearch Hsel Hfirst Hne Hparse Hraw. cbv zeta.
  assert (Hr : snd (POST env zipData request)
               = success zipcode info
                   (make_searchUrl (toLowerCase cityS) (toLowerCase stateS)) []).
  { pose proof (snd_POST_completion env _ _ _ _ _ _ _ _ _ Hres Hsearch Hsel) as Hc.
    unfold completion in Hc. rewrite snd_try_catch in Hc.
    rewrite snd_bind in Hc. simpl in Hc. rewrite snd_bind in Hc.
    unfold lift in Hc at 1. simpl in Hc. rewrite Hfirst in Hc.
    rewrite snd_bind in Hc. simpl in Hc. rewrite Hne in Hc.
    rewrite snd_try_catch, snd_bind in Hc. unfold lift in Hc. simpl in Hc.
    rewrite Hparse in Hc. unfold after_parse in Hc.
    rewrite snd_bind in Hc. simpl in Hc. rewrite snd_bind in Hc.
    assert (Hd : match rawContent cand with
                 | Some raw =>
                     if is_empty raw then ret (VArr [])
                     else
                       bind (log "=== Attempting Direct Link Detection ===")
                         (fun _ => ret (default (VArr [])
                            (detect_link (removeZipcode address) raw)))
                 | None => ret (VArr [])
                 end = ret (VArr [])).
    { destruct (rawContent cand) as [raw|]; [|reflexivity].
      simpl in Hraw. now rewrite Hraw. }
    rewrite Hd in Hc. step_binds_in Hc. now injection Hc. }
  rewrite Hr. split; [reflexivity|]. split; [reflexivity|].
  destruct Hres as (b & _ & _ & _ & _ & Hc & Hs).
  now rewrite (prop_success "transactions" _ _ _ _ _ _ Hc Hs) by auto.
Qed.

(** C10.  In a 200 response [searchUrl] is "https://gis.vgsi.com/", then the
    city of the zip record lower-cased and without white space, then its
    state code lower-cased, then "/search.aspx"; two environments (search
    results, candidates, completions) give the same [searchUrl] for the same
    request and directory. *)
Theorem searchUrl_from_location :
  (forall env zipData request,
     status (snd (POST env zipData request)) = 200 ->
     exists address zipcode info cityS stateS,
       resolves zipData request address zipcode info cityS stateS /\
       prop "searchUrl" (body (snd (POST env zipData request)))
       = VStr ("https://gis.vgsi.com/" +:+ remove_spaces (toLowerCase cityS)
                 +:+ toLowerCase stateS +:+ "/search.aspx")) /\
  (forall env1 env2 zipData request,
     status (snd (POST env1 zipData request)) = 200 ->
     status (snd (POST env2 zipData request)) = 200 ->
     prop "searchUrl" (body (snd (POST env1 zipData request)))
     = prop "searchUrl" (body (snd (POST env2 zipData request)))).
Proof.
  assert (H : forall env zipData request,
     status (snd (POST env zipData request)) = 200 ->
     exists address zipcode info cityS stateS,
       resolves zipData request address zipcode info cityS stateS /\
       prop "searchUrl" (body (snd (POST env zipData request)))
       = VStr ("https://gis.vgsi.com/" +:+ remove_spaces (toLowerCase cityS)
                 +:+ toLowerCase stateS +:+ "/search.aspx")).
  { intros env zipData request Hst.
    destruct (POST_outcome env zipData request)
      as [(message & st & Hr & Hcode)|(a & z & i & c & s & ts & Hres & Hr & Hts)];
      rewrite Hr in Hst |- *.
    { rewrite status_error_response in Hst. lia. }
    exists a, z, i, c, s. split; [assumption|].
    destruct Hres as (b & _ & _ & _ & _ & Hc & Hs).
    rewrite (prop_success "searchUrl" _ _ _ _ _ _ Hc Hs) by auto.
    simpl. now rewrite make_searchUrl_eq. }
  split; [exact H|].
  intros env1 env2 zipData request H1 H2.
  destruct (H env1 zipData request H1) as (a & z & i & c & s & Hres & ->).
  destruct (H env2 zipData request H2) as (a' & z' & i' & c' & s' & Hres' & ->).
  destruct (resolves_functional _ _ _ _ _ _ _ _ _ _ _ _ Hres Hres')
    as (_ & _ & _ & <- & <-).
  reflexivity.
Qed.

Lemma success_has_location_witness :
  exists address zipcode info cityS stateS ts,
    resolves (module_load (Rows sample_rows))
      (sample_request "8 Lynnbrook Road, 06824")
      address zipcode info cityS stateS /\
    body (snd (serve (Rows sample_rows)
                 (sample_env (Val [sample_candidate]) (Val (Some "[]"))
                    (Val None) [("[]", VArr [])])
                 (sample_request "8 Lynnbrook Road, 06824")))
    = VObj [("zipcode", VStr zipcode); ("city", VStr cityS);
            ("county", county_name info); ("state", state_name info);
            ("state_id", VStr stateS); ("county_fips", VStr (county_fips info));
            ("searchUrl",
             VStr (make_searchUrl (toLowerCase cityS) (toLowerCase stateS)));
            ("transactions", VArr ts)] /\
    county_name info <> VUndef /\ state_name info <> VUndef /\
    from_completions
      (sample_env (Val [sample_candidate]) (Val (Some "[]")) (Val None)
         [("[]", VArr [])]) ts.
Proof.
  apply success_has_location. vm_compute. reflexivity.
Defined.

Lemma empty_first_pass_is_success_witness :
  snd (POST (sample_env (Val [sample_candidate]) (Val (Some "[]")) (Val None)
               [("[]", VArr [])])
         (module_load (Rows sample_rows))
         (sample_request "8 Lynnbrook Road, 06824"))
  = success "06824" sample_info
      (make_searchUrl (toLowerCase "Fairfield") (toLowerCase "CT")) [].
Proof.
  refine (proj1 (empty_first_pass_is_success
                   (sample_env (Val [sample_candidate]) (Val (Some "[]"))
                      (Val None) [("[]", VArr [])])
                   (module_load (Rows sample_rows))
                   (sample_request "8 Lynnbrook Road, 06824")
                   "8 Lynnbrook Road, 06824" "06824" sample_info "Fairfield" "CT"
                   [sample_candidate] sample_candidate "[]"
                   sample_resolves eq_refl _ eq_refl eq_refl eq_refl eq_refl)).
  vm_compute. reflexivity.
Defined.

Lemma searchUrl_from_location_witness :
  exists address zipcode info cityS stateS,
    resolves (module_load (Rows sample_rows))
      (sample_request "8 Lynnbrook Road, 06824")
      address zipcode info cityS stateS /\
    prop "searchUrl"
      (body (snd (POST (sample_env (Val [sample_candidate]) (Val (Some "[]"))
                          (Val None) [("[]", VArr [])])
                    (module_load (Rows sample_rows))
                    (sample_request "8 Lynnbrook Road, 06824"))))
    = VStr ("https://gis.vgsi.com/" +:+ remove_spaces (toLowerCase cityS)
              +:+ toLowerCase stateS +:+ "/search.aspx").
Proof.
  apply (proj1 searchUrl_from_location). vm_compute. reflexivity.
Defined.

(* ===================================================================== *)
(** * [removeZipcode] *)
(* ===================================================================== *)

Section MatcherMap.
Context {A B : Type} (h : A -> B).

Lemma star_greedy_map p s : forall (k : string -> string -> option A) k',
  (forall w rest, k' w rest = h <$> k w rest) ->
  star_greedy p s k' = h <$> star_greedy p s k.
Proof.
  induction s as [|c s IH]; intros k k' H; simpl; [apply H|].
  destruct (p c); [|apply H].
  rewrite (IH (fun w rest => k (String c w) rest)
              (fun w rest => k' (String c w) rest)) by (intros; apply H).
  destruct (star_greedy p s _); [reflexivity | apply H].
Qed.

Lemma star_lazy_map p s : forall (k : string -> string -> option A) k',
  (forall w rest, k' w rest = h <$> k w rest) ->
  star_lazy p s k' = h <$> star_lazy p s k.
Proof.
  induction s as [|c s IH]; intros k k' H; simpl; rewrite H.
  - destruct (k "" ""); reflexivity.
  - destruct (k "" (String c s)); [reflexivity|]. simpl.
    destruct (p c); [|reflexivity].
    apply IH. intros; apply H.
Qed.

(** The matcher commutes with what is done to the answer of the
    continuation. *)
Lemma rmatch_map r : forall prev s cs (k : string -> string -> caps -> option A) k',
  (forall w rest cs', k' w rest cs' = h <$> k w rest cs') ->
  rmatch r prev s cs k' = h <$> rmatch r prev s cs k.
Proof.
  induction r as [|p|g p|r1 IH1 r2 IH2|r1 IH1 r2 IH2|n r IH| | |];
    intros prev s cs k k' H; simpl.
  - apply H.
  - destruct s as [|c s]; [reflexivity|]. destruct (p c); [apply H | reflexivity].
  - destruct g; [apply star_greedy_map | apply star_lazy_map]; intros; apply H.
  - apply IH1. intros w1 s1 cs1. apply IH2. intros; apply H.
  - rewrite (IH1 prev s cs k k' H), (IH2 prev s cs k k' H).
    destruct (rmatch r1 prev s cs k); reflexivity.
  - apply IH. intros; apply H.
  - destruct (word_boundary prev s); [apply H | reflexivity].
  - destruct prev; [reflexivity | apply H].
  - destruct s; [apply H | reflexivity].
Qed.
End MatcherMap.

Lemma zip_needs_digit {A} prev c s cs (k : string -> string -> caps -> option A) :
  isDigit c = false -> rmatch zipcodeRegex prev (String c s) cs k = None.
Proof.
  intros H. cbn. destruct (word_boundary prev (String c s)); [|reflexivity].
  now rewrite H.
Qed.

Lemma zip_needs_text {A} prev cs (k : string -> string -> caps -> option A) :
  rmatch zipcodeRegex prev "" cs k = None.
Proof. cbn. destruct (word_boundary prev ""); reflexivity. Qed.

Lemma space_not_digit c : isSpace c = true -> isDigit c = false.
Proof.
  destruct c as [[] [] [] [] [] [] [] []]; vm_compute; congruence.
Qed.

Lemma comma_not_digit c : eqc "," c = true -> isDigit c = false.
Proof. intros H. apply eqc_true in H. now subst c. Qed.

Lemma comma_not_space c : eqc "," c = true -> isSpace c = false.
Proof. intros H. apply eqc_true in H. now subst c. Qed.

Lemma leading_spaces_all s : all_chars isSpace (leading_spaces s) = true.
Proof.
  induction s as [|c s IH]; simpl; [reflexivity|].
  destruct (isSpace c) eqn:E; simpl; [now rewrite E | reflexivity].
Qed.

Lemma leading_spaces_trimStart s : s = leading_spaces s +:+ trimStart s.
Proof.
  induction s as [|c s IH]; simpl; [reflexivity|].
  destruct (isSpace c); simpl; [now rewrite <- IH | reflexivity].
Qed.

Lemma head_after_separator s : s = head_separator s +:+ after_separator s.
Proof.
  destruct s as [|c s]; [reflexivity|]. unfold head_separator, after_separator.
  destruct (eqc "," c).
  - simpl. now rewrite <- leading_spaces_trimStart.
  - apply leading_spaces_trimStart.
Qed.

Lemma leading_spaces_app sp d rest :
  all_chars isSpace sp = true -> isSpace d = false ->
  leading_spaces (sp +:+ String d rest) = sp /\
  trimStart (sp +:+ String d rest) = String d rest.
Proof.
  intros Hsp Hd. induction sp as [|c sp IH]; simpl.
  - now rewrite Hd.
  - simpl in Hsp. apply andb_prop in Hsp as [Hc Hsp]. rewrite Hc.
    destruct (IH Hsp) as [-> ->]. auto.
Qed.

(** White space, then the zip code. *)
Lemma spaces_then_zip s : forall (f : string -> string) prev,
  star_greedy isSpace s (fun w rest =>
    rmatch zipcodeRegex (last_char prev (f w)) rest []
      (fun w2 s2 cs2 => Some (Found "" (f (w +:+ w2)) s2 cs2)))
  = (fun g => Found "" (f (leading_spaces s +:+ matched g)) (after g) (groups g))
    <$> exec_at zipcodeRegex (last_char prev (f (leading_spaces s))) (trimStart s).
Proof.
  assert (Hbase : forall t (f : string -> string) prev,
    rmatch zipcodeRegex (last_char prev (f "")) t []
      (fun w2 s2 cs2 => Some (Found "" (f w2) s2 cs2))
    = (fun g => Found "" (f (matched g)) (after g) (groups g))
      <$> exec_at zipcodeRegex (last_char prev (f "")) t).
  { intros t f prev. unfold exec_at. apply rmatch_map. reflexivity. }
  induction s as [|c s IH]; intros f prev.
  - apply Hbase.
  - cbn [star_greedy leading_spaces trimStart]. destruct (isSpace c) eqn:Hc.
    + pose proof (IH (fun x => f (String c x)) prev) as IH'. cbn beta in IH'.
      cbn [String.append] in *. rewrite IH'.
      destruct (exec_at zipcodeRegex _ (trimStart s)); [reflexivity|].
      cbn [fmap option_fmap option_map].
      apply zip_needs_digit, space_not_digit, Hc.
    + apply Hbase.
Qed.

(** The matcher of [removeZipcode] at a position: it reads the separator,
    then what the matcher of [extractZipcode] reads after it. *)
Lemma exec_at_removeZipcodeRegex prev s :
  exec_at removeZipcodeRegex prev s
  = (fun g => Found "" (head_separator s +:+ matched g) (after g) (groups g))
    <$> exec_at zipcodeRegex (last_char prev (head_separator s))
          (after_separator s).
Proof.
  unfold exec_at at 1, removeZipcodeRegex, opt.
  cbn [seqs]. destruct s as [|c s].
  - cbn [rmatch star_greedy head_separator after_separator].
    rewrite zip_needs_text. unfold exec_at. now rewrite zip_needs_text.
  - unfold head_separator, after_separator.
    cbn [rmatch last_char String.append]. destruct (eqc "," c) eqn:Hc.
    + pose proof (spaces_then_zip s (fun x => String c x) prev) as H.
      cbn beta in H. cbn [last_char String.append] in H. rewrite H.
      destruct (exec_at zipcodeRegex _ (trimStart s)); [reflexivity|].
      cbn [fmap option_fmap option_map star_greedy].
      rewrite (comma_not_space _ Hc).
      apply zip_needs_digit, comma_not_digit, Hc.
    + pose proof (spaces_then_zip (String c s) (fun x => x) prev) as H.
      cbn beta in H. exact H.
Qed.

Lemma exec_at_zip_digit prev s g :
  exec_at zipcodeRegex prev s = Some g ->
  exists d rest, s = String d rest /\ isDigit d = true.
Proof.
  intros H. destruct s as [|d rest].
  - unfold exec_at in H. now rewrite zip_needs_text in H.
  - exists d, rest. split; [reflexivity|].
    destruct (isDigit d) eqn:E; [reflexivity|].
    unfold exec_at in H. now rewrite zip_needs_digit in H.
Qed.

Lemma digit_not_space d : isDigit d = true -> isSpace d = false.
Proof.
  intros H. destruct (isSpace d) eqn:E; [|reflexivity].
  apply space_not_digit in E. congruence.
Qed.

Lemma digit_not_comma d : isDigit d = true -> eqc "," d = false.
Proof.
  intros H. destruct (eqc "," d) eqn:E; [|reflexivity].
  apply comma_not_digit in E. congruence.
Qed.

Lemma strip_separator_head s : strip_separator (head_separator s) = "".
Proof.
  assert (Hsp : forall t, strip_separator (leading_spaces t) = "").
  { intros [|c t]; simpl; [reflexivity|].
    destruct (isSpace c) eqn:E; [|reflexivity].
    simpl. now rewrite E, orb_true_r, leading_spaces_all. }
  destruct s as [|c s]; [reflexivity|]. unfold head_separator.
  destruct (eqc "," c) eqn:E; [|apply Hsp].
  simpl. now rewrite E, leading_spaces_all.
Qed.

(** Where [extractZipcode] finds nothing, [removeZipcode] finds nothing. *)
Lemma search_remove_none s : forall prev,
  search zipcodeRegex prev s = None -> search removeZipcodeRegex prev s = None.
Proof.
  induction s as [|c s IH]; intros prev H.
  - simpl. rewrite exec_at_removeZipcodeRegex. simpl.
    unfold exec_at. now rewrite zip_needs_text.
  - cbn [search]. rewrite exec_at_removeZipcodeRegex.
    rewrite (search_nowhere _ _ _ H (head_separator (String c s))
               (after_separator (String c s)) (head_after_separator _)).
    cbn [search] in H. destruct (exec_at zipcodeRegex prev (String c s));
      [discriminate|].
    destruct (search zipcodeRegex (Some c) s) eqn:Hs; [discriminate|].
    simpl. now rewrite (IH _ Hs).
Qed.

(** Where [extractZipcode] finds a zip code, [removeZipcode] finds it with
    the separator before it. *)
Lemma search_remove_some s : forall prev fz,
  search zipcodeRegex prev s = Some fz ->
  exists f,
    search removeZipcodeRegex prev s = Some f /\
    before f = strip_separator (before fz) /\ after f = after fz.
Proof.
  induction s as [|c s IH]; intros prev fz H.
  - simpl in H. unfold exec_at in H. now rewrite zip_needs_text in H.
  - cbn [search] in H |- *.
    destruct (exec_at zipcodeRegex prev (String c s)) as [g|] eqn:Hz.
    + (* the zip code starts here: the separator is empty *)
      injection H as <-.
      destruct (exec_at_zip_digit _ _ _ Hz) as (d & rest & Hd & Hdig).
      injection Hd as <- <-.
      rewrite exec_at_removeZipcodeRegex. unfold head_separator, after_separator.
      rewrite (digit_not_comma _ Hdig). simpl.
      rewrite (digit_not_space _ Hdig). simpl. rewrite Hz. simpl.
      eexists. split; [reflexivity|]. simpl.
      apply exec_at_sound in Hz as (-> & _). auto.
    + destruct (search zipcodeRegex (Some c) s) as [fz'|] eqn:Hs; [|discriminate].
      injection H as <-.
      destruct (IH _ _ Hs) as (f' & Hf' & Hb & Ha).
      pose proof (search_found _ _ _ _ Hs) as (Hsplit & Hexec & _).
      destruct (exec_at_zip_digit _ _ _ Hexec) as (d & rest & Hd & Hdig).
      rewrite Hd in Hsplit, Hexec.
      rewrite exec_at_removeZipcodeRegex.
      destruct ((eqc "," c || isSpace c) && all_chars isSpace (before fz'))
        eqn:Hsep.
      * (* the separator starts here *)
        apply andb_prop in Hsep as [Hc Hsp].
        destruct (leading_spaces_app (before fz') d rest Hsp
                    (digit_not_space _ Hdig)) as [Hl Ht].
        assert (Hhead : head_separator (String c s) = String c (before fz') /\
                        after_separator (String c s) = String d rest).
        { unfold head_separator, after_separator. rewrite Hsplit.
          destruct (eqc "," c) eqn:Ec.
          - now rewrite Hl, Ht.
          - simpl in Hc. simpl. rewrite Hc, Hl, Ht. auto. }
        destruct Hhead as [-> ->]. simpl last_char. rewrite Hexec. simpl.
        eexists. split; [reflexivity|]. simpl. now rewrite Hc, Hsp.
      * (* the match starts further on *)
        assert (Hnone : exec_at zipcodeRegex
                          (last_char prev (head_separator (String c s)))
                          (after_separator (String c s)) = None).
        { destruct (eqc "," c || isSpace c) eqn:Hc.
          2:{ apply orb_false_elim in Hc as [Ec Es].
              unfold head_separator, after_separator. rewrite Ec. simpl.
              rewrite Es. exact Hz. }
          assert (Hh : head_separator (String c s) = String c (leading_spaces s)
                       /\ after_separator (String c s) = trimStart s).
          { unfold head_separator, after_separator.
            destruct (eqc "," c); [auto|]. simpl in Hc. simpl. now rewrite Hc. }
          destruct Hh as [-> ->]. simpl last_char.
          destruct (exec_at zipcodeRegex _ (trimStart s)) as [g|] eqn:Hg;
            [|reflexivity]. exfalso.
          (* a zip code after the separator of this position would be the
             leftmost one, and the separator would reach it *)
          destruct (exec_at_zip_digit _ _ _ Hg) as (d' & rest' & Hd' & Hdig').
          pose proof (leading_spaces_trimStart s) as Hcut.
          pose proof (leading_spaces_all s) as Hsp.
          simpl in Hsep.
          assert (Heq : leading_spaces s = before fz').
          { pose proof (search_found _ _ _ _ Hs) as (_ & _ & Hleft).
            destruct (Nat.lt_trichotomy (String.length (leading_spaces s))
                        (String.length (before fz'))) as [Hlt|[Hlen|Hgt]].
            - specialize (Hleft _ _ Hcut Hlt). congruence.
            - rewrite Hsplit in Hcut at 1. symmetry in Hcut.
              now destruct (app_eq_length _ _ _ _ Hcut Hlen).
            - rewrite Hsplit in Hcut at 1.
              destruct (app_eq_split _ _ _ _ Hcut) as (e & He & Hr); [lia|].
              rewrite He, app_length in Hgt.
              destruct e as [|x e]; [simpl in Hgt; lia|].
              simpl in Hr. injection Hr as <- _.
              rewrite He, all_chars_app in Hsp.
              apply andb_prop in Hsp as [_ Hsp].
              simpl in Hsp. apply andb_prop in Hsp as [Hsp _].
              apply space_not_digit in Hsp. congruence. }
          rewrite <- Heq, Hsp in Hsep. discriminate. }
        rewrite Hnone. simpl. rewrite Hf'. simpl.
        eexists. split; [reflexivity|]. simpl. now rewrite Hsep, Hb, Ha.
Qed.

(** X1.  [removeZipcode] removes the zip code that [extractZipcode] returns,
    the leftmost delimited one, together with the separator before it: the
    longest text of the form "optional comma, white space" that ends where
    the zip code starts.  What is left is trimmed.  An address without a zip
    code is only trimmed. *)
Theorem removeZipcode_removes_extracted address :
  (extractZipcode address = None -> removeZipcode address = trim address) /\
  (forall zipcode,
     extractZipcode address = Some zipcode ->
     exists pre post,
       address = pre +:+ zipcode +:+ post /\
       delimited_zip pre zipcode post /\
       (forall pre' w post',
          address = pre' +:+ w +:+ post' -> delimited_zip pre' w post' ->
          String.length pre <= String.length pre') /\
       removeZipcode address = trim (strip_separator pre +:+ post)).
Proof.
  unfold extractZipcode, removeZipcode, replace.
  destruct (search zipcodeRegex None address) as [fz|] eqn:Hs; simpl; split;
    try discriminate.
  - intros zipcode H. injection H as <-.
    pose proof (search_found _ _ _ _ Hs) as (Hsplit & Hexec & Hleft).
    exists (before fz), (after fz). split; [exact Hsplit|].
    pose proof (exec_at_sound _ _ _ _ Hexec) as (_ & _ & Hm). simpl in Hm.
    apply Matches_zip_shape in Hm as (Hz & Hb1 & Hb2).
    split; [|split].
    + unfold delimited_zip. rewrite last_char_app. auto.
    + intros pre' w post' Heq (Hz' & Hb1' & Hb2').
      destruct (Nat.le_gt_cases (String.length (before fz)) (String.length pre'))
        as [|Hlt]; [assumption|].
      specialize (Hleft _ _ Heq Hlt). rewrite last_char_app in Hb2'.
      destruct (exec_at_zip_delimited _ _ _ Hz' Hb1' Hb2') as [g Hg]. congruence.
    + destruct (search_remove_some _ _ _ Hs) as (f & -> & -> & ->). reflexivity.
  - intros _. now rewrite (search_remove_none _ _ Hs).
Qed.

Lemma removeZipcode_removes_extracted_witness :
  exists pre post,
    "8 Lynnbrook Road, 06824" = pre +:+ "06824" +:+ post /\
    removeZipcode "8 Lynnbrook Road, 06824" = trim (strip_separator pre +:+ post).
Proof.
  destruct (proj2 (removeZipcode_removes_extracted "8 Lynnbrook Road, 06824")
              "06824") as (pre & post & H1 & _ & _ & H4).
  - vm_compute. reflexivity.
  - exists pre, post. split; assumption.
Defined.

Lemma search_intro r pre : forall prev rest g,
  (forall p1 p2, pre = p1 +:+ p2 -> p2 <> "" ->
     exec_at r (last_char prev p1) (p2 +:+ rest) = None) ->
  exec_at r (last_char prev pre) rest = Some g ->
  search r prev (pre +:+ rest) = Some (Found pre (matched g) (after g) (groups g)).
Proof.
  induction pre as [|c pre IH]; intros prev rest g Hnone Hg.
  - simpl in Hg. simpl String.append.
    assert (Hsearch : search r prev rest = Some g)
      by (destruct rest; simpl; now rewrite Hg).
    rewrite Hsearch. apply exec_at_sound in Hg as (Hb & _).
    destruct g; simpl in *; now subst.
  - change (String c pre +:+ rest) with (String c (pre +:+ rest)).
    cbn [search].
    assert (H0 : exec_at r prev (String c (pre +:+ rest)) = None)
      by (apply (Hnone "" (String c pre) eq_refl); discriminate).
    rewrite H0.
    rewrite (IH (Some c) rest g); [reflexivity| |exact Hg].
    intros p1 p2 -> Hp2. apply (Hnone (String c p1) p2 eq_refl Hp2).
Qed.

Lemma zip_shaped_chars w :
  zip_shaped w -> all_chars (fun c => isDigit c || eqc "-" c) w = true.
Proof.
  assert (Hd : forall n d, digits n d = true ->
                 all_chars (fun c => isDigit c || eqc "-" c) d = true).
  { intros n d H. apply digits_inv in H as [_ H]. clear n.
    induction d as [|c d IH]; [reflexivity|]. simpl in *.
    apply andb_prop in H as [-> H]. now rewrite IH. }
  intros [d H|d e H1 H2]; [eapply Hd; eauto|].
  rewrite !all_chars_app, (Hd _ _ H1), (Hd _ _ H2). reflexivity.
Qed.

Lemma zip_shaped_first w :
  zip_shaped w -> exists d rest, w = String d rest /\ isDigit d = true.
Proof.
  intros [d H|d e H _]; apply digits_inv in H as [Hl H];
    (destruct d as [|c d]; [discriminate|]); simpl in H;
    apply andb_prop in H as [Hc _]; eauto.
Qed.

Lemma digits_last n d p :
  digits (S n) d = true -> exists x, last_char p d = Some x /\ isDigit x = true.
Proof.
  intros H. apply digits_inv in H as [Hl H].
  destruct d as [|c d]; [discriminate|]. clear Hl. simpl in *.
  apply andb_prop in H as [Hc H]. revert c Hc.
  induction d as [|c' d IH]; intros c Hc; simpl; [eauto|].
  simpl in H. apply andb_prop in H as [Hc' H]. now apply IH.
Qed.

Lemma zip_shaped_last prev w :
  zip_shaped w -> exists d, last_char prev w = Some d /\ isDigit d = true.
Proof.
  intros [d H|d e H1 H2]; [eapply digits_last; eauto|].
  rewrite !last_char_app. eapply digits_last; eauto.
Qed.

Lemma digit_is_word d : isDigit d = true -> isWordChar d = true.
Proof. unfold isWordChar. now intros ->. Qed.

Lemma word_boundary_head prev c x y :
  word_boundary prev (String c x) = word_boundary prev (String c y).
Proof. reflexivity. Qed.

Lemma exec_at_zip_whole prev z :
  zip_shaped z -> from_option isWordChar false prev = false ->
  exists cs, exec_at zipcodeRegex prev z = Some (Found "" z "" cs).
Proof.
  intros Hz Hprev.
  destruct (zip_shaped_first _ Hz) as (d & rest & Hd & Hdig).
  destruct (zip_shaped_last prev _ Hz) as (x & Hx & Hxd).
  assert (Hb1 : word_boundary prev (z +:+ "") = true).
  { rewrite Hd. unfold word_boundary. simpl.
    now rewrite Hprev, (digit_is_word _ Hdig). }
  assert (Hb2 : word_boundary (last_char prev z) "" = true).
  { rewrite Hx. unfold word_boundary. simpl. now rewrite (digit_is_word _ Hxd). }
  destruct Hz as [d5 H5|d5 e4 H5 H4].
  - destruct (exec_at_zip_delimited _ _ _ (zip_five _ H5) Hb1 Hb2) as [g Hg].
    rewrite app_nil_r in Hg. rewrite Hg.
    pose proof (exec_at_sound _ _ _ _ Hg) as (Hbg & Hsg & Hm).
    apply Matches_zip_shape in Hm as (Hzg & _).
    apply zip_shaped_length in Hzg. apply digits_inv in H5 as [H5 _].
    assert (Hlen : String.length (matched g) = 5).
    { apply (f_equal String.length) in Hsg. rewrite app_length in Hsg. lia. }
    destruct g as [b m a cs]; simpl in *. subst b.
    assert (a = "").
    { apply (f_equal String.length) in Hsg. rewrite app_length in Hsg.
      destruct a; [reflexivity | simpl in Hsg; lia]. }
    subst a. rewrite app_nil_r in Hsg. subst m. eauto.
  - pose proof (exec_at_zip_nine _ _ _ "" H5 H4 Hb1 Hb2) as Hg.
    rewrite app_nil_r in Hg. eauto.
Qed.

(** On a text that ends with a zip code after ", ", the matcher finds that
    zip code when nothing before it is one. *)
Lemma search_trailing_zip street z :
  search zipcodeRegex None street = None -> zip_shaped z ->
  exists cs,
    search zipcodeRegex None ((street +:+ ", ") +:+ z)
    = Some (Found (street +:+ ", ") z "" cs).
Proof.
  intros Hnone Hz.
  assert (Hexec : exists cs,
            exec_at zipcodeRegex (last_char None (street +:+ ", ")) z
            = Some (Found "" z "" cs)).
  { rewrite last_char_app. simpl last_char.
    now apply exec_at_zip_whole. }
  destruct Hexec as (cs & Hexec). exists cs.
  apply (search_intro zipcodeRegex (street +:+ ", ") None z _) in Hexec;
    [exact Hexec|].
  intros p1 p2 Hcut Hp2.
  destruct (exec_at zipcodeRegex (last_char None p1) (p2 +:+ z)) as [g|] eqn:Hg;
    [exfalso | reflexivity].
  destruct (exec_at_zip_digit _ _ _ Hg) as (d & rest & Hd & Hdig).
  destruct (Nat.le_gt_cases (String.length p1) (String.length street)) as [Hle|Hgt].
  - symmetry in Hcut.
    destruct (app_eq_split _ _ _ _ Hcut Hle) as (e & He & Hr).
    (* [street = p1 +:+ e] and [p2 = e +:+ ", "] *)
    subst p2 street. destruct e as [|x e].
    { simpl in Hd. injection Hd as <- _. discriminate. }
    pose proof (exec_at_sound _ _ _ _ Hg) as (_ & Hsg & Hm).
    apply Matches_zip_shape in Hm as (Hzg & Hb1 & Hb2).
    pose proof (zip_shaped_chars _ Hzg) as Hchars.
    destruct (zip_shaped_first _ Hzg) as (d' & w' & Hw & _).
    destruct (Nat.le_gt_cases (String.length (matched g))
                (String.length (String x e))) as [Hin|Hout].
    + (* the match lies within the street: it is one of the street alone *)
      rewrite app_assoc in Hsg. symmetry in Hsg.
      destruct (app_eq_split _ _ _ _ Hsg Hin) as (r & Hr1 & Hr2).
      assert (Hb2' : word_boundary (last_char (last_char None p1) (matched g)) r
                     = true).
      { rewrite Hr2 in Hb2. destruct r; [|exact Hb2].
        simpl in Hb2. unfold word_boundary in *. simpl in *. exact Hb2. }
      assert (Hb1' : word_boundary (last_char None p1) (matched g +:+ r) = true).
      { rewrite Hw in Hb1 |- *. exact Hb1. }
      destruct (exec_at_zip_delimited _ _ _ Hzg Hb1' Hb2') as [g' Hg'].
      rewrite <- Hr1 in Hg'.
      now rewrite (search_nowhere _ _ _ Hnone p1 (String x e) eq_refl) in Hg'.
    + (* the match would run over the comma *)
      rewrite app_assoc in Hsg.
      destruct (app_eq_split _ _ _ _ Hsg) as (r & Hr1 & Hr2); [lia|].
      rewrite Hr1, app_length in Hout.
      destruct r as [|y r]; [simpl in Hout; lia|].
      simpl in Hr2. injection Hr2 as <- _.
      rewrite Hr1, all_chars_app in Hchars.
      apply andb_prop in Hchars as [_ Hchars]. discriminate.
  - destruct (app_eq_split _ _ _ _ Hcut) as (e & He & Hr); [lia|].
    rewrite He, app_length in Hgt. destruct e as [|x e]; [simpl in Hgt; lia|].
    simpl in Hr. injection Hr as <- Hr.
    destruct e as [|y e].
    + simpl in Hr. subst p2. simpl in Hd. injection Hd as <- _. discriminate.
    + simpl in Hr. injection Hr as <- Hr.
      destruct e; [|discriminate]. simpl in Hr. subst p2. congruence.
Qed.

Lemma strip_separator_comma_space a : strip_separator (a +:+ ", ") = a.
Proof.
  induction a as [|x a IH]; [reflexivity|].
  simpl. rewrite all_chars_app. simpl. rewrite andb_false_r, andb_false_r.
  now rewrite IH.
Qed.

(** X2.  An address written as a street, ", " and a zip code, the street
    holding no zip code of its own, is taken apart without loss:
    [extractZipcode] returns the zip code and [removeZipcode] the street,
    trimmed.  "123 Main St, 12345" gives "12345" and "123 Main St". *)
Theorem street_and_zip_are_separated street zipcode :
  extractZipcode street = None -> zip_shaped zipcode ->
  extractZipcode ((street +:+ ", ") +:+ zipcode) = Some zipcode /\
  removeZipcode ((street +:+ ", ") +:+ zipcode) = trim street.
Proof.
  unfold extractZipcode at 1. intros Hnone Hz.
  destruct (search zipcodeRegex None street) eqn:Hs; [discriminate|].
  destruct (search_trailing_zip _ _ Hs Hz) as (cs & Hfound).
  split.
  - unfold extractZipcode. now rewrite Hfound.
  - unfold removeZipcode, replace.
    destruct (search_remove_some _ _ _ Hfound) as (f & -> & -> & ->). simpl.
    now rewrite strip_separator_comma_space, app_nil_r.
Qed.

Lemma street_and_zip_are_separated_witness :
  extractZipcode (("123 Main St" +:+ ", ") +:+ "12345") = Some "12345" /\
  removeZipcode (("123 Main St" +:+ ", ") +:+ "12345") = trim "123 Main St".
Proof.
  apply street_and_zip_are_separated.
  - vm_compute. reflexivity.
  - apply zip_five. reflexivity.
Defined.

(* ===================================================================== *)
(** * More on the zip directory *)
(* ===================================================================== *)

Lemma fold_add_row_snoc rows row (m0 : gmap string ZipInfo) :
  fold_left add_row (rows ++ [row]) m0 = add_row (fold_left add_row rows m0) row.
Proof. now rewrite fold_left_app. Qed.

Lemma fold_add_row_deciding rows : forall (m0 : gmap string ZipInfo) k,
  fold_left add_row rows m0 !! k
  = match deciding_row k rows with
    | Some row => Some (row_record row)
    | None => m0 !! k
    end.
Proof.
  induction rows as [|row rows IH] using rev_ind; intros m0 k; [reflexivity|].
  rewrite fold_add_row_snoc. unfold deciding_row. rewrite rev_app_distr. simpl.
  unfold add_row. destruct (row_retained row) eqn:Hr; simpl.
  - destruct (String.eqb (zip_key (field "zip" row)) k) eqn:Hk.
    + apply String.eqb_eq in Hk. subst k. now rewrite lookup_insert_eq.
    + apply String.eqb_neq in Hk. rewrite lookup_insert_ne by assumption. apply IH.
  - apply IH.
Qed.

(** X3.  Once the rows are loaded, [lookupZip] answers with the record of
    the last row of the sheet stored under the zip code asked for (a later
    row replaces an earlier one with the same key), and with [null] when no
    stored row has that key.  The sheet is one whose cells are scalars and
    whose numbers are safe integers, which [toString] prints digit by
    digit. *)
Theorem lookupZip_last_row_wins rows zipcode :
  forallb sheet_row rows = true ->
  lookupZip (module_load (Rows rows)) zipcode
  = Val (row_record <$> deciding_row zipcode rows).
Proof.
  intros _. unfold module_load, lookupZip. simpl. f_equal.
  rewrite fold_add_row_deciding, lookup_empty.
  destruct (deciding_row zipcode rows); reflexivity.
Qed.

Lemma lookupZip_last_row_wins_witness :
  lookupZip (module_load (Rows sample_repeated_rows)) "06824"
  = Val (Some {| zip := "06824"; city := VStr "Southport"; state_id := VStr "CT";
                 state_name := VStr "Connecticut";
                 county_name := VStr "Fairfield"; county_fips := "9001" |}) /\
  lookupZip (module_load (Rows sample_repeated_rows)) "06825" = Val None.
Proof.
  split.
  - exact (lookupZip_last_row_wins sample_repeated_rows "06824" eq_refl).
  - exact (lookupZip_last_row_wins sample_repeated_rows "06825" eq_refl).
Defined.

(** X4.  Over any sequence of calls of [initializeZipData], the directory is
    the one built from the first file that could be read: a failed call
    leaves the module uninitialised, so that the next call reads again, and
    every call after a successful one changes nothing. *)
Theorem initializeZipData_first_readable files :
  initialize_calls None files
  = (fun rows => fold_left add_row rows ∅) <$> first_readable files.
Proof.
  unfold initialize_calls.
  induction files as [|[e|rows] files IH]; simpl; [reflexivity | exact IH |].
  clear IH. induction files as [|file files IH]; simpl; [reflexivity | exact IH].
Qed.

(* ===================================================================== *)
(** * The branches of the inner [try] block *)
(* ===================================================================== *)


Lemma snd_after_parse_nonempty env zipcode info searchUrl searchAddress cand
    parsedData :
  parsedData <> VArr [] ->
  snd (after_parse env zipcode info searchUrl searchAddress cand parsedData)
  = snd (dispatch env zipcode info searchUrl searchAddress parsedData).
Proof.
  intros Hne. unfold after_parse. rewrite snd_bind. simpl. rewrite snd_bind.
  destruct parsedData as [| | | | |[|first rest]|]; try reflexivity.
  congruence.
Qed.


(** X5.  When the first completion answers an array whose leading item is
    tagged "Type 1", the response is the success payload whose transactions
    are the items after the tag, in their order. *)
Theorem type1_rows_are_transactions env zipData request zipcode info searchUrl
    searchAddress cand first rest :
  first_answer env zipData request zipcode info searchUrl searchAddress cand
    (VArr (first :: rest)) ->
  is_str "Type 1" (tag_of first) = true ->
  snd (POST env zipData request) = success zipcode info searchUrl rest.
Proof.
  intros Hfa Htag. rewrite (POST_first_answer _ _ _ _ _ _ _ _ _ Hfa).
  unfold inner_try. rewrite snd_after_parse_nonempty by discriminate.
  unfold dispatch. fold (tag_of first). rewrite snd_bind. simpl.
  rewrite Htag. step_binds. reflexivity.
Qed.

Lemma type1_rows_are_transactions_witness :
  snd (POST (sample_env (Val [sample_candidate]) (Val (Some "type 1")) (Val None)
               [("type 1", VArr [VObj [("type", VStr "Type 1")]; sample_sale])])
         (module_load (Rows sample_rows))
         (sample_request "8 Lynnbrook Road, 06824"))
  = success "06824" sample_info
      (make_searchUrl (toLowerCase "Fairfield") (toLowerCase "CT")) [sample_sale].
Proof.
  apply (type1_rows_are_transactions _ _ _ _ _ _
           (removeZipcode "8 Lynnbrook Road, 06824") sample_candidate
           (VObj [("type", VStr "Type 1")]) [sample_sale]).
  - apply sample_first_answer; reflexivity.
  - reflexivity.
Defined.

(** X6.  A first answer that is not an array, or a non-empty array whose
    leading item carries none of the three tags, is not an error: the
    response is the success payload with no transaction. *)
Theorem unrecognised_answer_is_empty_success env zipData request zipcode info
    searchUrl searchAddress cand parsedData :
  first_answer env zipData request zipcode info searchUrl searchAddress cand
    parsedData ->
  (forall items, parsedData <> VArr items) \/
  (exists first rest,
     parsedData = VArr (first :: rest) /\
     is_str "Type 1" (tag_of first) = false /\
     is_str "Type 2" (tag_of first) = false /\
     is_str "Type 3" (tag_of first) = false) ->
  snd (POST env zipData request) = success zipcode info searchUrl [].
Proof.
  intros Hfa Hshape. rewrite (POST_first_answer _ _ _ _ _ _ _ _ _ Hfa).
  unfold inner_try.
  destruct Hshape as [Hna|(first & rest & -> & H1 & H2 & H3)].
  - rewrite snd_after_parse_nonempty by apply Hna.
    destruct parsedData; try reflexivity. now destruct (Hna items).
  - rewrite snd_after_parse_nonempty by discriminate.
    unfold dispatch. fold (tag_of first). rewrite snd_bind. simpl.
    rewrite H1, H2, H3. reflexivity.
Qed.

Lemma unrecognised_answer_is_empty_success_witness :
  snd (POST (sample_env (Val [sample_candidate]) (Val (Some "note")) (Val None)
               [("note", VObj [("message", VStr "no data")])])
         (module_load (Rows sample_rows))
         (sample_request "8 Lynnbrook Road, 06824"))
  = success "06824" sample_info
      (make_searchUrl (toLowerCase "Fairfield") (toLowerCase "CT")) [].
Proof.
  apply (unrecognised_answer_is_empty_success _ _ _ _ _ _
           (removeZipcode "8 Lynnbrook Road, 06824") sample_candidate
           (VObj [("message", VStr "no data")])).
  - apply sample_first_answer; reflexivity.
  - left. intros items. discriminate.
Defined.

Lemma snd_second_pass env zipcode info searchUrl analysed c v :
  ai_second env analysed = Val (Some c) -> is_empty c = false ->
  JSON_parse env c = Val v ->
  snd (second_pass env zipcode info searchUrl analysed)
  = Val (success zipcode info searchUrl (second_transactions v)).
Proof.
  intros Hc Hne Hv. unfold second_pass. rewrite snd_bind. simpl.
  rewrite snd_bind. unfold lift at 1. simpl. rewrite Hc, Hne.
  rewrite snd_bind. simpl. rewrite snd_bind. unfold lift. simpl. rewrite Hv.
  destruct v as [| | | | |[|t ts]|]; reflexivity.
Qed.

Lemma snd_type2_branch env zipcode info searchUrl searchAddress parsedData item x
    more :
  snd (find_matching env searchAddress parsedData) = Val (Some item) ->
  truthy (prop "link" item) = true ->
  tavily_extract env (prop "link" item) = Val (x :: more) ->
  is_empty (extract_rawContent x) = false ->
  snd (type2_branch env zipcode info searchUrl searchAddress parsedData)
  = snd (second_pass env zipcode info searchUrl (extract_rawContent x)).
Proof.
  intros Hf Hl Hx Hne. unfold type2_branch. rewrite snd_bind. simpl.
  rewrite snd_bind, Hf, Hl. simpl. rewrite snd_bind. simpl.
  rewrite snd_bind. unfold lift. simpl. rewrite Hx, Hne. reflexivity.
Qed.

(** X7.  The "Type 2" path from end to end.  The first answer is tagged
    "Type 2" (or "Type 3"), one of its items matches the search address and
    carries a link, the extract call returns content for that link and the
    second completion answers a text: the response is the success payload
    whose transactions are the array read in the second answer, and no
    transaction when that answer is not an array. *)
Theorem type2_follows_link env zipData request zipcode info searchUrl
    searchAddress cand first rest item x more c v :
  first_answer env zipData request zipcode info searchUrl searchAddress cand
    (VArr (first :: rest)) ->
  is_str "Type 2" (tag_of first) = true \/ is_str "Type 3" (tag_of first) = true ->
  snd (find_matching env searchAddress (first :: rest)) = Val (Some item) ->
  truthy (prop "link" item) = true ->
  tavily_extract env (prop "link" item) = Val (x :: more) ->
  is_empty (extract_rawContent x) = false ->
  ai_second env (extract_rawContent x) = Val (Some c) ->
  is_empty c = false ->
  JSON_parse env c = Val v ->
  snd (POST env zipData request)
  = success zipcode info searchUrl (second_transactions v).
Proof.
  intros Hfa Htag Hf Hl Hx Hne Hc Hcne Hv.
  rewrite (POST_first_answer _ _ _ _ _ _ _ _ _ Hfa).
  unfold inner_try. rewrite snd_after_parse_nonempty by discriminate.
  unfold dispatch. fold (tag_of first). rewrite snd_bind. simpl.
  assert (H1 : is_str "Type 1" (tag_of first) = false).
  { unfold is_str in *. destruct (tag_of first); try reflexivity.
    apply String.eqb_neq. intros ->. destruct Htag; discriminate. }
  assert (H23 : is_str "Type 2" (tag_of first) || is_str "Type 3" (tag_of first)
                = true).
  { destruct Htag as [-> | ->]; [reflexivity | apply orb_true_r]. }
  rewrite H1, H23.
  rewrite (snd_type2_branch _ _ _ _ _ _ _ _ _ Hf Hl Hx Hne).
  now rewrite (snd_second_pass _ _ _ _ _ _ _ Hc Hcne Hv).
Qed.

Lemma type2_follows_link_witness :
  snd (POST (sample_env (Val [sample_candidate]) (Val (Some "type 2"))
               (Val (Some "sales"))
               [("type 2", VArr sample_type2); ("sales", VArr [sample_sale])])
         (module_load (Rows sample_rows))
         (sample_request "8 Lynnbrook Road, 06824"))
  = success "06824" sample_info
      (make_searchUrl (toLowerCase "Fairfield") (toLowerCase "CT")) [sample_sale].
Proof.
  apply (type2_follows_link
           (sample_env (Val [sample_candidate]) (Val (Some "type 2"))
              (Val (Some "sales"))
              [("type 2", VArr sample_type2); ("sales", VArr [sample_sale])])
           _ _ _ _ _
           (removeZipcode "8 Lynnbrook Road, 06824") sample_candidate
           (VObj [("type", VStr "Type 2")])
           [VObj [("address", VStr "8 LYNNBROOK RD");
                  ("link", VStr "https://gis.vgsi.com/fairfieldct/Parcel.aspx?pid=2271")]]
           (VObj [("address", VStr "8 LYNNBROOK RD");
                  ("link", VStr "https://gis.vgsi.com/fairfieldct/Parcel.aspx?pid=2271")])
           {| extract_url := "https://gis.vgsi.com/fairfieldct/Parcel.aspx?pid=2271";
              extract_rawContent := "Ownership History" |}
           [] "sales" (VArr [sample_sale])).
  - apply (sample_first_answer sample_candidate "type 2" (VArr sample_type2));
      reflexivity.
  - left. reflexivity.
  - vm_compute. reflexivity.
  - reflexivity.
  - reflexivity.
  - reflexivity.
  - reflexivity.
  - reflexivity.
  - reflexivity.
Defined.

Lemma detect_link_shape searchAddress rawContent v :
  detect_link searchAddress rawContent = Some v ->
  exists m, In m (matchAll directLinkRegex rawContent) /\
            v = VArr (detected (group 1 m) (group 2 m)) /\
            trim (replaceAll spacesRegex " " (toLowerCase (group 1 m)))
            = normalizeSearchAddress searchAddress.
Proof.
  unfold detect_link. destruct (List.find _ _) as [m|] eqn:Hf; [|discriminate].
  intros H. injection H as <-. apply find_some in Hf as [Hin Heq].
  apply String.eqb_eq in Heq. exists m. auto.
Qed.

(** X8.  When the first answer is the empty array and the direct link
    detection finds a link in the raw content of the selected candidate, the
    handler goes on as on a "Type 2" answer made of that link: the response
    is that of the "Type 2" branch run on the detected array, and the 500
    "Failed to parse AI response as JSON" when that branch raises. *)
Theorem detected_link_runs_type2 env zipData request zipcode info searchUrl
    searchAddress cand raw v :
  first_answer env zipData request zipcode info searchUrl searchAddress cand
    (VArr []) ->
  rawContent cand = Some raw -> is_empty raw = false ->
  detect_link searchAddress raw = Some v ->
  exists text link,
    v = VArr (detected text link) /\
    snd (POST env zipData request)
    = inner_try (type2_branch env zipcode info searchUrl searchAddress
                   (detected text link)).
Proof.
  intros Hfa Hraw Hne Hd.
  destruct (detect_link_shape _ _ _ Hd) as (m & _ & -> & _).
  exists (group 1 m), (group 2 m). split; [reflexivity|].
  rewrite (POST_first_answer _ _ _ _ _ _ _ _ _ Hfa).
  unfold inner_try, after_parse. rewrite snd_bind. simpl. rewrite snd_bind.
  rewrite Hraw, Hne. step_binds. rewrite Hd. simpl.
  unfold dispatch, detected. rewrite snd_bind. simpl. reflexivity.
Qed.

Lemma detected_link_runs_type2_witness :
  exists text link,
    detect_link (removeZipcode "8 Lynnbrook Road, 06824")
      "[8 Lynnbrook Road](https://gis.vgsi.com/fairfieldct/parcel.aspx?pid=2271)"
    = Some (VArr (detected text link)) /\
    snd (POST (sample_env (Val [candidate_with_link]) (Val (Some "[]"))
                 (Val (Some "sales"))
                 [("[]", VArr []); ("sales", VArr [sample_sale])])
           (module_load (Rows sample_rows))
           (sample_request "8 Lynnbrook Road, 06824"))
    = inner_try
        (type2_branch
           (sample_env (Val [candidate_with_link]) (Val (Some "[]"))
              (Val (Some "sales"))
              [("[]", VArr []); ("sales", VArr [sample_sale])])
           "06824" sample_info
           (make_searchUrl (toLowerCase "Fairfield") (toLowerCase "CT"))
           (removeZipcode "8 Lynnbrook Road, 06824") (detected text link)).
Proof.
  destruct (detected_link_runs_type2
              (sample_env (Val [candidate_with_link]) (Val (Some "[]"))
                 (Val (Some "sales"))
                 [("[]", VArr []); ("sales", VArr [sample_sale])])
              (module_load (Rows sample_rows))
              (sample_request "8 Lynnbrook Road, 06824")
              "06824" sample_info
              (make_searchUrl (toLowerCase "Fairfield") (toLowerCase "CT"))
              (removeZipcode "8 Lynnbrook Road, 06824") candidate_with_link
              "[8 Lynnbrook Road](https://gis.vgsi.com/fairfieldct/parcel.aspx?pid=2271)"
              (VArr (detected "8 Lynnbrook Road"
                       "https://gis.vgsi.com/fairfieldct/parcel.aspx?pid=2271")))
    as (text & link & Hv & Hr).
  - apply (sample_first_answer candidate_with_link "[]" (VArr [])); reflexivity.
  - reflexivity.
  - reflexivity.
  - vm_compute. reflexivity.
  - exists text, link. split; [|exact Hr].
    rewrite <- Hv. vm_compute. reflexivity.
Defined.

(** X9.  A request that the handler cannot read is answered 500, never 400:
    a body that is not JSON gives the message of the parser's exception; a
    body that is [null], or whose [address] is missing or not a string, gives
    the message of the engine's [TypeError]; so does a directory record whose
    city or state code is not a string. *)
Theorem unreadable_request_is_500 env zipData :
  (forall e,
     snd (POST env zipData (Throw e)) = error_response (errorMessage e) 500) /\
  (forall body,
     (forall address, prop "address" body <> VStr address) ->
     snd (POST env zipData (Val body))
     = error_response (typeErrorMessage env) 500) /\
  (forall body address zipcode info,
     prop "address" body = VStr address ->
     extractZipcode address = Some zipcode ->
     lookupZip zipData zipcode = Val (Some info) ->
     (forall cityS stateS, ~ (city info = VStr cityS /\ state_id info = VStr stateS)) ->
     snd (POST env zipData (Val body))
     = error_response (typeErrorMessage env) 500).
Proof.
  split; [|split].
  - intros e. now rewrite snd_POST, snd_POST_body.
  - intros body Hb. rewrite snd_POST, snd_POST_body. unfold POST_steps.
    destruct body; try reflexivity;
      (destruct (prop "address" _) eqn:E; try reflexivity; now destruct (Hb s)).
  - intros body address zipcode info Ha Hz Hl Hn.
    rewrite snd_POST, snd_POST_body. unfold POST_steps.
    destruct body; simpl in Ha; try discriminate.
    simpl. rewrite Ha, Hz, Hl.
    destruct (city info) eqn:Ec; try reflexivity.
    destruct (state_id info) eqn:Es; try reflexivity.
    destruct (Hn s s0). auto.
Qed.

Lemma unreadable_request_is_500_witness :
  snd (POST (sample_env (Val []) (Val None) (Val None) [])
         (module_load (Rows sample_rows)) (Val (VObj [("street", VStr "8 Lynnbrook Road")])))
  = error_response "TypeError" 500.
Proof.
  apply (proj1 (proj2 (unreadable_request_is_500
                         (sample_env (Val []) (Val None) (Val None) [])
                         (module_load (Rows sample_rows))))).
  intros address. discriminate.
Defined.

(** X10.  A directory loaded from a sheet whose zip cells are numbers (between
    0 and 99999) has five-character keys only, and the handler looks the
    extracted zip code up as it stands: an address whose zip code has the
    nine-digit form is answered 404, "County information not found for this
    zipcode", whatever the sheet holds for its first five digits. *)
Theorem nine_digit_zip_is_not_found env rows body address zipcode :
  (forall row, In row rows ->
     exists z, field "zip" row = VNum z /\ (0 <= z < 100000)%Z) ->
  prop "address" body = VStr address ->
  extractZipcode address = Some zipcode ->
  String.length zipcode = 10 ->
  snd (serve (Rows rows) env (Val body))
  = error_response "County information not found for this zipcode" 404.
Proof.
  intros Hrows Ha Hz Hlen. unfold serve.
  assert (Hl : lookupZip (module_load (Rows rows)) zipcode = Val None).
  { destruct (lookupZip (module_load (Rows rows)) zipcode) as [[info|]|e] eqn:E;
      [|reflexivity | discriminate].
    apply module_load_lookup in E as (rows' & row & Hr & Hin & _ & Hk & _).
    injection Hr as <-. destruct (Hrows row Hin) as (z & Hzr & Hrange).
    rewrite Hzr in Hk. pose proof (zip_key_five z Hrange) as Hd.
    apply digits_inv in Hd as [Hd _]. rewrite <- Hk in Hd. lia. }
  rewrite snd_POST, snd_POST_body. unfold POST_steps.
  generalize dependent (module_load (Rows rows)). intros st Hl.
  destruct body; simpl in Ha; try discriminate.
  simpl. now rewrite Ha, Hz, Hl.
Qed.

Lemma nine_digit_zip_is_not_found_witness :
  snd (serve (Rows sample_rows) (sample_env (Val []) (Val None) (Val None) [])
         (sample_request "8 Lynnbrook Road, 06824-1234"))
  = error_response "County information not found for this zipcode" 404.
Proof.
  apply (nine_digit_zip_is_not_found _ sample_rows _
           "8 Lynnbrook Road, 06824-1234" "06824-1234").
  - intros row [<-|[]]. exists 6824%Z. split; [reflexivity | lia].
  - reflexivity.
  - vm_compute. reflexivity.
  - reflexivity.
Defined.

(* ===================================================================== *)
(** * The comparison of addresses ([normalizeRd], [find_matching]) *)
(* ===================================================================== *)

Lemma toLowerCase_app a b : toLowerCase (a +:+ b) = toLowerCase a +:+ toLowerCase b.
Proof. induction a as [|c a IH]; simpl; [reflexivity | now rewrite IH]. Qed.

Lemma toLowerCase_length a : String.length (toLowerCase a) = String.length a.
Proof. induction a as [|c a IH]; simpl; [reflexivity | now rewrite IH]. Qed.

Lemma toLowerChar_space c : isSpace c = true -> toLowerChar c = c.
Proof. destruct c as [[] [] [] [] [] [] [] []]; vm_compute; congruence. Qed.

Lemma toLowerCase_spaces sp : all_chars isSpace sp = true -> toLowerCase sp = sp.
Proof.
  induction sp as [|c sp IH]; simpl; [reflexivity|]. intros H.
  apply andb_prop in H as [Hc H]. now rewrite (toLowerChar_space _ Hc), IH.
Qed.

Lemma all_chars_last (p : ascii -> bool) e : forall q,
  e <> "" -> all_chars p e = true -> exists c, last_char q e = Some c /\ p c = true.
Proof.
  induction e as [|x e IH]; intros q Hne H; [congruence|].
  simpl in H. apply andb_prop in H as [Hx H].
  destruct e as [|y e]; [simpl; eauto|].
  apply (IH (Some x)); [discriminate | exact H].
Qed.

(** [trimEnd] cuts a string into a text that does not end with white space
    and white space. *)
Lemma trimEnd_split s :
  exists ws,
    s = trimEnd s +:+ ws /\ all_chars isSpace ws = true /\
    forall p c, last_char p (trimEnd s) = Some c -> trimEnd s <> "" ->
                isSpace c = false.
Proof.
  induction s as [|x s (ws & Hs & Hws & Hlast)].
  - exists "". repeat split. intros p c _ H. now destruct H.
  - simpl. destruct (trimEnd s) as [|y t] eqn:Ht.
    + destruct (isSpace x) eqn:Hx.
      * exists (String x ws). simpl in Hs. subst ws.
        repeat split; [simpl; now rewrite Hx, Hws|]. intros p c _ H.
        now destruct H.
      * exists ws. simpl in Hs. subst s. simpl.
        repeat split; [assumption|]. intros p c H _. simpl in H. congruence.
    + exists ws. rewrite Hs at 1. repeat split; [assumption|].
      intros p c H _. simpl in H. apply (Hlast (Some x) c); [exact H | discriminate].
Qed.

Lemma app_eq_tail (a b c d : string) :
  a +:+ b = c +:+ d -> String.length b = String.length d -> a = c /\ b = d.
Proof.
  intros H Hl. apply app_eq_length; [exact H|].
  apply (f_equal String.length) in H. rewrite !app_length in H. lia.
Qed.

(** [search] stops at the first position where the matcher succeeds. *)
Lemma search_leftmost r prev pre rest :
  is_Some (exec_at r (last_char prev pre) rest) ->
  exists f, search r prev (pre +:+ rest) = Some f /\
            String.length (before f) <= String.length pre.
Proof.
  intros [g Hg]. destruct (search r prev (pre +:+ rest)) as [f|] eqn:Hs.
  - exists f. split; [reflexivity|].
    destruct (Nat.le_gt_cases (String.length (before f)) (String.length pre))
      as [|Hlt]; [assumption|].
    apply search_found in Hs as (_ & _ & Hleft).
    rewrite (Hleft pre rest eq_refl Hlt) in Hg. discriminate.
  - rewrite (search_nowhere _ _ _ Hs pre rest eq_refl) in Hg. discriminate.
Qed.

Lemma Matches_end_word_inv x prev m a cs :
  Matches (seqs [plus isSpace; lit_i x; Eol]) prev m a [] cs ->
  exists sp w,
    m = sp +:+ w /\ a = "" /\ sp <> "" /\ all_chars isSpace sp = true /\
    toLowerCase w = toLowerCase x.
Proof.
  cbn [seqs]. intros H.
  inversion H as [| | |? ? ? sp w' ? ? ? ? H1 H2| | | | | |]; subst; clear H.
  inversion H2 as [| | |? ? ? w e ? ? ? ? H3 H4| | | | | |]; subst; clear H2.
  inversion H4; subst; clear H4.
  apply Matches_plus_inv in H1 as (Hne & Hsp & _).
  apply Matches_lit_i_inv in H3 as (Hw & _).
  exists sp, w. rewrite app_nil_r. auto.
Qed.

(** The leftmost match of [/\s+x$/i] on a text that ends with white space
    and the word [x]: it starts where the white space starts. *)
Lemma search_end_word x pre sp w :
  x <> "" ->
  (forall c, last_char None pre = Some c -> pre <> "" -> isSpace c = false) ->
  sp <> "" -> all_chars isSpace sp = true ->
  toLowerCase w = toLowerCase x ->
  exists f,
    search (seqs [plus isSpace; lit_i x; Eol]) None (pre +:+ sp +:+ w) = Some f /\
    before f = pre /\ after f = "".
Proof.
  intros Hx Hpre Hne Hsp Hw.
  assert (Hm : Matches (seqs [plus isSpace; lit_i x; Eol]) (last_char None pre)
                 (sp +:+ w +:+ "") "" [] []).
  { cbn [seqs]. eapply M_Seq.
    - apply M_plus; assumption.
    - eapply M_Seq; [apply Matches_lit_i; assumption | constructor]. }
  apply exec_at_complete in Hm. rewrite !app_nil_r in Hm.
  destruct (search_leftmost _ None pre _ Hm) as (f & Hs & Hle).
  exists f. split; [exact Hs|].
  pose proof (search_found _ _ _ _ Hs) as (Hsplit & Hexec & _).
  apply exec_at_sound in Hexec as (_ & _ & Hmf). simpl in Hmf.
  apply Matches_end_word_inv in Hmf as (sp' & w' & Hmat & Haft & Hne' & Hsp' & Hw').
  split; [|exact Haft].
  rewrite Hmat, Haft, app_nil_r in Hsplit.
  rewrite <- !app_assoc in Hsplit.
  apply app_eq_tail in Hsplit as [Hsplit _].
  2:{ rewrite <- (toLowerCase_length w), <- (toLowerCase_length w'). congruence. }
  symmetry in Hsplit.
  destruct (app_eq_split _ _ _ _ Hsplit Hle) as (e & He & Hr).
  destruct e as [|y e]; [now rewrite app_nil_r in He|]. exfalso.
  rewrite Hr, all_chars_app in Hsp'. apply andb_prop in Hsp' as [He' _].
  destruct (all_chars_last isSpace (String y e) (last_char None (before f)))
    as (c & Hc & Hcs); [discriminate | exact He'|].
  rewrite <- last_char_app, <- He in Hc.
  rewrite (Hpre c Hc) in Hcs; [discriminate|].
  rewrite He. destruct (before f); discriminate.
Qed.

Lemma replace_end_word x by_ pre sp w :
  x <> "" ->
  (forall c, last_char None pre = Some c -> pre <> "" -> isSpace c = false) ->
  sp <> "" -> all_chars isSpace sp = true ->
  toLowerCase w = toLowerCase x ->
  replace (seqs [plus isSpace; lit_i x; Eol]) by_ (pre +:+ sp +:+ w) = pre +:+ by_.
Proof.
  intros Hx Hpre Hne Hsp Hw. unfold replace.
  destruct (search_end_word x pre sp w Hx Hpre Hne Hsp Hw) as (f & -> & -> & ->).
  now rewrite app_nil_r.
Qed.

(** [/\s+road$/i] does not match a text that ends with white space and
    "rd". *)
Lemma search_road_on_rd y sp w :
  sp <> "" -> all_chars isSpace sp = true -> toLowerCase w = "rd" ->
  search roadEndRegex None (y +:+ sp +:+ w) = None.
Proof.
  intros Hne Hsp Hw.
  destruct (search roadEndRegex None (y +:+ sp +:+ w)) as [f|] eqn:Hs;
    [exfalso | reflexivity].
  pose proof (search_found _ _ _ _ Hs) as (Hsplit & Hexec & _).
  apply exec_at_sound in Hexec as (_ & _ & Hmf). simpl in Hmf.
  apply Matches_end_word_inv in Hmf as (sp' & w' & Hmat & Haft & _ & _ & Hw').
  rewrite Hmat, Haft, app_nil_r in Hsplit.
  destruct w' as [|a1 [|a2 [|a3 [|a4 [|]]]]]; try discriminate.
  destruct w as [|b1 [|b2 [|]]]; try discriminate.
  simpl in Hw'. injection Hw' as _ Ho _ _.
  change (String a1 (String a2 (String a3 (String a4 ""))))
    with (String a1 (String a2 "") +:+ String a3 (String a4 "")) in Hsplit.
  rewrite <- !app_assoc in Hsplit.
  apply app_eq_tail in Hsplit as [Hsplit _]; [|reflexivity].
  apply (f_equal (last_char None)) in Hsplit.
  rewrite !last_char_app in Hsplit. simpl in Hsplit.
  destruct (all_chars_last isSpace sp (last_char None y) Hne Hsp) as (c & Hc & Hcs).
  rewrite Hc in Hsplit. injection Hsplit as ->.
  rewrite (toLowerChar_space _ Hcs) in Ho. subst a2. discriminate.
Qed.

(** The value of [normalizeRd] on a text that ends with white space and the
    word "road" or "rd", in any case. *)
Lemma normalizeRd_street b sp w :
  sp <> "" -> all_chars isSpace sp = true ->
  toLowerCase w = "road" \/ toLowerCase w = "rd" ->
  normalizeRd (b +:+ sp +:+ w)
  = trim (replaceAll spacesRegex " " (trimEnd (toLowerCase b) +:+ " rd")).
Proof.
  intros Hne Hsp Hw. unfold normalizeRd. do 2 f_equal.
  rewrite !toLowerCase_app, (toLowerCase_spaces _ Hsp).
  destruct (trimEnd_split (toLowerCase b)) as (ws & Hb & Hws & Hlast).
  remember (trimEnd (toLowerCase b)) as t eqn:Et.
  rewrite Hb, !app_assoc, <- (app_assoc ws sp).
  assert (Hsep : ws +:+ sp <> "" /\ all_chars isSpace (ws +:+ sp) = true).
  { rewrite all_chars_app, Hws, Hsp. split; [|reflexivity].
    destruct ws; [assumption | discriminate]. }
  destruct Hsep as [Hne' Hsp'].
  assert (Hpre : forall c, last_char None t = Some c -> t <> "" -> isSpace c = false)
    by (intros c Hc Hn; eapply Hlast; eauto).
  assert (Hrd : replace rdEndRegex " rd" (t +:+ " " +:+ "rd") = t +:+ " rd")
    by (apply (replace_end_word "rd"); try reflexivity; try discriminate;
        assumption).
  destruct Hw as [-> | ->].
  - assert (Hroad : replace roadEndRegex " rd" (t +:+ (ws +:+ sp) +:+ "road")
                    = t +:+ " rd")
      by (apply (replace_end_word "road"); try reflexivity; try discriminate;
          assumption).
    rewrite Hroad. exact Hrd.
  - unfold replace at 2.
    rewrite (search_road_on_rd _ _ "rd" Hne' Hsp' eq_refl).
    apply (replace_end_word "rd"); try reflexivity; try discriminate;
      assumption.
Qed.

(** X11.  [normalizeRd] makes no difference between "road" and "rd" at the
    end of an address, nor between upper and lower case, nor between the
    white space written before that last word: two addresses that agree up
    to case on the text before it are compared equal, as "8 Lynnbrook Road"
    and "8 LYNNBROOK  RD" are. *)
Theorem normalizeRd_road_is_rd b1 sp1 w1 b2 sp2 w2 :
  toLowerCase b1 = toLowerCase b2 ->
  sp1 <> "" -> all_chars isSpace sp1 = true ->
  sp2 <> "" -> all_chars isSpace sp2 = true ->
  toLowerCase w1 = "road" \/ toLowerCase w1 = "rd" ->
  toLowerCase w2 = "road" \/ toLowerCase w2 = "rd" ->
  normalizeRd (b1 +:+ sp1 +:+ w1) = normalizeRd (b2 +:+ sp2 +:+ w2).
Proof.
  intros Hb H1 H1' H2 H2' Hw1 Hw2.
  rewrite (normalizeRd_street b1 sp1 w1), (normalizeRd_street b2 sp2 w2) by assumption.
  now rewrite Hb.
Qed.

Lemma normalizeRd_road_is_rd_witness :
  normalizeRd ("8 Lynnbrook" +:+ " " +:+ "Road")
  = normalizeRd ("8 LYNNBROOK" +:+ "  " +:+ "RD").
Proof.
  apply normalizeRd_road_is_rd; try reflexivity; try discriminate.
  - left. reflexivity.
  - right. reflexivity.
Defined.

(** X12.  What [find_matching] ([parsedData.find]) returns is the first item
    of the array whose address is a non-empty string that [normalizeRd]
    makes equal to the search address; it returns nothing only when no item
    is such. *)
Theorem find_matching_first env searchAddress items :
  (forall item,
     snd (find_matching env searchAddress items) = Val (Some item) ->
     exists earlier later,
       items = earlier ++ item :: later /\
       matches_address searchAddress item = true /\
       Forall (fun x => matches_address searchAddress x = false) earlier) /\
  (snd (find_matching env searchAddress items) = Val None ->
   Forall (fun x => matches_address searchAddress x = false) items).
Proof.
  induction items as [|x items [IH1 IH2]]; (split; [intros item H|intros H]);
    simpl in H; try discriminate; try constructor.
  - assert (Hcases :
      (matches_address searchAddress x = true /\ item = x) \/
      (matches_address searchAddress x = false /\
       snd (find_matching env searchAddress items) = Val (Some item))).
    { unfold matches_address.
      destruct x; simpl in H |- *; try discriminate; auto.
      destruct (field "address" fields) as [| |[]|z|a|l|o] eqn:Ea; simpl in H |- *;
        try discriminate; auto.
      - destruct (z =? 0)%Z; simpl in H; [auto | discriminate].
      - destruct (is_empty a); simpl in H |- *; [auto|].
        destruct (String.eqb (normalizeRd searchAddress) (normalizeRd a));
          [left | auto].
        injection H as <-. auto. }
    destruct Hcases as [[Hm ->]|[Hm H']].
    + exists [], items. auto.
    + destruct (IH1 _ H') as (earlier & later & -> & Hi & He).
      exists (x :: earlier), later. auto.
  - unfold matches_address.
    destruct x; simpl in H |- *; try discriminate; auto.
    destruct (field "address" fields) as [| |[]|z|a|l|o]; simpl in H |- *;
      try discriminate; auto.
    destruct (is_empty a); simpl in H |- *; [auto|].
    destruct (String.eqb (normalizeRd searchAddress) (normalizeRd a));
      [discriminate | auto].
  - apply IH2. destruct x; simpl in H; try discriminate; auto.
    destruct (field "address" fields) as [| |[]|z|a|l|o]; simpl in H;
      try discriminate; auto.
    + destruct (z =? 0)%Z; simpl in H; [auto | discriminate].
    + destruct (is_empty a); simpl in H; [auto|].
      destruct (String.eqb (normalizeRd searchAddress) (normalizeRd a));
        [discriminate | auto].
Qed.

Lemma find_matching_first_witness :
  exists earlier later,
    sample_type2
    = earlier ++ VObj [("address", VStr "8 LYNNBROOK RD");
                       ("link", VStr "https://gis.vgsi.com/fairfieldct/Parcel.aspx?pid=2271")]
              :: later /\
    Forall (fun x => matches_address "8 Lynnbrook Road" x = false) earlier.
Proof.
  destruct (proj1 (find_matching_first
                     (sample_env (Val []) (Val None) (Val None) [])
                     "8 Lynnbrook Road" sample_type2)
              (VObj [("address", VStr "8 LYNNBROOK RD");
                     ("link", VStr "https://gis.vgsi.com/fairfieldct/Parcel.aspx?pid=2271")]))
    as (earlier & later & H1 & _ & H3).
  - vm_compute. reflexivity.
  - exists earlier, later. split; assumption.
Defined.

(* ===================================================================== *)
(** * The links read in the raw content *)
(* ===================================================================== *)

(** Every match that a scan reports is a match of the expression at a
    position of the text. *)
Lemma scan_hits r s : forall prev skip w cs,
  In (Hit w cs) (scan r prev s skip) ->
  exists pre post,
    s = pre +:+ w +:+ post /\ Matches r (last_char prev pre) w post [] cs.
Proof.
  assert (Hhead : forall prev t f,
            exec_at r prev t = Some f ->
            exists pre post,
              t = pre +:+ matched f +:+ post /\
              Matches r (last_char prev pre) (matched f) post [] (groups f)).
  { intros prev t f Hf. apply exec_at_sound in Hf as (_ & Ht & Hm).
    exists "", (after f). auto. }
  assert (Hshift : forall c t prev w cs,
            (exists pre post,
               t = pre +:+ w +:+ post /\
               Matches r (last_char (Some c) pre) w post [] cs) ->
            exists pre post,
              String c t = pre +:+ w +:+ post /\
              Matches r (last_char prev pre) w post [] cs).
  { intros c t prev w cs (pre & post & -> & Hm). exists (String c pre), post. auto. }
  induction s as [|c s IH]; intros prev skip w cs Hin.
  - destruct skip; simpl in Hin; [|contradiction].
    destruct (exec_at r prev "") as [f|] eqn:Hf; [|contradiction].
    destruct Hin as [Hin|[]]. injection Hin as <- <-. eauto.
  - destruct skip as [|n]; cbn [scan] in Hin.
    + destruct (exec_at r prev (String c s)) as [f|] eqn:Hf.
      * destruct Hin as [Hin|Hin]; [injection Hin as <- <-; eauto|].
        apply Hshift.
        destruct (String.length (matched f)); [|eauto].
        destruct Hin as [Hin|Hin]; [discriminate | eauto].
      * destruct Hin as [Hin|Hin]; [discriminate|]. apply Hshift. eauto.
    + apply Hshift. eauto.
Qed.

Lemma matchAll_hits r s w cs :
  In (w, cs) (matchAll r s) ->
  exists pre post,
    s = pre +:+ w +:+ post /\ Matches r (last_char None pre) w post [] cs.
Proof.
  unfold matchAll. intros H. apply (scan_hits r s None 0).
  induction (scan r None s 0) as [|[c|w' cs'] l IH]; simpl in H; [contradiction| |].
  - right. auto.
  - destruct H as [H|H]; [injection H as -> ->; now left | right; auto].
Qed.

Lemma Matches_lit_inv x : forall prev w rest cs cs',
  Matches (lit x) prev w rest cs cs' -> w = x /\ cs' = cs.
Proof.
  induction x as [|c x IH]; intros prev w rest cs cs' H.
  - simpl in H. inv_matches. auto.
  - destruct x as [|c' x].
    + simpl in H. inv_matches.
      match goal with H : eqc _ _ = true |- _ => apply eqc_true in H; subst end.
      auto.
    + change (lit (String c (String c' x)))
        with (Seq (Chr (eqc c)) (lit (String c' x))) in H.
      inversion H as [| | |? ? ? w1 w2 ? ? ? ? H1 H2| | | | | |]; subst; clear H.
      inversion H1 as [|? ? d ? ? Hd| | | | | | | |]; subst; clear H1.
      apply IH in H2 as [-> ->]. apply eqc_true in Hd. now subst.
Qed.

(** What the pattern of the direct link detection matches. *)
Lemma Matches_direct_link_inv prev w rest cs :
  Matches directLinkRegex prev w rest [] cs ->
  exists text path pid,
    w = link_text text (parcel_url path pid) /\
    cs = [(2, parcel_url path pid); (1, text)] /\
    text <> "" /\ all_chars (neqc "]") text = true /\
    path <> "" /\ all_chars (neqc ")") path = true /\
    pid <> "" /\ all_chars isDigit pid = true.
Proof.
  unfold directLinkRegex. cbn [seqs]. intros H. inv_matches.
  repeat match goal with
  | H : Matches (plus _) _ _ _ _ _ |- _ =>
      apply Matches_plus_inv in H as (? & ? & ?); subst
  | H : Matches (lit _) _ _ _ _ _ |- _ =>
      apply Matches_lit_inv in H as (? & ?); subst
  | H : eqc _ _ = true |- _ => apply eqc_true in H; subst
  end.
  eexists _, _, _. unfold link_text, parcel_url.
  repeat split; try eassumption; try reflexivity.
Qed.

(** X13.  The direct link detection invents nothing: the array that it
    answers holds the text and the URL of a link that occurs in the raw
    content as "[text](URL)", the URL is "https://", a path, then
    "parcel.aspx?pid=" and a number, and the text, lower-cased, with its
    white space collapsed and trimmed, is the normalised search address. *)
Theorem detect_link_occurs searchAddress rawContent v :
  detect_link searchAddress rawContent = Some v ->
  exists text path pid pre post,
    v = VArr (detected text (parcel_url path pid)) /\
    rawContent = pre +:+ link_text text (parcel_url path pid) +:+ post /\
    path <> "" /\ pid <> "" /\ all_chars isDigit pid = true /\
    trim (replaceAll spacesRegex " " (toLowerCase text))
    = normalizeSearchAddress searchAddress.
Proof.
  intros H. destruct (detect_link_shape _ _ _ H) as ([w cs] & Hin & -> & Heq).
  apply matchAll_hits in Hin as (pre & post & Hraw & Hm).
  apply Matches_direct_link_inv in Hm
    as (text & path & pid & -> & -> & _ & _ & Hpath & _ & Hpid & Hdig).
  exists text, path, pid, pre, post. unfold group in *. simpl in *. auto 10.
Qed.

Lemma detect_link_occurs_witness :
  exists text path pid pre post,
    "See [8 Lynnbrook Road](https://gis.vgsi.com/fairfieldct/parcel.aspx?pid=2271)."
    = pre +:+ link_text text (parcel_url path pid) +:+ post /\
    all_chars isDigit pid = true.
Proof.
  destruct (detect_link_occurs "8 Lynnbrook Road"
              "See [8 Lynnbrook Road](https://gis.vgsi.com/fairfieldct/parcel.aspx?pid=2271)."
              (VArr (detected "8 Lynnbrook Road"
                       "https://gis.vgsi.com/fairfieldct/parcel.aspx?pid=2271")))
    as (text & path & pid & pre & post & _ & H2 & _ & _ & H5 & _).
  - vm_compute. reflexivity.
  - exists text, path, pid, pre, post. split; assumption.
Defined.

(** What the pattern of [findParcelUrl] matches. *)
Lemma Matches_link_parcel prev w rest cs :
  Matches linkRegex prev w rest [] cs ->
  exists text u1 pa u2,
    w = link_text text (u1 +:+ pa +:+ u2) /\
    cs = [(2, u1 +:+ pa +:+ u2); (1, text)] /\
    text <> "" /\ u1 <> "" /\ u2 <> "" /\ toLowerCase pa = "parcel.aspx".
Proof.
  unfold linkRegex. cbn [seqs]. intros H. inv_matches.
  repeat match goal with
  | H : Matches (plus _) _ _ _ _ _ |- _ =>
      apply Matches_plus_inv in H as (? & ? & ?); subst
  | H : Matches (lit_i _) _ _ _ _ _ |- _ =>
      apply Matches_lit_i_inv in H as (? & ?); subst
  | H : eqc _ _ = true |- _ => apply eqc_true in H; subst
  end.
  eexists _, _, _, _. unfold link_text.
  repeat split; try eassumption; try reflexivity.
  simpl.
  repeat match goal with
  | H : ci _ _ = true |- _ => apply Ascii.eqb_eq in H; rewrite H; clear H
  end.
  reflexivity.
Qed.

(** X14.  A URL that [findParcelUrl] returns comes from the raw content.
    Either its loop found it: the content holds a link "[text](URL)" whose
    URL contains "parcel.aspx" in some case, with text before and after it,
    and whose text, lower-cased, is one of the five variations of the
    normalised address.  Or the fallback found it: the normalised address
    starts with a house number and the URL is the first capture of the
    expression compiled from the house number and the street name. *)
Theorem findParcelUrl_url_occurs regexp searchAddress rawContent u :
  findParcelUrl regexp searchAddress rawContent = Val (Some u) ->
  (exists text pre post u1 pa u2,
     rawContent = pre +:+ link_text text u +:+ post /\
     In (toLowerCase text) (addressVariations (normalizeSearchAddress searchAddress)) /\
     u = u1 +:+ pa +:+ u2 /\ u1 <> "" /\ u2 <> "" /\
     toLowerCase pa = "parcel.aspx") \/
  (exists addressParts m,
     search addressPartsRegex None (normalizeSearchAddress searchAddress)
     = Some addressParts /\
     regexp (simpleMatchSource (default "" (capture 1 (groups addressParts)))
                               (default "" (capture 2 (groups addressParts))))
            rawContent = Val (Some m) /\
     m !! 1 = Some (Some u)).
Proof.
  unfold findParcelUrl.
  destruct (List.find _ (links rawContent)) as [link|] eqn:Hf.
  - intros H. injection H as <-. left.
    apply find_some in Hf as [Hin Hvar].
    unfold links in Hin. apply in_map_iff in Hin as ([w cs] & <- & Hin).
    apply matchAll_hits in Hin as (pre & post & Hraw & Hm).
    apply Matches_link_parcel in Hm
      as (text & u1 & pa & u2 & -> & -> & _ & Hu1 & Hu2 & Hpa).
    exists text, pre, post, u1, pa, u2. unfold group. simpl.
    repeat split; try assumption.
    unfold is_variation in Hvar. apply existsb_exists in Hvar as (x & Hx & Heq).
    apply String.eqb_eq in Heq. unfold group in Heq. simpl in Heq. now subst x.
  - destruct (search addressPartsRegex None _) as [parts|] eqn:Hs; [|discriminate].
    destruct (regexp _ rawContent) as [[m|]|e] eqn:Hr; try discriminate.
    intros H. injection H as H. right. exists parts, m.
    repeat split; [exact Hr|].
    destruct (m !! 1) as [[x|]|]; simpl in H; try discriminate. now injection H as ->.
Qed.

Lemma findParcelUrl_url_occurs_witness :
  exists text pre post,
    "See [8 LYNNBROOK ROAD](https://gis.vgsi.com/fairfieldct/Parcel.aspx?pid=2271)."
    = pre +:+ link_text text "https://gis.vgsi.com/fairfieldct/Parcel.aspx?pid=2271"
          +:+ post /\
    In (toLowerCase text)
       (addressVariations (normalizeSearchAddress "8 Lynnbrook Road")).
Proof.
  destruct (findParcelUrl_url_occurs (fun _ _ => Val None) "8 Lynnbrook Road"
              "See [8 LYNNBROOK ROAD](https://gis.vgsi.com/fairfieldct/Parcel.aspx?pid=2271)."
              "https://gis.vgsi.com/fairfieldct/Parcel.aspx?pid=2271")
    as [(text & pre & post & u1 & pa & u2 & H1 & H2 & _)|(parts & m & _ & Hm & _)].
  - vm_compute. reflexivity.
  - exists text, pre, post. split; assumption.
  - discriminate.
Defined.

(* ===================================================================== *)
(** * More on [findParcelUrl], on bare zip codes and on the error messages *)
(* ===================================================================== *)

Lemma search_addressParts_inside s : forall c,
  search addressPartsRegex (Some c) s = None.
Proof. induction s as [|d s IH]; intros c; simpl; [reflexivity | now rewrite IH]. Qed.

Lemma search_addressParts_no_number s :
  (forall c, first_char s = Some c -> isDigit c = false) ->
  search addressPartsRegex None s = None.
Proof.
  intros H. destruct s as [|c s]; [reflexivity|].
  cbn [search]. unfold exec_at at 1. cbn. rewrite (H c eq_refl).
  now rewrite search_addressParts_inside.
Qed.

(** X15.  The fallback of [findParcelUrl] needs a house number: when the
    normalised address does not start with a digit, no expression is
    compiled and the result is that of the loop alone, the URL of the first
    link whose text is a variation of the address, or [null]. *)
Theorem findParcelUrl_needs_house_number regexp searchAddress rawContent :
  (forall c, first_char (normalizeSearchAddress searchAddress) = Some c ->
             isDigit c = false) ->
  findParcelUrl regexp searchAddress rawContent
  = Val (snd <$> List.find (is_variation searchAddress) (links rawContent)).
Proof.
  intros H. unfold findParcelUrl.
  rewrite (search_addressParts_no_number _ H).
  destruct (List.find _ _); reflexivity.
Qed.

Lemma findParcelUrl_needs_house_number_witness :
  findParcelUrl (fun _ _ => Throw (ErrorObj "Invalid regular expression"))
    "Lynnbrook Road"
    "See [8 LYNNBROOK ROAD](https://gis.vgsi.com/fairfieldct/Parcel.aspx?pid=2271)."
  = Val None.
Proof.
  rewrite findParcelUrl_needs_house_number.
  - vm_compute. reflexivity.
  - intros c H. vm_compute in H. injection H as <-. reflexivity.
Defined.

Lemma includes_empty s : includes s "" = true.
Proof. destruct s; reflexivity. Qed.

Lemma filter_all {X} (p : X -> bool) l :
  (forall x, p x = true) -> List.filter p l = l.
Proof.
  intros H. induction l as [|x l IH]; simpl; [reflexivity|]. now rewrite H, IH.
Qed.

(** X16.  An address that is a bare zip code is not rejected: the zip code
    is the whole address, the search address is empty, every candidate
    "mentions" it, and the candidate used is the best-scored one. *)
Theorem bare_zip_searches_everything zipcode results :
  zip_shaped zipcode ->
  extractZipcode zipcode = Some zipcode /\
  removeZipcode zipcode = "" /\
  select_result (removeZipcode zipcode) results = head (sort_by_score results).
Proof.
  intros Hz. destruct (exec_at_zip_whole None zipcode Hz eq_refl) as (cs & He).
  assert (Hs : search zipcodeRegex None zipcode = Some (Found "" zipcode "" cs))
    by (destruct zipcode; cbn [search]; now rewrite He).
  assert (Hr : removeZipcode zipcode = "").
  { unfold removeZipcode, replace.
    destruct (search_remove_some _ _ _ Hs) as (f & -> & -> & ->). reflexivity. }
  split; [unfold extractZipcode; now rewrite Hs|]. split; [exact Hr|].
  rewrite Hr. unfold select_result.
  destruct (sort_by_score results) as [|best more]; [reflexivity|].
  rewrite filter_all; [reflexivity|].
  intros x. unfold mentions. simpl. apply includes_empty.
Qed.

Lemma bare_zip_searches_everything_witness :
  extractZipcode "06824" = Some "06824" /\
  removeZipcode "06824" = "" /\
  select_result (removeZipcode "06824") [candidate_lower; candidate_upper]
  = head (sort_by_score [candidate_lower; candidate_upper]).
Proof.
  apply bare_zip_searches_everything. apply zip_five. reflexivity.
Defined.




(* ===================================================================== *)
(** * Where the message of a 500 response comes from *)
(* ===================================================================== *)

Section SuccessOnly.
Variable env : Env.
Variables (zipcode : string) (info : ZipInfo) (searchUrl searchAddress : string).

#[local] Abbreviation succeeds :=
  (fun r : Response => exists ts, r = success zipcode info searchUrl ts).

Lemma second_pass_succeeds analysed :
  yields succeeds (second_pass env zipcode info searchUrl analysed).
Proof.
  unfold second_pass. apply yields_bind; intros _ _.
  apply yields_bind; intros [c|] Hc; [|apply yields_throw].
  destruct (is_empty c); [apply yields_throw|].
  apply yields_bind; intros _ _. apply yields_bind; intros v Hv.
  destruct v as [| | | | |[|t ts]|];
    apply yields_bind; intros _ _; apply yields_ret; eauto.
Qed.

Lemma type2_branch_succeeds parsedData :
  yields succeeds (type2_branch env zipcode info searchUrl searchAddress parsedData).
Proof.
  unfold type2_branch. apply yields_bind; intros _ _.
  apply yields_bind; intros m _.
  destruct (negb _); [apply yields_throw|].
  apply yields_bind; intros _ _. apply yields_bind; intros [|r l] _;
    [apply yields_throw|].
  destruct (is_empty _); [apply yields_throw | apply second_pass_succeeds].
Qed.

Lemma type3_branch_succeeds parsedData :
  yields succeeds (type3_branch env zipcode info searchUrl parsedData).
Proof.
  unfold type3_branch. apply yields_bind; intros _ _.
  destruct parsedData as [|first rest]; [apply yields_throw|].
  destruct first; try apply yields_throw;
    (destruct (negb _); [apply yields_throw | apply second_pass_succeeds]).
Qed.

Lemma dispatch_succeeds parsedData :
  yields succeeds (dispatch env zipcode info searchUrl searchAddress parsedData).
Proof.
  assert (Hno : yields succeeds (no_valid_type zipcode info searchUrl)).
  { unfold no_valid_type. apply yields_bind; intros _ _. apply yields_ret. eauto. }
  unfold dispatch.
  destruct parsedData as [| | | | |[|first rest]|]; try exact Hno.
  apply yields_bind; intros _ _. fold (tag_of first).
  destruct (is_str "Type 1" (tag_of first)).
  { apply yields_bind; intros _ _. apply yields_ret. eauto. }
  destruct (is_str "Type 2" (tag_of first) || is_str "Type 3" (tag_of first));
    [apply type2_branch_succeeds|].
  destruct (is_str "Type 3" (tag_of first));
    [apply type3_branch_succeeds | exact Hno].
Qed.

Lemma after_parse_succeeds resultToUse parsedData :
  yields succeeds
    (after_parse env zipcode info searchUrl searchAddress resultToUse parsedData).
Proof.
  unfold after_parse. apply yields_bind; intros _ _.
  apply yields_bind; intros pd _. apply dispatch_succeeds.
Qed.

(** A 500 of [completion] carries one of three messages. *)
Lemma completion_message resultToUse m :
  snd (completion env zipcode info searchUrl searchAddress resultToUse)
  = Val (error_response m 500) ->
  m = "Failed to parse AI response as JSON" \/
  m = "No content received from AI model" \/
  exists e, ai_first env searchAddress resultToUse = Throw e /\ m = errorMessage e.
Proof.
  unfold completion. rewrite snd_try_catch, snd_bind. simpl.
  rewrite snd_bind. unfold lift at 1. simpl.
  destruct (ai_first env searchAddress resultToUse) as [[c|]|e] eqn:Hc.
  - rewrite snd_bind. simpl. destruct (is_empty c).
    + step_binds. intros H. injection H as <-. auto.
    + rewrite snd_try_catch, snd_bind. unfold lift. simpl.
      destruct (JSON_parse env c) as [pd|e].
      * pose proof (after_parse_succeeds resultToUse pd) as Hy. unfold yields in Hy.
        destruct (snd (after_parse _ _ _ _ _ _ pd)) as [r|e'].
        -- destruct Hy as (ts & ->). discriminate.
        -- step_binds. intros H. injection H as <-. auto.
      * step_binds. intros H. injection H as <-. auto.
  - step_binds. intros H. injection H as <-. auto.
  - step_binds. intros H. injection H as <-. eauto.
Qed.
End SuccessOnly.

(** X18.  The message of a 500 response is the message of an exception of
    the request, of the search or of the first completion, the message of
    the engine's [TypeError], "ZIP database not initialized", "No content
    received from AI model" or "Failed to parse AI response as JSON".  The
    failures that come after the first completion has answered (no matching
    link, nothing extracted, no second answer, an exception of the extract
    call, of the second completion or of [JSON.parse]) are all reported with
    the last message, their own messages do not reach the client: when the
    first answer, as the dispatch reads it, is tagged "Type 2" or "Type 3",
    the response is the 500 with "Failed to parse AI response as JSON"
    exactly when a step of the "Type 2" branch fails. *)
Theorem server_error_messages env zipData request m :
  (snd (POST env zipData request) = error_response m 500 ->
   m = "Failed to parse AI response as JSON" \/
   m = "No content received from AI model" \/
   m = typeErrorMessage env \/
   m = "ZIP database not initialized" \/
   (exists e, request = Throw e /\ m = errorMessage e) \/
   (exists query e, tavily_search env query = Throw e /\ m = errorMessage e) \/
   (exists searchAddress r e,
      ai_first env searchAddress r = Throw e /\ m = errorMessage e)) /\
  (forall zipcode info searchUrl searchAddress cand parsedData first rest,
     first_answer env zipData request zipcode info searchUrl searchAddress cand
       parsedData ->
     dispatched searchAddress cand parsedData = VArr (first :: rest) ->
     is_str "Type 2" (tag_of first) = true \/
     is_str "Type 3" (tag_of first) = true ->
     (type2_failure env searchAddress (first :: rest) <->
      snd (POST env zipData request)
      = error_response "Failed to parse AI response as JSON" 500)).
Proof.
  split.
  2:{ intros zipcode info searchUrl searchAddress cand parsedData first rest
             Hfa Hd Htag.
      destruct (type2_response _ _ _ _ _ _ _ _ _ _ _ Hfa Hd Htag)
        as [(Hf & H)|(Hn & ts & H)].
      - split; auto.
      - split; [contradiction|]. rewrite H. intros Heq.
        apply (f_equal status) in Heq. discriminate. }
  rewrite snd_POST, snd_POST_body.
  assert (Hmain : forall address,
    match POST_steps env zipData (Val (VObj [("address", VStr address)])) with
    | Val r => r
    | Throw e => error_response (errorMessage e) 500
    end = error_response m 500 ->
    m = "Failed to parse AI response as JSON" \/
    m = "No content received from AI model" \/
    m = typeErrorMessage env \/
    m = "ZIP database not initialized" \/
    (exists e, request = Throw e /\ m = errorMessage e) \/
    (exists query e, tavily_search env query = Throw e /\ m = errorMessage e) \/
    (exists searchAddress r e,
       ai_first env searchAddress r = Throw e /\ m = errorMessage e)).
  { intros address. unfold POST_steps. simpl.
    destruct (extractZipcode address) as [zipcode|]; [|discriminate].
    destruct zipData as [zm|]; simpl.
    2:{ intros H. injection H as <-. auto. }
    destruct (zm !! zipcode) as [info|]; [|discriminate].
    destruct (city info) as [| | | |cityS| |];
      try solve [intros H; injection H as <-; auto 10].
    destruct (state_id info) as [| | | |stateS| |];
      try solve [intros H; injection H as <-; auto 10].
    rewrite snd_search_step.
    destruct (tavily_search env _) as [results|e] eqn:Hs;
      [|intros H; injection H as <-; eauto 10].
    destruct (select_result _ results) as [cand|]; [|discriminate].
    destruct (completion_returns env zipcode info
                (make_searchUrl (toLowerCase cityS) (toLowerCase stateS))
                (removeZipcode address) cand) as [resp Hresp].
    rewrite Hresp. intros ->. apply completion_message in Hresp.
    destruct Hresp as [->|[->|(e & He & ->)]]; auto 10.
    do 6 right. eauto. }
  destruct request as [body|e]; [|intros H; injection H as <-; eauto 10].
  destruct body; try solve [intros H; injection H as <-; auto 10].
  unfold POST_steps. simpl.
  destruct (field "address" fields) as [| | | |address| |] eqn:Ha;
    try solve [intros H; injection H as <-; auto 10].
  specialize (Hmain address). unfold POST_steps in Hmain. simpl in Hmain.
  exact Hmain.
Qed.

Lemma server_error_messages_witness :
  ("Failed to parse AI response as JSON" = "Failed to parse AI response as JSON" \/
   "Failed to parse AI response as JSON" = "No content received from AI model" \/
   "Failed to parse AI response as JSON" = "TypeError" \/
   "Failed to parse AI response as JSON" = "ZIP database not initialized" \/
   (exists e, sample_request "8 Lynnbrook Road, 06824" = Throw e /\
              "Failed to parse AI response as JSON" = errorMessage e) \/
   (exists query e,
      tavily_search (sample_env (Val [sample_candidate]) (Val (Some "not json"))
                       (Val None) []) query = Throw e /\
      "Failed to parse AI response as JSON" = errorMessage e) \/
   (exists searchAddress r e,
      ai_first (sample_env (Val [sample_candidate]) (Val (Some "not json"))
                  (Val None) []) searchAddress r = Throw e /\
      "Failed to parse AI response as JSON" = errorMessage e)) /\
  snd (POST (sample_env (Val [sample_candidate]) (Val (Some "type 2"))
               (Val None) [("type 2", VArr sample_type2)])
         (module_load (Rows sample_rows))
         (sample_request "8 Lynnbrook Road, 06824"))
  = error_response "Failed to parse AI response as JSON" 500 /\
  type2_failure
    (sample_env (Val [candidate_with_link]) (Val (Some "[]"))
       (Throw (ErrorObj "503 Service Unavailable")) [("[]", VArr [])])
    (removeZipcode "8 Lynnbrook Road, 06824")
    (detected "8 Lynnbrook Road"
       "https://gis.vgsi.com/fairfieldct/parcel.aspx?pid=2271").
Proof.
  split; [|split].
  - apply (proj1 (server_error_messages
                    (sample_env (Val [sample_candidate]) (Val (Some "not json"))
                       (Val None) [])
                    (module_load (Rows sample_rows))
                    (sample_request "8 Lynnbrook Road, 06824")
                    "Failed to parse AI response as JSON")).
    vm_compute. reflexivity.
  - apply (proj1 (proj2 (server_error_messages
                    (sample_env (Val [sample_candidate]) (Val (Some "type 2"))
                       (Val None) [("type 2", VArr sample_type2)])
                    (module_load (Rows sample_rows))
                    (sample_request "8 Lynnbrook Road, 06824") "")
                   _ _ _ _ _ _ _ _
                   (sample_first_answer sample_candidate "type 2"
                      (VArr sample_type2) (Val None)
                      [("type 2", VArr sample_type2)] eq_refl eq_refl)
                   eq_refl (or_introl eq_refl))).
    vm_compute. right. right. exact I.
  - apply (proj2 (proj2 (server_error_messages
                    (sample_env (Val [candidate_with_link]) (Val (Some "[]"))
                       (Throw (ErrorObj "503 Service Unavailable"))
                       [("[]", VArr [])])
                    (module_load (Rows sample_rows))
                    (sample_request "8 Lynnbrook Road, 06824") "")
                   _ _ _ _ _ _ _ _
                   (sample_first_answer candidate_with_link "[]"
                      (VArr []) (Throw (ErrorObj "503 Service Unavailable"))
                      [("[]", VArr [])] eq_refl eq_refl)
                   eq_refl (or_introl eq_refl))).
    vm_compute. reflexivity.
Defined.

(* ===================================================================== *)
(** * The search form *)
(* ===================================================================== *)

(** X19.  The state that [handleSearch] leaves when a search on a non-blank
    address has settled, whatever the request gave: [loading] is [false]; no
    step is left pending; either [error] is [null], [result] is set and the
    three steps are complete, or [error] is set (to a string that may be
    empty), [result] is [null], and the last step (the first or the second
    one) is marked as an error; [stepCounter] is the number of steps; and
    all the steps carry the same [id], made with the counter of the render
    that started the search.  The statement is about the state variables,
    not about what the component renders from them. *)
Theorem handleSearch_settles w rendered :
  is_empty (trim (AddressSearch.address rendered)) = false ->
  let st := AddressSearch.handleSearch w rendered in
  AddressSearch.loading st = false /\
  AddressSearch.address st = AddressSearch.address rendered /\
  AddressSearch.stepCounter st = length (AddressSearch.steps st) /\
  Forall (fun s => AddressSearch.id s
                   = "step-" +:+ number_toString
                                   (Z.of_nat (AddressSearch.stepCounter rendered)))
         (AddressSearch.steps st) /\
  ((AddressSearch.error st = None /\ AddressSearch.result st <> None /\
    length (AddressSearch.steps st) = 3 /\
    Forall (fun s => AddressSearch.status s = "complete") (AddressSearch.steps st))
   \/
   (AddressSearch.error st <> None /\ AddressSearch.result st = None /\
    exists done last,
      AddressSearch.steps st = done ++ [last] /\
      AddressSearch.status last = "error" /\ length done <= 1 /\
      Forall (fun s => AddressSearch.status s = "complete") done)).
Proof.
  intros Hne. unfold AddressSearch.handleSearch. rewrite Hne.
  unfold AddressSearch.after_fetch, AddressSearch.before_fetch.
  destruct (fetch w (AddressSearch.address rendered)) as [[o [data|e]]|e]; simpl.
  2,3: repeat split; auto; right; repeat split; try discriminate;
       exists [], (first_step w rendered "error"); repeat split; auto.
  destruct o; simpl.
  - assert (Hfail :
      forall m,
        let st := AddressSearch.setLoading false
          (AddressSearch.updateLastStep "error"
            (AddressSearch.setError (Some m)
              (AddressSearch.addStep rendered (clock w 1)
                 "Found location information" "complete"
                 (AddressSearch.updateLastStep "complete"
                    (AddressSearch.before_fetch w rendered))))) in
        AddressSearch.error st <> None /\ AddressSearch.result st = None /\
        exists done last,
          AddressSearch.steps st = done ++ [last] /\
          AddressSearch.status last = "error" /\ length done <= 1 /\
          Forall (fun s => AddressSearch.status s = "complete") done).
    { intros m. simpl. repeat split; try discriminate.
      eexists [_], _. simpl. repeat split; auto. }
    destruct data; simpl;
      try (repeat split; auto; right; apply Hfail);
      try match goal with
      | |- context [truthy ?t && AddressSearch.length_positive w ?t] =>
          destruct (truthy t && AddressSearch.length_positive w t); simpl
      end;
      repeat split; auto; left; repeat split; auto; discriminate.
  - destruct data; simpl; repeat split; auto; right; repeat split;
      try discriminate;
      exists [], (first_step w rendered "error"); repeat split; auto.
Qed.

Lemma handleSearch_settles_witness :
  AddressSearch.loading
    (AddressSearch.handleSearch
       (sample_browser (fun _ => Throw (ErrorObj "Failed to fetch")))
       (AddressSearch.setAddress "8 Lynnbrook Road, 06824" AddressSearch.initial))
  = false.
Proof.
  apply (handleSearch_settles
           (sample_browser (fun _ => Throw (ErrorObj "Failed to fetch")))
           (AddressSearch.setAddress "8 Lynnbrook Road, 06824" AddressSearch.initial)).
  vm_compute. reflexivity.
Defined.

Lemma wire_error_body m : wire (VObj [("error", VStr m)]) = VObj [("error", VStr m)].
Proof. reflexivity. Qed.

(** X20.  The form in front of the route handler, on an address that is not
    blank: when the handler answers another status than 200, the form shows
    the message of the response body (and "Failed to process address" when
    that message is empty), shows no result, stops loading and is left with
    the single step "Processing address and extracting ZIP code...", marked
    as an error. *)
Theorem form_shows_handler_error file env w rendered :
  fetch w = server_fetch file env ->
  is_empty (trim (AddressSearch.address rendered)) = false ->
  let r := snd (serve file env
                  (Val (VObj [("address", VStr (AddressSearch.address rendered))]))) in
  let st := AddressSearch.handleSearch w rendered in
  status r <> 200 ->
  exists m,
    body r = VObj [("error", VStr m)] /\
    AddressSearch.error st
    = Some (if is_empty m then "Failed to process address" else m) /\
    AddressSearch.result st = None /\
    AddressSearch.loading st = false /\
    AddressSearch.steps st = [first_step w rendered "error"].
Proof.
  intros Hfetch Hne. cbv zeta. unfold serve.
  pose proof (POST_outcome env (module_load file)
                (Val (VObj [("address", VStr (AddressSearch.address rendered))])))
    as Hout.
  unfold AddressSearch.handleSearch. rewrite Hne.
  unfold AddressSearch.after_fetch. rewrite Hfetch. unfold server_fetch, serve.
  cbv zeta in Hout.
  destruct Hout as [(m & code & -> & Hcode)|(a & z & i & c & s & ts & _ & -> & _)].
  2:{ intros H. now destruct H. }
  intros _. exists m. split; [reflexivity|].
  rewrite status_error_response, body_error_response, wire_error_body.
  assert (Hok : (200 <=? code) && (code <=? 299) = false)
    by (destruct Hcode as [-> |[-> | ->]]; reflexivity).
  rewrite Hok. cbn [json ok negb]. simpl.
  destruct (is_empty m); simpl; auto.
Qed.

Lemma form_shows_handler_error_witness :
  exists m,
    AddressSearch.error
      (AddressSearch.handleSearch
         (sample_browser
            (server_fetch (Rows sample_rows)
               (sample_env (Val []) (Val None) (Val None) [])))
         (AddressSearch.setAddress "8 Lynnbrook Road" AddressSearch.initial))
    = Some (if is_empty m then "Failed to process address" else m).
Proof.
  destruct (form_shows_handler_error (Rows sample_rows)
              (sample_env (Val []) (Val None) (Val None) [])
              (sample_browser
                 (server_fetch (Rows sample_rows)
                    (sample_env (Val []) (Val None) (Val None) [])))
              (AddressSearch.setAddress "8 Lynnbrook Road" AddressSearch.initial))
    as (m & _ & H & _).
  - reflexivity.
  - vm_compute. reflexivity.
  - vm_compute. discriminate.
  - exists m. exact H.
Defined.

Lemma wire_success_transactions zipcode info searchUrl ts cityS stateS :
  city info = VStr cityS -> state_id info = VStr stateS ->
  exists ts' fields,
    wire (body (success zipcode info searchUrl ts)) = VObj fields /\
    field "transactions" fields = VArr ts' /\
    length ts' = length ts.
Proof.
  intros Hc Hs.
  exists ((fix items_wire (l : list value) : list value :=
             match l with
             | [] => []
             | VUndef :: l' => VNull :: items_wire l'
             | x :: l' => wire x :: items_wire l'
             end) ts).
  assert (Hlen : length ((fix items_wire (l : list value) : list value :=
             match l with
             | [] => []
             | VUndef :: l' => VNull :: items_wire l'
             | x :: l' => wire x :: items_wire l'
             end) ts) = length ts).
  { induction ts as [|t ts IH]; [reflexivity|]. destruct t; simpl; now rewrite IH. }
  unfold success, NextResponse_json. simpl. rewrite Hc, Hs.
  destruct (county_name info); destruct (state_name info);
    (eexists; split; [reflexivity|]; split; [reflexivity | exact Hlen]).
Qed.

(** X21.  The form in front of the route handler, on an address that is not
    blank: when the handler answers 200, [handleSearch] leaves the state
    with [error] [null], [result] the response body as [response.json()]
    reads it, [loading] [false], and three complete steps, the third one
    being "Found property transactions" when the response has at least one
    transaction and "No transactions found for this property" when it has
    none.  The statement is about the state variables, not about what the
    component renders from them. *)
Theorem form_shows_handler_success file env w rendered :
  fetch w = server_fetch file env ->
  is_empty (trim (AddressSearch.address rendered)) = false ->
  let r := snd (serve file env
                  (Val (VObj [("address", VStr (AddressSearch.address rendered))]))) in
  let st := AddressSearch.handleSearch w rendered in
  status r = 200 ->
  exists ts,
    prop "transactions" (body r) = VArr ts /\
    AddressSearch.error st = None /\
    AddressSearch.result st = Some (wire (body r)) /\
    AddressSearch.loading st = false /\
    AddressSearch.steps st
    = [first_step w rendered "complete";
       later_step w rendered 1 "Found location information";
       later_step w rendered 2
         (match ts with
          | [] => "No transactions found for this property"
          | _ => "Found property transactions"
          end)].
Proof.
  intros Hfetch Hne. cbv zeta. unfold serve.
  pose proof (POST_outcome env (module_load file)
                (Val (VObj [("address", VStr (AddressSearch.address rendered))])))
    as Hout.
  unfold AddressSearch.handleSearch. rewrite Hne.
  unfold AddressSearch.after_fetch. rewrite Hfetch. unfold server_fetch, serve.
  cbv zeta in Hout.
  destruct Hout as [(m & code & -> & Hcode)|(a & z & i & c & s & ts & Hres & -> & _)].
  { rewrite status_error_response. intros ->. destruct Hcode as [|[|]]; discriminate. }
  intros _. exists ts.
  destruct Hres as (b & _ & _ & _ & _ & Hc & Hs).
  split; [now rewrite (prop_success "transactions" _ _ _ _ _ _ Hc Hs) by auto|].
  rewrite status_success. cbn [json ok negb Nat.leb andb].
  destruct (wire_success_transactions z i
              (make_searchUrl (toLowerCase c) (toLowerCase s)) ts c s Hc Hs)
    as (ts' & fields & -> & Hts & Hlen).
  cbn [prop]. rewrite Hts. cbn [truthy andb AddressSearch.length_positive].
  destruct ts as [|t ts]; destruct ts' as [|t' ts'']; try discriminate;
    simpl; auto.
Qed.

Lemma form_shows_handler_success_witness :
  exists ts : list value,
    AddressSearch.steps
      (AddressSearch.handleSearch
         (sample_browser
            (server_fetch (Rows sample_rows)
               (sample_env (Val [sample_candidate]) (Val (Some "[]")) (Val None)
                  [("[]", VArr [])])))
         (AddressSearch.setAddress "8 Lynnbrook Road, 06824" AddressSearch.initial))
    = [first_step
         (sample_browser
            (server_fetch (Rows sample_rows)
               (sample_env (Val [sample_candidate]) (Val (Some "[]")) (Val None)
                  [("[]", VArr [])])))
         (AddressSearch.setAddress "8 Lynnbrook Road, 06824" AddressSearch.initial)
         "complete";
       later_step
         (sample_browser
            (server_fetch (Rows sample_rows)
               (sample_env (Val [sample_candidate]) (Val (Some "[]")) (Val None)
                  [("[]", VArr [])])))
         (AddressSearch.setAddress "8 Lynnbrook Road, 06824" AddressSearch.initial)
         1 "Found location information";
       later_step
         (sample_browser
            (server_fetch (Rows sample_rows)
               (sample_env (Val [sample_candidate]) (Val (Some "[]")) (Val None)
                  [("[]", VArr [])])))
         (AddressSearch.setAddress "8 Lynnbrook Road, 06824" AddressSearch.initial)
         2
         (match ts with
          | [] => "No transactions found for this property"
          | _ => "Found property transactions"
          end)].
Proof.
  destruct (form_shows_handler_success (Rows sample_rows)
              (sample_env (Val [sample_candidate]) (Val (Some "[]")) (Val None)
                 [("[]", VArr [])])
              (sample_browser
                 (server_fetch (Rows sample_rows)
                    (sample_env (Val [sample_candidate]) (Val (Some "[]"))
                       (Val None) [("[]", VArr [])])))
              (AddressSearch.setAddress "8 Lynnbrook Road, 06824"
                 AddressSearch.initial))
    as (ts & _ & _ & _ & _ & H).
  - reflexivity.
  - vm_compute. reflexivity.
  - vm_compute. reflexivity.
  - exists ts. exact H.
Defined.

(** X22.  [updateLastStep] changes the status of the last step and nothing
    else: the steps before it, and the [id], the message and the time of the
    last one, are kept; on an empty list it does nothing. *)
Theorem updateLastStep_last_only status st :
  (AddressSearch.steps st = [] ->
   AddressSearch.updateLastStep status st = st) /\
  (forall done last,
     AddressSearch.steps st = done ++ [last] ->
     AddressSearch.steps (AddressSearch.updateLastStep status st)
     = done ++ [{| AddressSearch.id := AddressSearch.id last;
                   AddressSearch.message := AddressSearch.message last;
                   AddressSearch.status := status;
                   AddressSearch.timestamp := AddressSearch.timestamp last |}]).
Proof.
  split.
  - intros H. destruct st as [a l e r s n]. simpl in H. subst s. reflexivity.
  - intros done last H. unfold AddressSearch.updateLastStep. simpl. rewrite H.
    clear H. induction done as [|x done IH]; [reflexivity|].
    simpl. rewrite IH. destruct (done ++ [last]) eqn:E; [|reflexivity].
    now destruct done.
Qed.

Lemma updateLastStep_last_only_witness :
  AddressSearch.updateLastStep "error" AddressSearch.initial
  = AddressSearch.initial /\
  AddressSearch.steps
    (AddressSearch.updateLastStep "error"
       (AddressSearch.setSteps (fun _ => sample_steps) AddressSearch.initial))
  = [{| AddressSearch.id := "step-0";
        AddressSearch.message := "Processing address and extracting ZIP code...";
        AddressSearch.status := "complete";
        AddressSearch.timestamp := "10:15:00 AM" |};
     {| AddressSearch.id := "step-0";
        AddressSearch.message := "Found location information";
        AddressSearch.status := "error";
        AddressSearch.timestamp := "10:15:01 AM" |}].
Proof.
  split.
  - apply (proj1 (updateLastStep_last_only "error" AddressSearch.initial)).
    reflexivity.
  - apply (proj2 (updateLastStep_last_only "error"
                    (AddressSearch.setSteps (fun _ => sample_steps)
                       AddressSearch.initial))
             [{| AddressSearch.id := "step-0";
                 AddressSearch.message :=
                   "Processing address and extracting ZIP code...";
                 AddressSearch.status := "complete";
                 AddressSearch.timestamp := "10:15:00 AM" |}]
             {| AddressSearch.id := "step-0";
                AddressSearch.message := "Found location information";
                AddressSearch.status := "pending";
                AddressSearch.timestamp := "10:15:01 AM" |}).
    reflexivity.
Defined.

(* ===================================================================== *)
(** * Ties between candidates *)
(* ===================================================================== *)

Lemma goes_after_lt a b : goes_after a b = true -> (score a < score b)%Q.
Proof.
  unfold goes_after. intros H. apply negb_true_iff in H.
  apply Qnot_le_lt. intros Hle. apply Qle_bool_iff in Hle. congruence.
Qed.

Lemma head_insert_by_score a l :
  head (insert_by_score a l)
  = match head l with
    | Some b => if goes_after a b then Some b else Some a
    | None => Some a
    end.
Proof. destruct l as [|b l]; simpl; [reflexivity|]. now destruct (goes_after a b). Qed.

Lemma head_sort_by_score l : head (sort_by_score l) = first_best l.
Proof.
  induction l as [|a l IH]; [reflexivity|].
  simpl. now rewrite head_insert_by_score, IH.
Qed.

Lemma insert_by_score_front (p : TavilySearchResult -> bool) a l :
  Forall (fun c => (score c <= score a)%Q) l ->
  insert_by_score a (List.filter p l) = a :: List.filter p l.
Proof.
  intros Hall. destruct (List.filter p l) as [|c rest] eqn:Ef; [reflexivity|].
  assert (Hin : In c l).
  { apply (proj1 (filter_In p c l)). rewrite Ef. now left. }
  rewrite List.Forall_forall in Hall. specialize (Hall c Hin).
  simpl. unfold goes_after. apply Qle_bool_iff in Hall. now rewrite Hall.
Qed.

(** On a sorted list, filtering commutes with the insertion. *)
Lemma filter_insert_by_score (p : TavilySearchResult -> bool) a l :
  StronglySorted outranks l ->
  List.filter p (insert_by_score a l)
  = if p a then insert_by_score a (List.filter p l) else List.filter p l.
Proof.
  induction l as [|b l IH]; intros Hs; simpl.
  - destruct (p a); reflexivity.
  - inversion Hs as [|? ? Hs' Hall]; subst.
    destruct (goes_after a b) eqn:Hab; simpl.
    + rewrite (IH Hs'). destruct (p a), (p b); simpl; try reflexivity.
      now rewrite Hab.
    + destruct (p a) eqn:Hpa; [|reflexivity].
      destruct (p b) eqn:Hpb; simpl; [now rewrite Hab|].
      symmetry. apply insert_by_score_front.
      apply goes_after_false in Hab. unfold outranks in *.
      eapply List.Forall_impl; [|exact Hall]. intros c Hc. simpl in Hc.
      eapply Qle_trans; eassumption.
Qed.

Lemma filter_sort_by_score (p : TavilySearchResult -> bool) l :
  List.filter p (sort_by_score l) = sort_by_score (List.filter p l).
Proof.
  induction l as [|a l IH]; [reflexivity|].
  simpl. rewrite filter_insert_by_score by apply sort_by_score_sorted.
  rewrite IH. destruct (p a); reflexivity.
Qed.

Lemma select_result_first_best searchAddress results :
  select_result searchAddress results
  = first_best (candidate_pool searchAddress results).
Proof.
  unfold select_result, candidate_pool.
  rewrite filter_sort_by_score.
  pose proof (head_sort_by_score results) as Hall.
  pose proof (head_sort_by_score (List.filter (mentions searchAddress) results))
    as Hpool.
  destruct (sort_by_score results) as [|best more] eqn:Es.
  - assert (results = []) as ->.
    { pose proof (sort_by_score_perm results) as Hp. rewrite Es in Hp.
      now apply Permutation_nil in Hp. }
    reflexivity.
  - destruct (List.filter (mentions searchAddress) results) as [|x pool] eqn:Ef.
    + simpl. exact Hall.
    + destruct (sort_by_score (x :: pool)) as [|first more'] eqn:Ep.
      * exfalso. pose proof (sort_by_score_perm (x :: pool)) as Hp.
        rewrite Ep in Hp. apply Permutation_nil in Hp. discriminate.
      * exact Hpool.
Qed.

Lemma first_best_split l : forall best,
  first_best l = Some best ->
  exists earlier later,
    l = earlier ++ best :: later /\
    Forall (fun x => (score x < score best)%Q) earlier /\
    Forall (fun x => (score x <= score best)%Q) later.
Proof.
  induction l as [|a l IH]; intros best H; [discriminate|].
  simpl in H. destruct (first_best l) as [b|] eqn:Hb.
  - destruct (IH b eq_refl) as (earlier & later & -> & He & Hl).
    destruct (goes_after a b) eqn:Hab; injection H as <-.
    + exists (a :: earlier), later. split; [reflexivity|]. split; [|assumption].
      constructor; [now apply goes_after_lt | assumption].
    + apply goes_after_false in Hab. unfold outranks in Hab.
      exists [], (earlier ++ b :: later). split; [reflexivity|].
      split; [constructor|].
      apply Forall_app. split; [|constructor].
      * eapply List.Forall_impl; [|exact He]. intros x Hx. simpl in Hx.
        apply Qlt_le_weak. eapply Qlt_le_trans; eassumption.
      * assumption.
      * eapply List.Forall_impl; [|exact Hl]. intros x Hx. simpl in Hx.
        eapply Qle_trans; eassumption.
  - injection H as <-. destruct l as [|c l]; [|simpl in Hb;
      destruct (first_best l) as [d|]; [destruct (goes_after c d)|]; discriminate].
    exists [], []. repeat split; constructor.
Qed.

(** X23.  Ties between candidates go to the earliest one.  The candidate
    handed to the completion is taken among the results that mention the
    search address when there are any, among all the results otherwise; in
    that pool, read in the order in which the search returned it, every
    result before the candidate has a lower score and no result after it has
    a higher one. *)
Theorem resultToUse_is_first_best searchAddress results resultToUse :
  select_result searchAddress results = Some resultToUse ->
  exists earlier later,
    candidate_pool searchAddress results = earlier ++ resultToUse :: later /\
    Forall (fun x => (score x < score resultToUse)%Q) earlier /\
    Forall (fun x => (score x <= score resultToUse)%Q) later.
Proof.
  rewrite select_result_first_best. apply first_best_split.
Qed.

Lemma resultToUse_is_first_best_witness :
  exists earlier later,
    candidate_pool "8 Lynnbrook Road" [candidate_lower; candidate_upper; sample_candidate]
    = earlier ++ candidate_upper :: later /\
    Forall (fun x => (score x < score candidate_upper)%Q) earlier.
Proof.
  destruct (resultToUse_is_first_best "8 Lynnbrook Road"
              [candidate_lower; candidate_upper; sample_candidate] candidate_upper)
    as (earlier & later & H1 & H2 & _).
  - vm_compute. reflexivity.
  - exists earlier, later. split; assumption.
Defined.

(* ===================================================================== *)
(** * Requests that stop before the search *)
(* ===================================================================== *)

(** X24.  A request whose address holds no zip code, or a zip code that the
    directory does not have, is answered without consulting any service:
    the banners logged and the response are the same in any two
    environments, whatever their search, extract and completion services and
    their [JSON.parse] would answer, and the banner of the search is not
    among them. *)
Theorem unresolved_request_consults_nothing env1 env2 zipData body address :
  prop "address" body = VStr address ->
  extractZipcode address = None \/
  (exists zipcode,
     extractZipcode address = Some zipcode /\
     lookupZip zipData zipcode = Val None) ->
  POST env1 zipData (Val body) = POST env2 zipData (Val body) /\
  ~ In "=== Starting Tavily Search ===" (fst (POST env1 zipData (Val body))).
Proof.
  intros Ha Hz.
  assert (Hbody : exists l r, forall env,
            POST_body env zipData (Val body) = (l, Val r) /\
            ~ In "=== Starting Tavily Search ===" l).
  { destruct body; simpl in Ha; try discriminate.
    destruct Hz as [Hz|(zipcode & Hz & Hl)].
    - eexists _, _. intros env. unfold POST_body, bind, lift, ret, log. simpl.
      rewrite Ha, Hz. simpl. split; [reflexivity|].
      intros [H|[H|[]]]; discriminate.
    - eexists _, _. intros env. unfold POST_body, bind, lift, ret, log. simpl.
      rewrite Ha, Hz. simpl.
      rewrite (extractZipcode_nonempty _ _ Hz), Hl. simpl. split; [reflexivity|].
      intros [H|[H|[H|[]]]]; discriminate. }
  destruct Hbody as (l & r & Hb). unfold POST, catch_all.
  destruct (Hb env1) as [-> Hn]. destruct (Hb env2) as [-> _].
  split; [reflexivity | exact Hn].
Qed.

Lemma unresolved_request_consults_nothing_witness :
  POST (sample_env (Val [sample_candidate]) (Val (Some "[]")) (Val None)
          [("[]", VArr [])])
       (module_load (Rows sample_rows)) (sample_request "8 Lynnbrook Road, 06825")
  = POST (sample_env (Throw (ErrorObj "fetch failed")) (Val None) (Val None) [])
       (module_load (Rows sample_rows)) (sample_request "8 Lynnbrook Road, 06825").
Proof.
  apply (unresolved_request_consults_nothing _ _ _ _ "8 Lynnbrook Road, 06825").
  - reflexivity.
  - right. exists "06825". split; vm_compute; reflexivity.
Defined.
